(** * SFTP deploy action: a shallow embedding of [src/deploy.js]

    The action is a Node.js script that talks to four collaborators: the
    Actions toolkit ([@actions/core], [@actions/exec]), the file system
    ([fs], [path], [os]) and the console.  The script is embedded as a
    state-and-exception monad over a [World] that records what the
    collaborators would observe: the emitted events in program order, the
    temporary files, [process.env] and the ssh-agent (and the one script
    variable that is assigned inside a [try] and read in its [finally]).
    Everything the outside decides (process exit codes and output,
    directory contents, permission failures) is read from an [Env].

    Strings are Rocq [string]s (byte sequences), so [String.length] is the
    JavaScript [length] on ASCII data such as PEM keys. *)

From Stdlib Require Import String Ascii ZArith DecimalString Lia.
From stdpp Require Import base option list gmap strings.

Open Scope string_scope.
Open Scope list_scope.

(** ** JavaScript strings *)

Definition LF : string := String (ascii_of_nat 10) EmptyString.
Definition DQ : string := String (ascii_of_nat 34) EmptyString.

(** [s.endsWith(suffix)]: some tail of [s] is [suffix]. *)
Fixpoint endsWith (s suffix : string) : bool :=
  if String.eqb s suffix then true
  else match s with
       | EmptyString => false
       | String _ s' => endsWith s' suffix
       end.

(** [s.includes(sub)]. *)
Fixpoint includes (s sub : string) : bool :=
  if String.prefix sub s then true
  else match s with
       | EmptyString => false
       | String _ s' => includes s' sub
       end.

Definition is_space (c : ascii) : bool :=
  let n := nat_of_ascii c in
  Nat.eqb n 32 || Nat.eqb n 9 || Nat.eqb n 10 || Nat.eqb n 13
  || Nat.eqb n 11 || Nat.eqb n 12.

Fixpoint trimStart (s : string) : string :=
  match s with
  | String c s' => if is_space c then trimStart s' else s
  | EmptyString => EmptyString
  end.

Fixpoint string_rev (s : string) : string :=
  match s with
  | EmptyString => EmptyString
  | String c s' => string_rev s' +:+ String c EmptyString
  end.

(** [s.trim()]. *)
Definition trim (s : string) : string :=
  string_rev (trimStart (string_rev (trimStart s))).

(** Template interpolation of numbers: [`${n}`]. *)
Definition show_nat (n : nat) : string := NilZero.string_of_uint (Nat.to_uint n).
Definition show_Z (z : Z) : string := NilZero.string_of_int (Z.to_int z).

(** The capture group of the regular expressions the script matches the
    agent output against ([KEY=] followed by a captured run of
    non-semicolons): the text after the first occurrence of [key], up to
    the next semicolon. *)
Fixpoint until_semicolon (s : string) : string :=
  match s with
  | EmptyString => EmptyString
  | String c s' =>
      if Ascii.eqb c ";" then EmptyString else String c (until_semicolon s')
  end.

Fixpoint drop_chars (n : nat) (s : string) : string :=
  match n, s with
  | S n', String _ s' => drop_chars n' s'
  | _, _ => s
  end.

Fixpoint match_capture (key s : string) : option string :=
  if String.prefix key s
  then Some (until_semicolon (drop_chars (String.length key) s))
  else match s with
       | EmptyString => None
       | String _ s' => match_capture key s'
       end.

(** ** Values thrown and logged *)

(** The exceptions the script can see.  [Error] is [new Error(message)]
    raised by the script itself; the others are raised by the runtime or
    by the toolkit. *)
Inductive exn : Type :=
| Error (message : string)
| TypeError (message : string)
| ProcessFailed (tool : string) (code : Z)
| ProcessNotStarted (tool reason : string)
| FsError (code syscall path : string).

(** [error.message]. *)
Definition message (e : exn) : string :=
  match e with
  | Error m => m
  | TypeError m => m
  | ProcessFailed tool code =>
      "The process '" +:+ tool +:+ "' failed with exit code " +:+ show_Z code
  | ProcessNotStarted tool reason =>
      "There was an error when attempting to execute the process '" +:+ tool
      +:+ "'. This may indicate the process failed to start. Error: " +:+ reason
  | FsError code syscall path =>
      code +:+ ": " +:+ syscall +:+ " '" +:+ path +:+ "'"
  end.

(** Arguments of a console or toolkit logging call. *)
Inductive value : Type :=
| VStr (s : string)
| VErr (e : exn)
| VStack (e : exn)
| VFun.

Inductive sink : Type :=
| console_log_sink | console_warn_sink | console_error_sink
| core_info_sink | core_warning_sink | core_error_sink | core_debug_sink.

Inductive event : Type :=
| ELog (to : sink) (args : list value)
| EGroupStart (name : string)
| EGroupEnd
| ESetSecret (secret : string)
| ESetOutput (name value : string)
| ESetFailed (msg : string)
| ESpawn (commandLine : string) (args : list string) (stdin : option string)
| EExists (path : string)
| EReaddir (path : string) (recursive : bool)
| EWriteFile (path data : string) (mode : N)
| EUnlink (path : string).

(** ** The world and the environment *)

Record file : Type := { data : string; perm : N }.

Inductive kind : Type := RegularFile | Directory | OtherKind.

(** A directory entry and, for a directory, what is below it. *)
#[warnings="-register-all"]
Inductive node : Type :=
| File (name : string)
| Dir (name : string) (children : list node)
| Other (name : string).

Record ExecOutput : Type := { stdout : string; stderr : string; exitCode : Z }.

Inductive process : Type :=
| Exited (out : ExecOutput)
| NotStarted (reason : string).

Record World : Type := {
  trace : list event;          (* oldest first *)
  files : gmap string file;    (* the temp directory *)
  penv : gmap string string;   (* process.env *)
  agent : option (list string);(* keys held by the running ssh-agent *)
  spawned : nat;               (* processes started so far *)
  cleanup : bool               (* the script variable [cleanup] is set *)
}.

Record Env : Type := {
  inputs : gmap string string; (* the action inputs that are supplied, as
                                  core.getInput delivers them *)
  os_platform : string;
  os_tmpdir : string;
  path_join : string → string → string;
  proc : nat → string → list string → process;
                               (* how the n-th spawned process ends *)
  tree : string → option (list node);
                               (* directory contents; None: no such directory *)
  stat : string → option kind; (* fs.statSync; None: ENOENT *)
  denied : string → bool;      (* paths that cannot be written or removed *)
  clock : string               (* new Date().toISOString() *)
}.

Definition initial (fs0 : gmap string file) (pe : gmap string string) : World :=
  {| trace := []; files := fs0; penv := pe; agent := None; spawned := 0;
     cleanup := false |}.

(** ** The monad of the script *)

Inductive outcome (A : Type) : Type :=
| Return (a : A)
| Throw (e : exn).
Arguments Return {A} a.
Arguments Throw {A} e.

Definition M (A : Type) : Type := World → outcome A * World.

Global Instance M_ret : MRet M := λ A a w, (Return a, w).

Global Instance M_bind : MBind M := λ A B f m w,
  match m w with
  | (Return a, w') => f a w'
  | (Throw e, w') => (Throw e, w')
  end.

Definition throw {A} (e : exn) : M A := λ w, (Throw e, w).

(** [try { body } catch (e) { handler e }]. *)
Definition try_catch {A} (body : M A) (handler : exn → M A) : M A := λ w,
  match body w with
  | (Return a, w') => (Return a, w')
  | (Throw e, w') => handler e w'
  end.

(** [try { body } finally { fin }]: [fin] always runs; if it throws, its
    exception replaces the outcome of [body]. *)
Definition try_finally {A} (body : M A) (fin : M unit) : M A := λ w,
  match body w with
  | (r, w') =>
      match fin w' with
      | (Return _, w'') => (r, w'')
      | (Throw e, w'') => (Throw e, w'')
      end
  end.

Definition skip : M unit := mret ().

Definition emit (e : event) : M unit := λ w,
  (Return (),
   {| trace := trace w ++ [e]; files := files w; penv := penv w;
      agent := agent w; spawned := spawned w; cleanup := cleanup w |}).

Definition set_files (f : gmap string file → gmap string file) : M unit := λ w,
  (Return (),
   {| trace := trace w; files := f (files w); penv := penv w;
      agent := agent w; spawned := spawned w; cleanup := cleanup w |}).

Definition set_penv (k v : string) : M unit := λ w,
  (Return (),
   {| trace := trace w; files := files w; penv := <[k:=v]> (penv w);
      agent := agent w; spawned := spawned w; cleanup := cleanup w |}).

Definition set_cleanup (b : bool) : M unit := λ w,
  (Return (),
   {| trace := trace w; files := files w; penv := penv w;
      agent := agent w; spawned := spawned w; cleanup := b |}).

Definition get_cleanup : M bool := λ w, (Return (cleanup w), w).

Definition get_penv (k : string) : M (option string) := λ w, (Return (penv w !! k), w).

Definition file_present (p : string) : M bool := λ w,
  (Return (match files w !! p with Some _ => true | None => false end), w).

(** [for (const x of l) { s = body s x }]. *)
Fixpoint for_of {A S : Type} (l : list A) (body : S → A → M S) (s : S) : M S :=
  match l with
  | [] => mret s
  | x :: l' => s' ← body s x; for_of l' body s'
  end.

Definition console_log (args : list value) : M unit := emit (ELog console_log_sink args).
Definition console_warn (args : list value) : M unit := emit (ELog console_warn_sink args).
Definition console_error (args : list value) : M unit := emit (ELog console_error_sink args).

(** ** The collaborators, as the script's injectable dependencies

    [deployWithDependencies] receives its collaborators as objects; the
    records below are their interfaces.  [deploy] uses the defaults defined
    after them. *)

Module Core.
Record t : Type := {
  getInput : string → bool → M string;
  setSecret : string → M unit;
  setOutput : string → string → M unit;
  setFailed : string → M unit;
  startGroup : string → M unit;
  endGroup : M unit;
  info : string → M unit;
  warning : value → M unit;
  error : value → M unit;
  debug : string → M unit
}.
End Core.

Module Exec.
Record Listeners : Type := {
  on_stdout : string → M unit;
  on_stderr : string → M unit
}.
Record Options : Type := {
  ignoreReturnCode : bool;
  input : option string;
  silent : bool;
  listeners : option Listeners
}.
Record t : Type := {
  getExecOutput : string → list string → Options → M ExecOutput;
  exec : string → list string → Options → M Z
}.
End Exec.

(** [writeFile] and [unlink] stand for the promise and the synchronous
    calls alike: the script awaits the former. *)
Module Fs.
Record Dirent : Type := { name : string; entry_kind : kind }.
Record t : Type := {
  existsSync : string → M bool;
  readdirSync_recursive : string → M (list string);
  readdirSync_withFileTypes : string → M (list Dirent);
  statSync : string → M kind;
  writeFile : string → string → option N → M unit;
  unlink : string → M unit
}.
End Fs.

Module Os.
Record t : Type := { platform : string; tmpdir : string }.
End Os.

Module Path.
Record t : Type := { join : string → string → string }.
End Path.

(** The [dependencies] argument: a missing property selects the default. *)
Record Dependencies : Type := {
  coreModule : option Core.t;
  execModule : option Exec.t;
  fsModule : option Fs.t;
  osModule : option Os.t;
  pathModule : option Path.t
}.

(** The [params] argument: a missing property is read with [core.getInput]. *)
Record Params : Type := {
  host : option string;
  username : option string;
  port : option string;
  sourceDir : option string;
  remoteDir : option string;
  privateKey : option string
}.

(** [dirent.isFile()] and [stats.isFile()]. *)
Definition isFile (k : kind) : bool :=
  match k with RegularFile => true | _ => false end.

Definition no_options : Exec.Options :=
  {| Exec.ignoreReturnCode := false; Exec.input := None;
     Exec.silent := false; Exec.listeners := None |}.

Definition ignore_return_code : Exec.Options :=
  {| Exec.ignoreReturnCode := true; Exec.input := None;
     Exec.silent := false; Exec.listeners := None |}.

(** ** Directory trees *)

(** The entries below a directory, with paths relative to it, in the order
    of [fs.readdirSync(dir, { recursive: true })].  Node keeps a queue of
    directories to read, which starts with [dir]: it reads the directories
    of the queue one after the other, lists every entry of the directory
    read and appends those that are directories to the queue.  So the
    entries of a directory are listed together, before the entries of its
    subdirectories. *)

Definition entry_of (rel : string → string) (n : node) : string * kind :=
  match n with
  | File name => (rel name, RegularFile)
  | Dir name _ => (rel name, Directory)
  | Other name => (rel name, OtherKind)
  end.

(** A directory of the queue: how the name of an entry is written relative
    to [dir], and the entries. *)
Definition queued : Type := (string → string) * list node.

Definition read_directory (d : queued) : list (string * kind) := entry_of d.1 <$> d.2.

Definition subdirectories (join : string → string → string) (d : queued) : list queued :=
  flat_map
    (λ n, match n with
          | Dir name children => [(λ x, join (d.1 name) x, children)]
          | _ => []
          end)
    d.2.

(** The directories below an entry, counted along the longest path. *)
Fixpoint levels (n : node) : nat :=
  match n with
  | Dir _ children => S (foldr (λ c, Nat.max (levels c)) 0 children)
  | _ => 0
  end.

Definition levels_below (t : list node) : nat := foldr (λ c, Nat.max (levels c)) 0 t.

(** The queue is read level by level: the directories queued while a level
    is read are the next level.  [fuel] bounds the number of levels. *)
Fixpoint read_queue (fuel : nat) (join : string → string → string) (queue : list queued) :
  list (string * kind) :=
  match fuel with
  | 0 => []
  | S fuel =>
      flat_map read_directory queue
      ++ read_queue fuel join (flat_map (subdirectories join) queue)
  end.

Definition walk_all (join : string → string → string) (t : list node) :
  list (string * kind) :=
  read_queue (S (levels_below t)) join [(λ x, x, t)].

(** The entries directly in a directory, as
    [fs.readdirSync(dir, { withFileTypes: true })] lists them. *)
Definition dirent_of (n : node) : Fs.Dirent :=
  match n with
  | File name => {| Fs.name := name; Fs.entry_kind := RegularFile |}
  | Dir name _ => {| Fs.name := name; Fs.entry_kind := Directory |}
  | Other name => {| Fs.name := name; Fs.entry_kind := OtherKind |}
  end.

(** ** What the helper programs do to the world *)

Definition succeeded (p : process) : bool :=
  match p with
  | Exited out => Z.eqb (exitCode out) 0
  | NotStarted _ => false
  end.

(** [ssh-agent -s] forks an agent, [ssh-add -] loads the key on its
    standard input into the running agent, [ssh-agent -k] kills the agent;
    each only when it exits with status 0. *)
Definition agent_after (cmd : string) (args : list string) (stdin : option string)
    (p : process) (a : option (list string)) : option (list string) :=
  if succeeded p then
    if String.eqb cmd "ssh-agent" then
      match args with
      | [flag] => if String.eqb flag "-s" then Some []
                  else if String.eqb flag "-k" then None else a
      | _ => a
      end
    else if String.eqb cmd "ssh-add" then
      match args, a, stdin with
      | [flag], Some keys, Some k =>
          if String.eqb flag "-" then Some (keys ++ [k]) else a
      | _, _, _ => a
      end
    else a
  else a.

Section Defaults.
Variable env : Env.

(** *** [@actions/core] *)

(** The value [core.getInput(name)] delivers: empty when the input is not
    supplied.  The toolkit trims the value it delivers and applies
    [required] before trimming; [inputs] holds the delivered values, and an
    input is taken to be supplied with a value that is not empty. *)
Definition input (name : string) : string := default "" (inputs env !! name).

Definition core_getInput (name : string) (required : bool) : M string :=
  let val := input name in
  if required && String.eqb val "" then
    throw (Error ("Input required and not supplied: " +:+ name))
  else mret val.

Definition actions_core : Core.t :=
  {| Core.getInput := core_getInput;
     Core.setSecret := λ s, emit (ESetSecret s);
     Core.setOutput := λ n v, emit (ESetOutput n v);
     Core.setFailed := λ m, emit (ESetFailed m);
     Core.startGroup := λ n, emit (EGroupStart n);
     Core.endGroup := emit EGroupEnd;
     Core.info := λ m, emit (ELog core_info_sink [VStr m]);
     Core.warning := λ v, emit (ELog core_warning_sink [v]);
     Core.error := λ v, emit (ELog core_error_sink [v]);
     Core.debug := λ m, emit (ELog core_debug_sink [VStr m]) |}.

(** *** [@actions/exec]

    The toolkit starts the process, feeds [input] to its standard input
    and hands the output to the listeners.  It rejects when the process
    cannot be started and, unless [ignoreReturnCode] is set, when the exit
    status is not zero; the script relies on the latter where it passes
    [ignoreReturnCode: true] and inspects [exitCode] itself. *)

Definition spawn (cmd : string) (args : list string) (stdin : option string) : M process :=
  λ w,
    let p := proc env (spawned w) cmd args in
    (Return p,
     {| trace := trace w ++ [ESpawn cmd args stdin]; files := files w;
        penv := penv w; agent := agent_after cmd args stdin p (agent w);
        spawned := S (spawned w); cleanup := cleanup w |}).

Definition notify (ls : option Exec.Listeners) (out : ExecOutput) : M unit :=
  match ls with
  | None => skip
  | Some l =>
      (if String.eqb (stdout out) "" then skip else Exec.on_stdout l (stdout out));;
      (if String.eqb (stderr out) "" then skip else Exec.on_stderr l (stderr out))
  end.

Definition exec_run (cmd : string) (args : list string) (opts : Exec.Options) :
  M ExecOutput :=
  p ← spawn cmd args (Exec.input opts);
  match p with
  | NotStarted reason => throw (ProcessNotStarted cmd reason)
  | Exited out =>
      notify (Exec.listeners opts) out;;
      if Exec.ignoreReturnCode opts || Z.eqb (exitCode out) 0 then mret out
      else throw (ProcessFailed cmd (exitCode out))
  end.

Definition actions_exec : Exec.t :=
  {| Exec.getExecOutput := exec_run;
     Exec.exec := λ cmd args opts, out ← exec_run cmd args opts; mret (exitCode out) |}.

(** *** [fs], [os], [path] *)

Definition no_directory (syscall path : string) : exn :=
  match stat env path with
  | Some _ => FsError "ENOTDIR" ("not a directory, " +:+ syscall) path
  | None => FsError "ENOENT" ("no such file or directory, " +:+ syscall) path
  end.

Definition fs_existsSync (p : string) : M bool :=
  emit (EExists p);;
  mret (match tree env p, stat env p with None, None => false | _, _ => true end).

Definition fs_readdirSync_recursive (dir : string) : M (list string) :=
  emit (EReaddir dir true);;
  match tree env dir with
  | Some t => mret ((walk_all (path_join env) t).*1)
  | None => throw (no_directory "scandir" dir)
  end.

Definition fs_readdirSync_withFileTypes (dir : string) : M (list Fs.Dirent) :=
  emit (EReaddir dir false);;
  match tree env dir with
  | Some t => mret (dirent_of <$> t)
  | None => throw (no_directory "scandir" dir)
  end.

Definition fs_statSync (p : string) : M kind :=
  match stat env p with
  | Some k => mret k
  | None => throw (FsError "ENOENT" "no such file or directory, stat" p)
  end.

(** [mode] only applies when the file is created (default [0o666]); an
    existing file is truncated and keeps its permissions. *)
Definition fs_writeFile (p content : string) (mode : option N) : M unit :=
  emit (EWriteFile p content (default 438%N mode));;
  if denied env p then throw (FsError "EACCES" "permission denied, open" p)
  else set_files (λ m,
         match m !! p with
         | Some old => <[p := {| data := content; perm := perm old |}]> m
         | None => <[p := {| data := content; perm := default 438%N mode |}]> m
         end).

Definition fs_unlink (p : string) : M unit :=
  emit (EUnlink p);;
  present ← file_present p;
  if negb present then throw (FsError "ENOENT" "no such file or directory, unlink" p)
  else if denied env p then throw (FsError "EACCES" "permission denied, unlink" p)
  else set_files (delete p).

Definition node_fs : Fs.t :=
  {| Fs.existsSync := fs_existsSync;
     Fs.readdirSync_recursive := fs_readdirSync_recursive;
     Fs.readdirSync_withFileTypes := fs_readdirSync_withFileTypes;
     Fs.statSync := fs_statSync;
     Fs.writeFile := fs_writeFile;
     Fs.unlink := fs_unlink |}.

Definition node_os : Os.t := {| Os.platform := os_platform env; Os.tmpdir := os_tmpdir env |}.

Definition node_path : Path.t := {| Path.join := path_join env |}.

End Defaults.

(** ** The script: [deploy]

    The current [src/deploy.js]: tool check, input validation with key
    normalization, agent start, batch file, identity file, transfer,
    cleanup. *)

Definition with_input (privateKey : string) : Exec.Options :=
  {| Exec.ignoreReturnCode := false; Exec.input := Some privateKey;
     Exec.silent := true; Exec.listeners := None |}.

(** The batch script built in [batchFileContent]: two fixed lines, then
    the loop over the directory entries. *)
Definition put_line (sourcePath name : string) : string :=
  "put " +:+ DQ +:+ sourcePath +:+ DQ +:+ " " +:+ DQ +:+ name +:+ DQ +:+ LF.

Definition batchFileContent (join : string → string → string)
    (remoteDir sourceDir : string) (files : list Fs.Dirent) : string :=
  fold_left
    (λ content file,
       let sourcePath := join sourceDir (Fs.name file) in
       if isFile (Fs.entry_kind file)
       then content +:+ put_line sourcePath (Fs.name file)
       else content)
    files
    (("-mkdir " +:+ remoteDir +:+ LF) +:+ ("cd " +:+ remoteDir +:+ LF)).

(** The value of [privateKey] after the normalization statement of
    [deploy]. *)
Definition normalizeKey (privateKey : string) : string :=
  if negb (endsWith privateKey LF) then privateKey +:+ LF else privateKey.

(** The transfer manifest: the entries the loop of [batchFileContent]
    writes a [put] line for. *)
Definition manifest (files : list Fs.Dirent) : list Fs.Dirent :=
  filter (λ file, isFile (Fs.entry_kind file) = true) files.

(** The lines of a script, one after the other. *)
Definition lines (l : list string) : string := foldr String.append "" l.

(** [(...args) => args.join('/')], the [pathModule] of the test suite. *)
Definition slash_join (a b : string) : string := a +:+ "/" +:+ b.

(** The answers of [fs.statSync] for the paths below [dir], read off the
    directory tree. *)
Definition stat_in_tree (join : string → string → string) (dir : string)
    (t : list node) (p : string) : option kind :=
  snd <$> find (λ e, String.eqb (join dir e.1) p) (walk_all join t).

Definition sftpCommand (identityFile batchFilePath port username host : string) : string :=
  "sftp -v -o StrictHostKeyChecking=no -o UserKnownHostsFile=/dev/null -i "
  +:+ identityFile +:+ " -b " +:+ batchFilePath +:+ " -P " +:+ port +:+ " "
  +:+ username +:+ "@" +:+ host.

Definition configuration_message (pad host username port sourceDir remoteDir privateKey : string) :
  string :=
  "Configuration validated:" +:+ LF
  +:+ pad +:+ "- Host: " +:+ host +:+ LF
  +:+ pad +:+ "- Username: " +:+ username +:+ LF
  +:+ pad +:+ "- Port: " +:+ port +:+ LF
  +:+ pad +:+ "- Source Directory: " +:+ sourceDir +:+ LF
  +:+ pad +:+ "- Remote Directory: " +:+ remoteDir +:+ LF
  +:+ pad +:+ "- Private Key Length: " +:+ show_nat (String.length privateKey)
  +:+ " characters".

Section Script.
Variable env : Env.

Local Abbreviation core := (actions_core env).
Local Abbreviation exec := (actions_exec env).
Local Abbreviation fs := (node_fs env).
Local Abbreviation os := (node_os env).
Local Abbreviation path := (node_path env).

Definition checkAndInstallSshTools : M unit :=
  Core.startGroup core "🔧 Checking SSH tools";;
  try_finally
    (try_catch
       (Core.info core "Checking if ssh-add is available...";;
        sshAddResult ← Exec.getExecOutput exec "which" ["ssh-add"] ignore_return_code;
        (if negb (Z.eqb (exitCode sshAddResult) 0) then
           Core.info core "ssh-add not found, installing OpenSSH client...";;
           (if String.eqb (Os.platform os) "linux" then
              Exec.exec exec "sudo" ["apt-get"; "update"] no_options;;
              Exec.exec exec "sudo" ["apt-get"; "install"; "-y"; "openssh-client"] no_options;;
              skip
            else if String.eqb (Os.platform os) "darwin" then
              Core.info core "On macOS, OpenSSH should be pre-installed"
            else if String.eqb (Os.platform os) "win32" then
              Core.warning core
                (VStr "On Windows, please ensure OpenSSH is installed via Windows features")
            else skip);;
           verifyResult ← Exec.getExecOutput exec "which" ["ssh-add"] ignore_return_code;
           if negb (Z.eqb (exitCode verifyResult) 0) then
             throw (Error "Failed to install or locate ssh-add after installation attempt")
           else skip
         else skip);;
        Core.info core "SSH tools are available")
       (λ error,
          Core.error core (VStr "Failed to setup SSH tools");;
          Core.error core (VErr error);;
          throw error))
    (Core.endGroup core).

(** The function [startSshAgent] returns: it stops the agent. *)
Definition terminate_agent : M unit :=
  Core.info core "Terminating SSH agent...";;
  Exec.exec exec "ssh-agent" ["-k"] no_options;;
  skip.

Definition startSshAgent (privateKey : string) : M (M unit) :=
  Core.startGroup core "🔐 Setting up SSH Agent";;
  try_finally
    (try_catch
       ((if String.eqb privateKey "" then throw (Error "Private key is required")
         else skip);;
        Core.info core "Starting ssh-agent process...";;
        agentInfo ← Exec.getExecOutput exec "ssh-agent" ["-s"] no_options;
        Core.info core "ssh-agent output:";;
        (if String.eqb (stdout agentInfo) "" then
           throw (Error "Failed to get ssh-agent output")
         else skip);;
        match match_capture "SSH_AUTH_SOCK=" (stdout agentInfo),
              match_capture "SSH_AGENT_PID=" (stdout agentInfo) with
        | Some authSock, Some agentPid =>
            set_penv "SSH_AUTH_SOCK" authSock;;
            set_penv "SSH_AGENT_PID" agentPid;;
            Core.info core ("SSH Agent started with PID: " +:+ agentPid);;
            Core.info core "Adding SSH key to agent...";;
            Exec.getExecOutput exec "ssh-add" ["-"] (with_input privateKey);;
            Core.info core "SSH key added successfully";;
            mret terminate_agent
        | _, _ => throw (Error "Failed to parse ssh-agent output")
        end)
       (λ error,
          Core.error core (VStr "Failed to setup SSH agent");;
          Core.error core (VErr error);;
          throw error))
    (Core.endGroup core).

Definition getFileCount (directory : string) : M nat :=
  files ← Fs.readdirSync_recursive fs directory;
  for_of files
    (λ count file,
       let fullPath := Path.join path directory file in
       stats ← Fs.statSync fs fullPath;
       mret (if isFile stats then S count else count))
    0.

Definition deploy : M bool :=
  console_log [VStr "Starting deployment process..."];;
  try_catch
    (checkAndInstallSshTools;;
     console_log [VStr "Validating input parameters..."];;
     host ← Core.getInput core "host" true;
     username ← Core.getInput core "username" true;
     port ← Core.getInput core "port" false;
     let port := if String.eqb port "" then "22" else port in
     sourceDir ← Core.getInput core "source_dir" true;
     remoteDir ← Core.getInput core "remote_dir" true;
     privateKey ← Core.getInput core "private_key" true;
     privateKey ←
       (if negb (endsWith privateKey LF) then
          console_log [VStr "Added missing newline to private key"];;
          mret (privateKey +:+ LF)
        else mret privateKey);
     Core.setSecret core privateKey;;
     console_log
       [VStr (configuration_message "            " host username port sourceDir
                remoteDir privateKey)];;
     console_log [VStr "Starting SSH agent..."];;
     agentInfo ← startSshAgent privateKey;
     console_log [VStr "SSH agent started successfully:"; VFun];;
     console_log [VStr "Creating SFTP batch file..."];;
     let batchFilePath := Path.join path (Os.tmpdir os) "sftp_batch" in
     fileCount ← getFileCount sourceDir;
     console_log
       [VStr ("Found " +:+ show_nat fileCount
              +:+ " files to transfer in source directory")];;
     files ← Fs.readdirSync_withFileTypes fs sourceDir;
     let batchFileContent := batchFileContent (Path.join path) remoteDir sourceDir files in
     Fs.writeFile fs batchFilePath batchFileContent None;;
     console_log [VStr "SFTP batch file created successfully at:"; VStr batchFilePath];;
     console_log [VStr "Batch file contents:"; VStr batchFileContent];;
     console_log [VStr "Preparing SFTP command..."];;
     let identityFile := Path.join path (Os.tmpdir os) "deploy_identity" in
     Fs.writeFile fs identityFile privateKey (Some 384%N);;
     console_log [VStr ("Identity file created at: " +:+ identityFile)];;
     let sftpCommand := sftpCommand identityFile batchFilePath port username host in
     console_log [VStr ("Executing SFTP command: " +:+ sftpCommand)];;
     console_log [VStr "Starting file transfer..."];;
     try_catch
       (result ← Exec.getExecOutput exec sftpCommand [] no_options;
        console_log [VStr "SFTP command output:"; VStr (stdout result)];;
        (if String.eqb (stderr result) "" then skip
         else console_warn [VStr "SFTP command stderr:"; VStr (stderr result)]);;
        console_log
          [VStr ("SFTP transfer completed with exit code: " +:+ show_Z (exitCode result))];;
        try_catch
          (Fs.unlink fs identityFile;;
           console_log [VStr "Temporary identity file deleted"])
          (λ err, console_warn [VStr "Error deleting temporary identity file:"; VErr err]))
       (λ sftpError,
          console_error [VStr "SFTP command failed:"; VErr sftpError];;
          try_catch
            (Fs.unlink fs identityFile;;
             console_log [VStr "Temporary identity file deleted"])
            (λ err, console_warn [VStr "Error deleting temporary identity file:"; VErr err]);;
          throw sftpError);;
     console_log [VStr "Starting cleanup process..."];;
     try_catch
       (Fs.unlink fs batchFilePath;;
        console_log [VStr "Batch file deleted successfully"])
       (λ error, console_warn [VStr "Error deleting batch file:"; VErr error]);;
     try_catch
       (Exec.exec exec "ssh-agent" ["-k"] no_options;;
        console_log [VStr "SSH agent killed successfully"])
       (λ error, console_warn [VStr "Error killing SSH agent:"; VErr error]);;
     console_log [VStr "Deployment completed successfully!"];;
     mret true)
    (λ error,
       console_error [VStr "Deployment failed with error:"; VErr error];;
       console_error [VStr "Error stack trace:"; VStack error];;
       throw error).

End Script.

(** ** The script: [deployWithDependencies]

    The exported variant for tests.  Its three local helpers are the
    closures the source defines inside it; they are given here with the
    injected modules as arguments.  The console is not injected. *)

Section Injected.
Variable env : Env.

Local Abbreviation core := (actions_core env).
Local Abbreviation exec := (actions_exec env).
Local Abbreviation fs := (node_fs env).
Local Abbreviation os := (node_os env).
Local Abbreviation path := (node_path env).

Definition checkAndInstallSshToolsWithDeps
    (coreModule : Core.t) (execModule : Exec.t) (osModule : Os.t) : M unit :=
  Core.startGroup coreModule "🔧 Checking SSH tools";;
  try_finally
    (try_catch
       (Core.info coreModule "Checking if ssh-add is available...";;
        sshAddResult ← Exec.getExecOutput execModule "which" ["ssh-add"] ignore_return_code;
        (if negb (Z.eqb (exitCode sshAddResult) 0) then
           Core.info coreModule "ssh-add not found, installing OpenSSH client...";;
           (if String.eqb (Os.platform osModule) "linux" then
              Exec.exec execModule "sudo" ["apt-get"; "update"] no_options;;
              Exec.exec execModule "sudo" ["apt-get"; "install"; "-y"; "openssh-client"]
                no_options;;
              skip
            else if String.eqb (Os.platform osModule) "darwin" then
              Core.info coreModule "On macOS, OpenSSH should be pre-installed"
            else if String.eqb (Os.platform osModule) "win32" then
              Core.warning coreModule
                (VStr "On Windows, please ensure OpenSSH is installed via Windows features")
            else skip);;
           verifyResult ← Exec.getExecOutput execModule "which" ["ssh-add"] ignore_return_code;
           if negb (Z.eqb (exitCode verifyResult) 0) then
             throw (Error "Failed to install or locate ssh-add after installation attempt")
           else skip
         else skip);;
        Core.info coreModule "SSH tools are available")
       (λ error,
          Core.error coreModule (VStr "Failed to setup SSH tools");;
          Core.error coreModule (VErr error);;
          throw error))
    (Core.endGroup coreModule).

Definition terminate_agent_with (coreModule : Core.t) (execModule : Exec.t) : M unit :=
  Core.info coreModule "Terminating SSH agent...";;
  Exec.exec execModule "ssh-agent" ["-k"] no_options;;
  skip.

Definition startSshAgentWithDeps
    (coreModule : Core.t) (execModule : Exec.t) (pk : string) : M (M unit) :=
  Core.startGroup coreModule "🔐 Setting up SSH Agent";;
  try_finally
    (try_catch
       ((if String.eqb pk "" then throw (Error "Private key is required") else skip);;
        Core.info coreModule "Starting ssh-agent process...";;
        agentInfo ← Exec.getExecOutput execModule "ssh-agent" ["-s"] no_options;
        Core.info coreModule "ssh-agent output:";;
        (if String.eqb (stdout agentInfo) "" then
           throw (Error "Failed to get ssh-agent output")
         else skip);;
        match match_capture "SSH_AUTH_SOCK=" (stdout agentInfo),
              match_capture "SSH_AGENT_PID=" (stdout agentInfo) with
        | Some authSock, Some agentPid =>
            set_penv "SSH_AUTH_SOCK" authSock;;
            set_penv "SSH_AGENT_PID" agentPid;;
            Core.info coreModule ("SSH Agent started with PID: " +:+ agentPid);;
            Core.info coreModule "Adding SSH key to agent...";;
            Exec.getExecOutput execModule "ssh-add" ["-"] (with_input pk);;
            Core.info coreModule "SSH key added successfully";;
            mret (terminate_agent_with coreModule execModule)
        | _, _ => throw (Error "Failed to parse ssh-agent output")
        end)
       (λ error,
          Core.error coreModule (VStr "Failed to setup SSH agent");;
          Core.error coreModule (VErr error);;
          throw error))
    (Core.endGroup coreModule).

Definition getFileCountWithDeps
    (fsModule : Fs.t) (pathModule : Path.t) (directory : string) : M nat :=
  files ← Fs.readdirSync_recursive fsModule directory;
  for_of files
    (λ count file,
       let fullPath := Path.join pathModule directory file in
       stats ← Fs.statSync fsModule fullPath;
       mret (if isFile stats then S count else count))
    0.

(** A destructured property with a default: the default is evaluated only
    when the property is missing. *)
Definition or_default {A : Type} (given : option A) (dflt : M A) : M A :=
  match given with
  | Some v => mret v
  | None => dflt
  end.

Definition deployWithDependencies (params : Params) (dependencies : Dependencies) : M bool :=
  host ← or_default (host params) (Core.getInput core "host" true);
  username ← or_default (username params) (Core.getInput core "username" true);
  port ← or_default (port params)
            (port ← Core.getInput core "port" false;
             mret (if String.eqb port "" then "22" else port));
  sourceDir ← or_default (sourceDir params) (Core.getInput core "source_dir" true);
  remoteDir ← or_default (remoteDir params) (Core.getInput core "remote_dir" true);
  privateKey ← or_default (privateKey params) (Core.getInput core "private_key" true);
  let coreModule := default core (coreModule dependencies) in
  let execModule := default exec (execModule dependencies) in
  let fsModule := default fs (fsModule dependencies) in
  let osModule := default os (osModule dependencies) in
  let pathModule := default path (pathModule dependencies) in
  console_log [VStr "Starting deployment process with injected dependencies..."];;
  try_catch
    (checkAndInstallSshToolsWithDeps coreModule execModule osModule;;
     console_log [VStr "Validating input parameters..."];;
     Core.setSecret coreModule privateKey;;
     console_log
       [VStr (configuration_message "                " host username port sourceDir
                remoteDir privateKey)];;
     console_log [VStr "Starting SSH agent..."];;
     agentInfo ← startSshAgentWithDeps coreModule execModule privateKey;
     console_log [VStr "SSH agent started successfully:"; VFun];;
     console_log [VStr "Creating SFTP batch file..."];;
     let batchFilePath := Path.join pathModule (Os.tmpdir osModule) "sftp_batch" in
     fileCount ← getFileCountWithDeps fsModule pathModule sourceDir;
     console_log
       [VStr ("Found " +:+ show_nat fileCount
              +:+ " files to transfer in source directory")];;
     files ← Fs.readdirSync_withFileTypes fsModule sourceDir;
     let batchFileContent :=
       batchFileContent (Path.join pathModule) remoteDir sourceDir files in
     Fs.writeFile fsModule batchFilePath batchFileContent None;;
     console_log [VStr "SFTP batch file created successfully at:"; VStr batchFilePath];;
     console_log [VStr "Batch file contents:"; VStr batchFileContent];;
     console_log [VStr "Preparing SFTP command..."];;
     let identityFile := Path.join pathModule (Os.tmpdir osModule) "deploy_identity" in
     Fs.writeFile fsModule identityFile privateKey (Some 384%N);;
     console_log [VStr ("Identity file created at: " +:+ identityFile)];;
     let sftpCommand := sftpCommand identityFile batchFilePath port username host in
     console_log [VStr ("Executing SFTP command: " +:+ sftpCommand)];;
     console_log [VStr "Starting file transfer..."];;
     try_catch
       (result ← Exec.getExecOutput execModule sftpCommand [] no_options;
        console_log [VStr "SFTP command output:"; VStr (stdout result)];;
        (if String.eqb (stderr result) "" then skip
         else console_warn [VStr "SFTP command stderr:"; VStr (stderr result)]);;
        console_log
          [VStr ("SFTP transfer completed with exit code: " +:+ show_Z (exitCode result))];;
        try_catch
          (Fs.unlink fsModule identityFile;;
           console_log [VStr "Temporary identity file deleted"])
          (λ err, console_warn [VStr "Error deleting temporary identity file:"; VErr err]))
       (λ sftpError,
          console_error [VStr "SFTP command failed:"; VErr sftpError];;
          try_catch
            (Fs.unlink fsModule identityFile;;
             console_log [VStr "Temporary identity file deleted"])
            (λ err, console_warn [VStr "Error deleting temporary identity file:"; VErr err]);;
          throw sftpError);;
     console_log [VStr "Starting cleanup process..."];;
     try_catch
       (Fs.unlink fsModule batchFilePath;;
        console_log [VStr "Batch file deleted successfully"])
       (λ error, console_warn [VStr "Error deleting batch file:"; VErr error]);;
     try_catch
       (Exec.exec execModule "ssh-agent" ["-k"] no_options;;
        console_log [VStr "SSH agent killed successfully"])
       (λ error, console_warn [VStr "Error killing SSH agent:"; VErr error]);;
     console_log [VStr "Deployment completed successfully!"];;
     mret true)
    (λ error,
       console_error [VStr "Deployment failed with error:"; VErr error];;
       console_error [VStr "Error stack trace:"; VStack error];;
       throw error).

End Injected.

(** ** The script: the ES-module variant of [src/deploy.js]

    The second [deploy] kept under [src/]: it validates the source
    directory first, transfers with [put -r] under the agent alone, sets
    the action outputs, and cleans up in [finally] blocks. *)

Module EsmVariant.
Section Script.
Variable env : Env.

Local Abbreviation core := (actions_core env).
Local Abbreviation exec := (actions_exec env).
Local Abbreviation fs := (node_fs env).
Local Abbreviation path := (node_path env).

Definition terminate_agent : M unit :=
  Core.info core "Terminating SSH agent...";;
  Exec.exec exec "ssh-agent" ["-k"] no_options;;
  skip.

Definition startSshAgent (privateKey : string) : M (M unit) :=
  Core.startGroup core "🔐 Setting up SSH Agent";;
  try_finally
    (try_catch
       (Core.info core "Starting ssh-agent process...";;
        agentInfo ← Exec.getExecOutput exec "ssh-agent" ["-s"] no_options;
        authSock ←
          match match_capture "SSH_AUTH_SOCK=" (stdout agentInfo) with
          | Some m => mret m
          | None => throw (TypeError "Cannot read properties of null (reading '1')")
          end;
        agentPid ←
          match match_capture "SSH_AGENT_PID=" (stdout agentInfo) with
          | Some m => mret m
          | None => throw (TypeError "Cannot read properties of null (reading '1')")
          end;
        set_penv "SSH_AUTH_SOCK" authSock;;
        set_penv "SSH_AGENT_PID" agentPid;;
        Core.info core ("SSH Agent started with PID: " +:+ agentPid);;
        Core.info core "Adding SSH key to agent...";;
        Exec.getExecOutput exec "ssh-add" ["-"] (with_input privateKey);;
        Core.info core "SSH key added successfully";;
        mret terminate_agent)
       (λ error,
          Core.error core (VStr "Failed to setup SSH agent");;
          throw error))
    (Core.endGroup core).

Definition getFileCount (directory : string) : M nat :=
  files ← Fs.readdirSync_recursive fs directory;
  for_of files
    (λ count file,
       let fullPath := Path.join path directory file in
       stats ← Fs.statSync fs fullPath;
       mret (if isFile stats then S count else count))
    0.

(** The [listeners] of the transfer: output is logged by level. *)
Definition transfer_listeners : Exec.Listeners :=
  {| Exec.on_stdout := λ data,
       let output := trim data in
       if String.eqb output "" then skip else Core.info core output;
     Exec.on_stderr := λ data,
       let error := trim data in
       if includes error "Error" || includes error "fatal" then
         Core.error core (VStr error)
       else if includes error "Warning" then Core.warning core (VStr error)
       else Core.info core error |}.

Definition transfer_options : Exec.Options :=
  {| Exec.ignoreReturnCode := false; Exec.input := None; Exec.silent := false;
     Exec.listeners := Some transfer_listeners |}.

Definition batchCommands (remoteDir sourceDir : string) : string :=
  ("mkdir -p " +:+ remoteDir) +:+ LF +:+ ("cd " +:+ remoteDir) +:+ LF
  +:+ ("put -r " +:+ sourceDir +:+ "/* .").

Definition or_else (s dflt : string) : string :=
  if String.eqb s "" then dflt else s.

Definition deploy : M unit :=
  set_cleanup false;;
  try_finally
    (try_catch
       (Core.info core "🚀 Starting SFTP deployment...";;
        Core.startGroup core "📥 Validating inputs";;
        host ← Core.getInput core "host" true;
        username ← Core.getInput core "username" true;
        port ← Core.getInput core "port" false;
        let port := or_else port "22" in
        sourceDir ← Core.getInput core "source-dir" false;
        let sourceDir := or_else sourceDir "./dist" in
        remoteDir ← Core.getInput core "remote-dir" false;
        let remoteDir := or_else remoteDir "/var/www/html" in
        privateKey ← Core.getInput core "private-key" true;
        Core.setSecret core privateKey;;
        Core.info core ("Host: " +:+ host);;
        Core.info core ("Username: " +:+ username);;
        Core.info core ("Port: " +:+ port);;
        Core.info core ("Source directory: " +:+ sourceDir);;
        Core.info core ("Remote directory: " +:+ remoteDir);;
        present ← Fs.existsSync fs sourceDir;
        (if negb present then
           throw (Error ("Source directory " +:+ sourceDir +:+ " does not exist"))
         else skip);;
        fileCount ← getFileCount sourceDir;
        Core.info core ("Found " +:+ show_nat fileCount +:+ " files to upload");;
        Core.endGroup core;;
        startSshAgent privateKey;;
        set_cleanup true;;
        Core.startGroup core "📝 Preparing SFTP batch file";;
        runnerTemp ← get_penv "RUNNER_TEMP";
        let batchFilePath := Path.join path (or_else (default "" runnerTemp) "/tmp") "sftp_batch" in
        let batchCommands := batchCommands remoteDir sourceDir in
        Fs.writeFile fs batchFilePath batchCommands None;;
        Core.info core "SFTP batch file created";;
        Core.debug core ("Batch file contents:" +:+ LF +:+ batchCommands);;
        Core.endGroup core;;
        try_finally
          (Core.startGroup core "📤 Executing SFTP transfer";;
           let sftpOptions :=
             ["-P"; port; "-o"; "StrictHostKeyChecking=no"; "-b"; batchFilePath;
              username +:+ "@" +:+ host] in
           Core.info core "Starting file transfer...";;
           Exec.exec exec "sftp" sftpOptions transfer_options;;
           Core.info core "✅ SFTP transfer completed successfully";;
           Core.endGroup core)
          (Core.startGroup core "🧹 Cleanup";;
           try_catch
             (Fs.unlink fs batchFilePath;;
              Core.info core "Batch file deleted")
             (λ error,
                Core.warning core (VStr ("Failed to delete batch file: " +:+ message error)));;
           Core.endGroup core);;
        Core.setOutput core "deployed-files" (show_nat fileCount);;
        Core.setOutput core "deployment-time" (clock env))
       (λ error,
          Core.error core (VStr "❌ Deployment failed");;
          Core.setFailed core (message error)))
    (has_cleanup ← get_cleanup;
     if has_cleanup : bool then
       (Core.startGroup core "🧹 Cleaning up SSH agent";;
        try_catch
          (terminate_agent;;
           Core.info core "SSH agent terminated")
          (λ error,
             Core.warning core (VStr ("Failed to cleanup ssh-agent: " +:+ message error)));;
        Core.endGroup core : M unit)
     else skip).

End Script.
End EsmVariant.

(** ** The script: the CommonJS variant of [src/deploy.js] with [put -r]

    The other [deploy] kept under [src/]: no tool check, no key
    normalization and no identity file; the whole source directory is
    transferred with one [put -r] under the agent, and nothing is cleaned
    up when a step fails.  [startSshAgent] and [getFileCount] are those of
    the current script. *)

Module PutRecursive.
Section Script.
Variable env : Env.

Local Abbreviation core := (actions_core env).
Local Abbreviation exec := (actions_exec env).
Local Abbreviation fs := (node_fs env).
Local Abbreviation os := (node_os env).
Local Abbreviation path := (node_path env).

Definition batchFileContent (remoteDir sourceDir : string) : string :=
  "cd " +:+ remoteDir +:+ LF +:+ "put -r " +:+ sourceDir +:+ "/*".

Definition sftpCommand (batchFilePath port username host : string) : string :=
  "sftp -b " +:+ batchFilePath +:+ " -P " +:+ port +:+ " " +:+ username +:+ "@" +:+ host.

Definition deploy : M bool :=
  console_log [VStr "Starting deployment process..."];;
  try_catch
    (console_log [VStr "Validating input parameters..."];;
     host ← Core.getInput core "host" true;
     username ← Core.getInput core "username" true;
     port ← Core.getInput core "port" false;
     let port := if String.eqb port "" then "22" else port in
     sourceDir ← Core.getInput core "source_dir" true;
     remoteDir ← Core.getInput core "remote_dir" true;
     privateKey ← Core.getInput core "private_key" true;
     Core.setSecret core privateKey;;
     console_log
       [VStr (configuration_message "            " host username port sourceDir
                remoteDir privateKey)];;
     console_log [VStr "Starting SSH agent..."];;
     agentInfo ← startSshAgent env privateKey;
     console_log [VStr "SSH agent started successfully:"; VFun];;
     console_log [VStr "Creating SFTP batch file..."];;
     let batchFilePath := Path.join path (Os.tmpdir os) "sftp_batch" in
     fileCount ← getFileCount env sourceDir;
     console_log
       [VStr ("Found " +:+ show_nat fileCount
              +:+ " files to transfer in source directory")];;
     let batchFileContent := batchFileContent remoteDir sourceDir in
     Fs.writeFile fs batchFilePath batchFileContent None;;
     console_log [VStr "SFTP batch file created successfully at:"; VStr batchFilePath];;
     console_log [VStr "Batch file contents:"; VStr batchFileContent];;
     console_log [VStr "Preparing SFTP command..."];;
     let sftpCommand := sftpCommand batchFilePath port username host in
     console_log [VStr "Executing SFTP command:"; VStr sftpCommand];;
     console_log [VStr "Starting file transfer..."];;
     result ← Exec.getExecOutput exec sftpCommand [] no_options;
     console_log [VStr "SFTP command output:"; VStr (stdout result)];;
     (if String.eqb (stderr result) "" then skip
      else console_warn [VStr "SFTP command stderr:"; VStr (stderr result)]);;
     console_log
       [VStr ("SFTP transfer completed with exit code: " +:+ show_Z (exitCode result))];;
     console_log [VStr "Starting cleanup process..."];;
     try_catch
       (Fs.unlink fs batchFilePath;;
        console_log [VStr "Batch file deleted successfully"])
       (λ error, console_warn [VStr "Error deleting batch file:"; VErr error]);;
     try_catch
       (Exec.exec exec "ssh-agent" ["-k"] no_options;;
        console_log [VStr "SSH agent killed successfully"])
       (λ error, console_warn [VStr "Error killing SSH agent:"; VErr error]);;
     console_log [VStr "Deployment completed successfully!"];;
     mret true)
    (λ error,
       console_error [VStr "Deployment failed with error:"; VErr error];;
       console_error [VStr "Error stack trace:"; VStack error];;
       throw error).

End Script.
End PutRecursive.

(** ** The script run directly

    [if (require.main === module)] at the end of the current
    [src/deploy.js]: the result is the status passed to [process.exit], if
    it is called. *)
Definition main (env : Env) : M (option Z) :=
  console_log [VStr "Running deploy.js directly"];;
  try_catch
    (deploy env;;
     console_log [VStr "Deployment completed successfully"];;
     mret None)
    (λ error,
       console_error [VStr "Deployment failed:"; VErr error];;
       mret (Some 1%Z)).

(** * Specifications

    The predicates the properties are stated with, and the inputs the
    script is run on. *)

(** ** Judgements on runs

    [triple I m J]: from a world satisfying [I], the run of [m] ends in an
    outcome and a world satisfying [J].  [keeps I m Q] is the special case
    of an invariant [I], with [Q] on the returned value. *)

Definition triple {A : Type} (I : World → Prop) (m : M A)
    (J : outcome A → World → Prop) : Prop :=
  ∀ w, I w → J (m w).1 (m w).2.

Definition returned {A : Type} (Q : A → Prop) (r : outcome A) : Prop :=
  match r with
  | Return a => Q a
  | Throw _ => True
  end.

Definition keeps {A : Type} (I : World → Prop) (m : M A) (Q : A → Prop) : Prop :=
  triple I m (λ r w, I w ∧ returned Q r).

Definition anything {A : Type} : A → Prop := λ _, True.

(** Invariants of the trace alone. *)
Definition stable (I : World → Prop) : Prop :=
  ∀ w w', trace w' = trace w → I w → I w'.

Definition allows (I : World → Prop) (e : event) : Prop :=
  ∀ w w', trace w' = trace w ++ [e] → I w → I w'.

(** Every event of the trace satisfies [P]. *)
Definition always (P : event → Prop) : World → Prop := λ w, Forall P (trace w).

(** ** Events and traces *)

Definition is_output (e : event) : bool :=
  match e with ESetOutput _ _ => true | _ => false end.

Definition is_spawn (e : event) : bool :=
  match e with ESpawn _ _ _ => true | _ => false end.

Definition is_fs_walk (e : event) : bool :=
  match e with EReaddir _ _ => true | _ => false end.

(** ** Invariants with a history

    [inv P F]: every event so far satisfies [P], and the events of [F] have
    happened, in the order of [F].  [before P x F]: the event [x] has
    happened, and up to its first occurrence [inv P F] held. *)

Definition inv (P : event → Prop) (F : list event) : World → Prop :=
  λ w, Forall P (trace w) ∧ F `sublist_of` trace w.

Definition before (P : event → Prop) (x : event) (F : list event) : World → Prop :=
  λ w, ∃ l1 l2, trace w = l1 ++ x :: l2 ∧ Forall P l1 ∧ F `sublist_of` l1.

Definition guarded (P : event → Prop) (x : event) (F : list event) : World → Prop :=
  λ w, always P w ∨ before P x F w.

(** Scripts that cannot throw. *)
Definition succeeds {A : Type} (m : M A) : Prop := ∀ w, ∃ a, (m w).1 = Return a.

(** ** The key, the batch script and the transfer client *)

(** The events that hand the key to a collaborator: the secret marker, a
    process fed on its standard input, the identity file (the file written
    with mode 0600). *)
Definition carries (k : string) (e : event) : Prop :=
  match e with
  | ESetSecret s => s = k
  | ESpawn _ _ (Some s) => s = k
  | EWriteFile _ c mode => mode = 384%N → c = k
  | _ => True
  end.

(** The write of the batch file: the one write without an explicit mode. *)
Definition writes_batch (env : Env) (e : event) : Prop :=
  match e with
  | EWriteFile p c mode =>
      mode = 438%N →
      p = path_join env (os_tmpdir env) "sftp_batch"
      ∧ ∃ t, tree env (input env "source_dir") = Some t
             ∧ c = batchFileContent (path_join env) (input env "remote_dir")
                     (input env "source_dir") (dirent_of <$> t)
  | _ => True
  end.

(** *** The batch script as the transfer client reads it

    sftp reads a batch file line by line, and splits a line into words at
    blanks (space, tab, carriage return); a double quote opens a run of
    characters, blanks included, that ends at the next double quote and
    belongs to the current word. *)

Definition line_feed : ascii := ascii_of_nat 10.
Definition double_quote : ascii := ascii_of_nat 34.

Definition is_blank (c : ascii) : bool :=
  Ascii.eqb c (ascii_of_nat 32) || Ascii.eqb c (ascii_of_nat 9)
  || Ascii.eqb c (ascii_of_nat 13).

Fixpoint script_lines (current s : string) : list string :=
  match s with
  | EmptyString => if String.eqb current "" then [] else [current]
  | String c s' =>
      if Ascii.eqb c line_feed then current :: script_lines "" s'
      else script_lines (current +:+ String c "") s'
  end.

Fixpoint line_words (quoted : bool) (current : option string) (s : string) : list string :=
  match s with
  | EmptyString => option_list current
  | String c s' =>
      if Ascii.eqb c double_quote then
        line_words (negb quoted) (Some (default "" current)) s'
      else if negb quoted && is_blank c then
        option_list current ++ line_words false None s'
      else line_words quoted (Some (default "" current +:+ String c "")) s'
  end.

(** The directives of a script: the words of each of its lines. *)
Definition directives (script : string) : list (list string) :=
  line_words false None <$> script_lines "" script.

Fixpoint has_char (c : ascii) (s : string) : bool :=
  match s with
  | EmptyString => false
  | String x s' => Ascii.eqb x c || has_char c s'
  end.

(** Text without the characters that end a line or a quoted word for sftp:
    line feed, double quote, single quote, backslash. *)
Definition plain (s : string) : Prop :=
  has_char line_feed s = false ∧ has_char double_quote s = false
  ∧ has_char (ascii_of_nat 39) s = false ∧ has_char (ascii_of_nat 92) s = false.

(** Text that is one word when it is not quoted: plain, not empty, without
    blanks. *)
Definition one_word (s : string) : Prop :=
  plain s ∧ s ≠ ""
  ∧ has_char (ascii_of_nat 32) s = false ∧ has_char (ascii_of_nat 9) s = false
  ∧ has_char (ascii_of_nat 13) s = false.

(** The reading of the batch script the transfer relies on: the remote
    directory is created and selected, then each manifest entry is one
    directive of three words: [put], the local path, the remote name. *)
Definition one_put_per_entry (join : string → string → string)
    (remoteDir sourceDir : string) (files : list Fs.Dirent) : Prop :=
  directives (batchFileContent join remoteDir sourceDir files)
  = ["-mkdir"; remoteDir] :: ["cd"; remoteDir]
    :: ((λ file, ["put"; join sourceDir (Fs.name file); Fs.name file]) <$> manifest files).

(** A [put] line without its line terminator. *)
Definition put_text (path name : string) : string :=
  "put " +:+ DQ +:+ path +:+ DQ +:+ " " +:+ DQ +:+ name +:+ DQ.

(** The directory entry of a regular file. *)
Definition named (name : string) : Fs.Dirent :=
  {| Fs.name := name; Fs.entry_kind := RegularFile |}.

(** The transfer client is the one process [deploy] starts from a whole
    command line, without an argument list. *)
Definition is_transfer (e : event) : bool :=
  match e with ESpawn _ [] _ => true | _ => false end.

(** The command line [deploy] builds from the inputs. *)
Definition deploy_sftpCommand (env : Env) : string :=
  sftpCommand (path_join env (os_tmpdir env) "deploy_identity")
    (path_join env (os_tmpdir env) "sftp_batch")
    (if String.eqb (input env "port") "" then "22" else input env "port")
    (input env "username") (input env "host").

(** Whenever it is run, the client exits with a non-zero status, whatever
    it writes to its output streams. *)
Definition transfer_fails (env : Env) : Prop :=
  ∀ n, ∃ out, proc env n (deploy_sftpCommand env) [] = Exited out
              ∧ exitCode out ≠ 0%Z.

(** The events that could echo the key: a process fed on its standard
    input, the identity file, and the one log line computed from the key,
    the configuration summary with its length. *)
Definition uses_key (e : event) : bool :=
  match e with
  | ESpawn _ _ (Some _) => true
  | EWriteFile _ _ mode => N.eqb mode 384
  | ELog _ (VStr s :: _) => String.prefix "Configuration validated:" s
  | _ => false
  end.

(** Events that end a credential: the agent is stopped or a file removed. *)
Definition releases (e : event) : bool :=
  match e with
  | ESpawn cmd [flag] _ => String.eqb cmd "ssh-agent" && String.eqb flag "-k"
  | EUnlink _ => true
  | _ => false
  end.

Definition quiet (e : event) : Prop := releases e = false ∧ is_transfer e = false.

(** After [startSshAgent]: when it returns, the agent was started and the
    key loaded. *)
Definition agent_loaded {A : Type} (k : string) (r : outcome A) (w : World) : Prop :=
  match r with
  | Return _ =>
      inv quiet [ESpawn "ssh-agent" ["-s"] None; ESpawn "ssh-add" ["-"] (Some k)] w
  | Throw _ => inv quiet [] w
  end.

(** A run with a single representation: the key was given to an agent, or written
    to an identity file, and not both. *)
Definition agent_session (l : list event) : Prop :=
  ∃ k, ESpawn "ssh-add" ["-"] (Some k) ∈ l.

Definition identity_file (l : list event) : Prop :=
  ∃ p k, EWriteFile p k 384 ∈ l.

Definition exactly_one_representation (l : list event) : Prop :=
  (agent_session l ∧ ¬ identity_file l) ∨ (identity_file l ∧ ¬ agent_session l).

(** The steps of [deploy] that set up the credentials, in program order:
    the agent is started, the normalized key is fed to [ssh-add], and the
    normalized key is written to the identity file, with mode 0600
    requested. *)
Definition credentials (env : Env) : list event :=
  [ESpawn "ssh-agent" ["-s"] None;
   ESpawn "ssh-add" ["-"] (Some (normalizeKey (input env "private_key")));
   EWriteFile (path_join env (os_tmpdir env) "deploy_identity")
     (normalizeKey (input env "private_key")) 384].

(** The outside accepted each of these steps: the two processes exited with
    status 0 and the identity file could be written. *)
Definition credentials_accepted (env : Env) : Prop :=
  (∃ n out, proc env n "ssh-agent" ["-s"] = Exited out ∧ exitCode out = 0%Z)
  ∧ (∃ n out, proc env n "ssh-add" ["-"] = Exited out ∧ exitCode out = 0%Z)
  ∧ denied env (path_join env (os_tmpdir env) "deploy_identity") = false.

(** ** Relations between two runs

    [view] selects what is compared of an event.  Two worlds are [related]
    when they show the same views in the same order and agree on what
    steers a script: which temporary files exist, [process.env], the number
    of processes started, the variable [cleanup]. *)

Section Relations.
Variable view : event → option event.

Definition related (w1 w2 : World) : Prop :=
  omap view (trace w1) = omap view (trace w2)
  ∧ dom (files w1) = dom (files w2)
  ∧ penv w1 = penv w2
  ∧ spawned w1 = spawned w2
  ∧ cleanup w1 = cleanup w2.

Definition rel_outcome {A B : Type} (S : A → B → Prop) (r1 : outcome A) (r2 : outcome B) :
  Prop :=
  match r1, r2 with
  | Return a, Return b => S a b
  | Throw e1, Throw e2 => e1 = e2
  | _, _ => False
  end.

Definition sim {A B : Type} (m1 : M A) (m2 : M B) (S : A → B → Prop) : Prop :=
  ∀ w1 w2, related w1 w2 →
    related (m1 w1).2 (m2 w2).2 ∧ rel_outcome S (m1 w1).1 (m2 w2).1.

Definition whatever {A B : Type} : A → B → Prop := λ _ _, True.

End Relations.

(** Two environments that differ at most in the action inputs. *)
Definition same_outside (env1 env2 : Env) : Prop :=
  os_platform env1 = os_platform env2
  ∧ os_tmpdir env1 = os_tmpdir env2
  ∧ path_join env1 = path_join env2
  ∧ proc env1 = proc env2
  ∧ tree env1 = tree env2
  ∧ stat env1 = stat env2
  ∧ denied env1 = denied env2.

(** What a run shows when the key itself is hidden: every event but the
    secret registration, with the standard input of a process and the
    content of the identity file blanked. *)
Definition public (e : event) : option event :=
  match e with
  | ESetSecret _ => None
  | ESpawn cmd args (Some _) => Some (ESpawn cmd args (Some ""))
  | EWriteFile p c mode =>
      if N.eqb mode 384 then Some (EWriteFile p "" mode) else Some e
  | _ => Some e
  end.

Definition same_public_inputs (env1 env2 : Env) : Prop :=
  input env1 "host" = input env2 "host"
  ∧ input env1 "username" = input env2 "username"
  ∧ input env1 "port" = input env2 "port"
  ∧ input env1 "source_dir" = input env2 "source_dir"
  ∧ input env1 "remote_dir" = input env2 "remote_dir".

(** ** [deploy] and [deployWithDependencies] on the same inputs *)

(** [deployWithDependencies(params, {})]: every module is the default. *)
Definition no_dependencies : Dependencies :=
  {| coreModule := None; execModule := None; fsModule := None;
     osModule := None; pathModule := None |}.

(** The required inputs are supplied. *)
Definition supplied (env : Env) : Prop :=
  String.eqb (input env "host") "" = false
  ∧ String.eqb (input env "username") "" = false
  ∧ String.eqb (input env "source_dir") "" = false
  ∧ String.eqb (input env "remote_dir") "" = false
  ∧ String.eqb (input env "private_key") "" = false.

(** [params] gives the values [deploy] reads from the inputs, or leaves
    them to be read from the inputs. *)
Definition agrees (env : Env) (params : Params) : Prop :=
  (host params = None ∨ host params = Some (input env "host"))
  ∧ (username params = None ∨ username params = Some (input env "username"))
  ∧ (port params = None
     ∨ port params
       = Some (if String.eqb (input env "port") "" then "22" else input env "port"))
  ∧ (sourceDir params = None ∨ sourceDir params = Some (input env "source_dir"))
  ∧ (remoteDir params = None ∨ remoteDir params = Some (input env "remote_dir"))
  ∧ (privateKey params = None ∨ privateKey params = Some (input env "private_key")).

(** A run without its log lines: the secret registration, the processes
    with their command lines and standard input, the files written and
    removed, the directory reads. *)
Definition effects (e : event) : option event :=
  match e with
  | ELog _ _ => None
  | _ => Some e
  end.

(** The steps of a run whatever the key: the log is left out, and the key
    is blanked where it is handed over (the secret marker, the standard
    input of a process, the identity file). *)
Definition pipeline (e : event) : option event :=
  match e with
  | ELog _ _ => None
  | ESetSecret _ => Some (ESetSecret "")
  | ESpawn cmd args (Some _) => Some (ESpawn cmd args (Some ""))
  | EWriteFile p c mode =>
      if N.eqb mode 384 then Some (EWriteFile p "" mode) else Some e
  | _ => Some e
  end.

(** The key [deployWithDependencies] works with. *)
Definition given_key (env : Env) (params : Params) : string :=
  default (input env "private_key") (privateKey params).

(** ** Further predicates on runs *)

(** What [getFileCount] computes from the listing: the number of entries
    [statSync] reports as regular files, or the error of the first entry
    that cannot be examined. *)
Fixpoint count_regular (env : Env) (dir : string) (entries : list string) (count : nat) :
  outcome nat :=
  match entries with
  | [] => Return count
  | file :: rest =>
      match stat env (path_join env dir file) with
      | Some k => count_regular env dir rest (if isFile k then S count else count)
      | None =>
          Throw (FsError "ENOENT" "no such file or directory, stat"
                   (path_join env dir file))
      end
  end.

(** The only process is the probe [which ssh-add]. *)
Definition only_probes (e : event) : Prop :=
  match e with
  | ESpawn cmd args _ => cmd = "which" ∧ args = ["ssh-add"]
  | _ => True
  end.

(** An invariant that does not look at the world. *)
Definition holds (F : Prop) : World → Prop := λ _, F.

(** The transfer client ran and exited with status 0. *)
Definition transferred (env : Env) : Prop :=
  ∃ n out, proc env n (deploy_sftpCommand env) [] = Exited out ∧ exitCode out = 0%Z.

(** The temporary files of [deploy]. *)
Definition identityFile (env : Env) : string :=
  path_join env (os_tmpdir env) "deploy_identity".

Definition batchFilePath (env : Env) : string :=
  path_join env (os_tmpdir env) "sftp_batch".

Definition kill_agent : event := ESpawn "ssh-agent" ["-k"] None.

(** The credentials and files a run has released so far, in order. *)
Definition released (l : list event) : list event := filter (λ e, releases e = true) l.

Definition released_is (L : list event) : World → Prop := λ w, released (trace w) = L.

Definition is_report (e : event) : bool :=
  match e with
  | ESetOutput _ _ | ESetFailed _ => true
  | _ => false
  end.

(** What a run reports to the workflow: its outputs and its failure. *)
Definition reported (l : list event) : list event := filter (λ e, is_report e = true) l.

Definition reported_is (L : list event) : World → Prop := λ w, reported (trace w) = L.

(** The transfer client of the ES-module variant: the process [sftp]. *)
Definition is_sftp (e : event) : bool :=
  match e with
  | ESpawn cmd _ _ => String.eqb cmd "sftp"
  | _ => false
  end.

(** Whenever it is run, with whatever arguments, [sftp] exits with a
    non-zero status, whatever it writes to its output streams. *)
Definition sftp_fails (env : Env) : Prop :=
  ∀ n args, ∃ out, proc env n "sftp" args = Exited out ∧ exitCode out ≠ 0%Z.

(** Nothing is reported and [sftp] has not been started. *)
Definition unreported (w : World) : Prop :=
  reported (trace w) = [] ∧ Forall (λ e, is_sftp e = false) (trace w).

(** The error the toolkit raises for a run of [sftp] that exited with a
    non-zero status: it carries that status (and the name the toolkit gives
    the tool). *)
Definition client_failure (env : Env) (e : exn) : Prop :=
  ∃ tool n args out,
    proc env n "sftp" args = Exited out ∧ exitCode out ≠ 0%Z
    ∧ e = ProcessFailed tool (exitCode out).

(** A statement of the ES-module [deploy] has thrown, nothing is reported
    yet, and unless [sftp] was never started the error is its failure. *)
Definition transfer_failed (env : Env) {A : Type} (r : outcome A) (w : World) : Prop :=
  ∃ e, r = Throw e
       ∧ reported (trace w) = []
       ∧ (Forall (λ ev, is_sftp ev = false) (trace w) ∨ client_failure env e).

(** The one thing reported is the failure [e], and unless [sftp] was never
    started [e] is its failure. *)
Definition failure_reported (env : Env) (e : exn) (w : World) : Prop :=
  reported (trace w) = [ESetFailed (message e)]
  ∧ (Forall (λ ev, is_sftp ev = false) (trace w) ∨ client_failure env e).

(** What a run has released and reported so far. *)
Definition history_is (rel rep : list event) : World → Prop :=
  λ w, released (trace w) = rel ∧ reported (trace w) = rep.

(** The same with the value of the variable [cleanup] of the ES-module
    [deploy]. *)
Definition esm_state (flag : bool) (rel rep : list event) : World → Prop :=
  λ w, cleanup w = flag ∧ history_is rel rep w.

(** The final states of a run of the ES-module [deploy]. *)
Definition esm_final (env : Env) (w : World) : Prop :=
  (∃ p n, history_is [EUnlink p; kill_agent]
            [ESetOutput "deployed-files" (show_nat n);
             ESetOutput "deployment-time" (clock env)] w)
  ∨ ∃ e, history_is [] [ESetFailed (message e)] w
         ∨ history_is [kill_agent] [ESetFailed (message e)] w
         ∨ ∃ p, history_is [EUnlink p; kill_agent] [ESetFailed (message e)] w.

Definition files_are (m : gmap string file) : World → Prop := λ w, files w = m.

(** Scripts that leave a component of the world alone. *)
Definition preserves {F A : Type} (proj : World → F) (m : M A) : Prop :=
  ∀ w, proj (m w).2 = proj w.

(** A required value is neither given as a parameter nor supplied as an
    input. *)
Definition lacks (env : Env) (given : option string) (name : string) : Prop :=
  given = None ∧ inputs env !! name = None.

(** All six parameters are given. *)
Definition complete (params : Params) : Prop :=
  is_Some (host params) ∧ is_Some (username params) ∧ is_Some (port params)
  ∧ is_Some (sourceDir params) ∧ is_Some (remoteDir params)
  ∧ is_Some (privateKey params).

(** What a run of the [put -r] variant does with the key and which files
    it writes: the key goes to the secret marker and to the agent, as
    given, and the one file written is the batch script. *)
Definition put_recursive_event (env : Env) (e : event) : Prop :=
  match e with
  | ESetSecret s => s = input env "private_key"
  | ESpawn _ _ (Some s) => s = input env "private_key"
  | EWriteFile p c mode =>
      mode = 438%N ∧ p = batchFilePath env
      ∧ c = PutRecursive.batchFileContent (input env "remote_dir") (input env "source_dir")
  | _ => True
  end.

(** The events of a run that has not got past the validation of its
    inputs: the log, and the processes of the tool check. *)
Definition before_validation (e : event) : Prop :=
  match e with
  | ELog _ _ | EGroupStart _ | EGroupEnd => True
  | ESpawn cmd _ None => cmd = "which" ∨ cmd = "sudo"
  | _ => False
  end.

(** What a run of the ES-module variant does with the key and which file
    it writes: the key goes to the secret marker and to the agent, as
    given; the one file written is the batch script, in the directory
    [RUNNER_TEMP] names when the run starts, or in [/tmp]. *)
Definition esm_event (env : Env) (pe : gmap string string) (e : event) : Prop :=
  match e with
  | ESetSecret s => s = input env "private-key"
  | ESpawn _ _ (Some s) => s = input env "private-key"
  | EWriteFile p c mode =>
      mode = 438%N
      ∧ p = path_join env (EsmVariant.or_else (default "" (pe !! "RUNNER_TEMP")) "/tmp")
              "sftp_batch"
      ∧ c = EsmVariant.batchCommands
              (EsmVariant.or_else (input env "remote-dir") "/var/www/html")
              (EsmVariant.or_else (input env "source-dir") "./dist")
  | _ => True
  end.

Definition runner_temp (w : World) : option string := penv w !! "RUNNER_TEMP".

(** ** Scenarios of the test suite

    The mocks of [__tests__/deploy.test.js] as an environment: the agent
    prints its two assignments, [which] finds [ssh-add], every other process
    succeeds silently except the transfer client, which ends as [sftp]
    says; [dist] is the content of [./dist]. *)

Definition agent_output : string :=
  "SSH_AUTH_SOCK=/tmp/agent.1234; export SSH_AUTH_SOCK;" +:+ LF
  +:+ "SSH_AGENT_PID=1234; export SSH_AGENT_PID;" +:+ LF.

Definition exits (code : Z) (out err : string) : process :=
  Exited {| stdout := out; stderr := err; exitCode := code |}.

Definition scenario (key : string) (dist : option (list node)) (sftp : process) : Env :=
  {| inputs :=
       list_to_map
         [("host", "test-host"); ("username", "test-user"); ("port", "22");
          ("private_key", key); ("source_dir", "./dist");
          ("remote_dir", "/var/www/html");
          ("private-key", key); ("source-dir", "./dist");
          ("remote-dir", "/var/www/html")];
     os_platform := "linux";
     os_tmpdir := "/tmp";
     path_join := slash_join;
     proc := λ _ cmd args,
       if String.eqb cmd "ssh-agent" then exits 0 agent_output ""
       else if String.prefix "sftp" cmd then sftp
       else exits 0 "" "";
     tree := λ dir, if String.eqb dir "./dist" then dist else None;
     stat := stat_in_tree slash_join "./dist" (default [] dist);
     denied := λ _, false;
     clock := "2024-05-01T12:00:00.000Z" |}.

Definition two_files : list node := [File "file1.js"; File "file2.css"].

Definition nested_files : list node := [File "a.txt"; Dir "sub" [File "b.txt"]].

Definition connection_refused : process := exits 1 "" "Connection refused".

Definition no_params : Params :=
  {| host := None; username := None; port := None; sourceDir := None;
     remoteDir := None; privateKey := None |}.

(** The same environment with no action input supplied, and on another
    platform. *)
Definition without_inputs (env : Env) : Env :=
  {| inputs := ∅; os_platform := os_platform env; os_tmpdir := os_tmpdir env;
     path_join := path_join env; proc := proc env; tree := tree env; stat := stat env;
     denied := denied env; clock := clock env |}.

Definition on_platform (platform : string) (env : Env) : Env :=
  {| inputs := inputs env; os_platform := platform; os_tmpdir := os_tmpdir env;
     path_join := path_join env; proc := proc env; tree := tree env; stat := stat env;
     denied := denied env; clock := clock env |}.

(** [./dist] as listed while two of its entries are being removed: the
    directory [d1] is still there, [d1/gone1] and [gone2] are not. *)
Definition entries_removed : Env :=
  {| inputs := ∅; os_platform := "linux"; os_tmpdir := "/tmp"; path_join := slash_join;
     proc := λ _ _ _, exits 0 "" "";
     tree := λ dir,
       if String.eqb dir "./dist" then Some [Dir "d1" [File "gone1"]; File "gone2"]
       else None;
     stat := λ p, if String.eqb p "./dist/d1" then Some Directory else None;
     denied := λ _, false;
     clock := "2024-05-01T12:00:00.000Z" |}.

Definition test_params : Params :=
  {| host := Some "test-host"; username := Some "test-user"; port := Some "22";
     sourceDir := Some "./dist"; remoteDir := Some "/var/www/html";
     privateKey := Some "test-key" |}.

(** * Properties *)

(** ** Strings *)

Lemma append_cons (c : ascii) (a b : string) : String c a +:+ b = String c (a +:+ b).
Proof. reflexivity. Qed.

Lemma append_empty_l (s : string) : "" +:+ s = s.
Proof. reflexivity. Qed.

Lemma append_empty_r (s : string) : s +:+ "" = s.
Proof.
  induction s as [|c s IH]; [reflexivity |]. now rewrite append_cons, IH.
Qed.

Lemma append_assoc (a b c : string) : (a +:+ b) +:+ c = a +:+ (b +:+ c).
Proof.
  induction a as [|x a IH]; [reflexivity |]. now rewrite !append_cons, IH.
Qed.

Lemma endsWith_spec (s suffix : string) :
  endsWith s suffix = true ↔ ∃ p, s = p +:+ suffix.
Proof.
  induction s as [|c s IH]; cbn [endsWith].
  - destruct (String.eqb_spec "" suffix) as [<- | Hne].
    + split; [exists ""; reflexivity | reflexivity].
    + split; [discriminate |].
      intros [p Hp]. destruct p; [now rewrite append_empty_l in Hp |].
      rewrite append_cons in Hp. discriminate.
  - destruct (String.eqb_spec (String c s) suffix) as [<- | Hne].
    + split; [exists ""; reflexivity | reflexivity].
    + rewrite IH. split.
      * intros [p ->]. exists (String c p). reflexivity.
      * intros [p Hp]. destruct p as [|c' p];
          [now rewrite append_empty_l in Hp |].
        rewrite append_cons in Hp. injection Hp as _ ->. now exists p.
Qed.

Lemma endsWith_append (p suffix : string) : endsWith (p +:+ suffix) suffix = true.
Proof. apply endsWith_spec. now exists p. Qed.

Lemma normalizeKey_ends (k : string) : endsWith (normalizeKey k) LF = true.
Proof.
  unfold normalizeKey. destruct (endsWith k LF) eqn:E; simpl;
    [exact E | apply endsWith_append].
Qed.

(** ** The batch script *)

Lemma batch_loop (join : string → string → string) (sourceDir : string)
    (files : list Fs.Dirent) (acc : string) :
  fold_left
    (λ content file,
       let sourcePath := join sourceDir (Fs.name file) in
       if isFile (Fs.entry_kind file)
       then content +:+ put_line sourcePath (Fs.name file)
       else content)
    files acc
  = acc +:+ lines
      ((λ file, put_line (join sourceDir (Fs.name file)) (Fs.name file))
         <$> manifest files).
Proof.
  revert acc. induction files as [|f files IH]; intros acc; simpl.
  - now rewrite append_empty_r.
  - rewrite IH. unfold manifest. rewrite filter_cons.
    destruct (isFile (Fs.entry_kind f)) eqn:E.
    + rewrite decide_True by reflexivity. rewrite fmap_cons. simpl.
      now rewrite append_assoc.
    + rewrite decide_False by discriminate. reflexivity.
Qed.

(** ** A program logic for runs

    The rules of [triple] and [keeps], one for each construct of a script. *)

Section Logic.
Context {A B : Type}.
Implicit Types (I : World → Prop).

Lemma triple_conseq I I' (m : M A) (J J' : outcome A → World → Prop) :
  triple I' m J' → (∀ w, I w → I' w) → (∀ r w, J' r w → J r w) → triple I m J.
Proof. intros H HI HJ w Hw. apply HJ, H, HI, Hw. Qed.

Lemma triple_ret I (a : A) (J : outcome A → World → Prop) :
  (∀ w, I w → J (Return a) w) → triple I (mret a) J.
Proof. intros H w Hw. apply H, Hw. Qed.

Lemma triple_throw I (e : exn) (J : outcome A → World → Prop) :
  (∀ w, I w → J (Throw e) w) → triple I (throw e) J.
Proof. intros H w Hw. apply H, Hw. Qed.

Lemma triple_bind I (m : M A) (f : A → M B) (K : outcome A → World → Prop)
    (J : outcome B → World → Prop) :
  triple I m K →
  (∀ a, triple (K (Return a)) (f a) J) →
  (∀ e w, K (Throw e) w → J (Throw e) w) →
  triple I (m ≫= f) J.
Proof.
  intros Hm Hf Hthrow w Hw. specialize (Hm w Hw).
  unfold mbind, M_bind. destruct (m w) as [[a|e] w']; simpl in *.
  - apply Hf, Hm.
  - apply Hthrow, Hm.
Qed.

Lemma triple_try_catch I (body : M A) (h : exn → M A)
    (K J : outcome A → World → Prop) :
  triple I body K →
  (∀ a w, K (Return a) w → J (Return a) w) →
  (∀ e, triple (K (Throw e)) (h e) J) →
  triple I (try_catch body h) J.
Proof.
  intros Hb Hret Hh w Hw. specialize (Hb w Hw).
  unfold try_catch. destruct (body w) as [[a|e] w']; simpl in *.
  - apply Hret, Hb.
  - apply Hh, Hb.
Qed.

Lemma triple_try_finally I (body : M A) (fin : M unit)
    (K J : outcome A → World → Prop) :
  triple I body K →
  (∀ r, triple (K r) fin
          (λ r' w, match r' with
                   | Return _ => J r w
                   | Throw e => J (Throw e) w
                   end)) →
  triple I (try_finally body fin) J.
Proof.
  intros Hb Hf w Hw. specialize (Hb w Hw).
  unfold try_finally. destruct (body w) as [r w']; simpl in *.
  specialize (Hf r w' Hb). destruct (fin w') as [[[]|e] w'']; simpl in *; exact Hf.
Qed.

Lemma keeps_weaken I (m : M A) (P Q : A → Prop) :
  keeps I m P → (∀ a, P a → Q a) → keeps I m Q.
Proof.
  intros H HPQ w Hw. destruct (H w Hw) as [HI HP]. split; [exact HI |].
  destruct (m w).1; simpl in *; auto.
Qed.

Lemma keeps_ret I (a : A) (Q : A → Prop) : Q a → keeps I (mret a) Q.
Proof. intros H w Hw. split; [exact Hw | exact H]. Qed.

Lemma keeps_throw I (e : exn) (Q : A → Prop) : keeps I (throw e) Q.
Proof. intros w Hw. split; [exact Hw | exact Logic.I]. Qed.

Lemma keeps_bind I (m : M A) (f : A → M B) (P : A → Prop) (Q : B → Prop) :
  keeps I m P → (∀ a, P a → keeps I (f a) Q) → keeps I (m ≫= f) Q.
Proof.
  intros Hm Hf w Hw. destruct (Hm w Hw) as [HI HP].
  unfold mbind, M_bind. destruct (m w) as [[a|e] w']; simpl in *.
  - apply (Hf a HP w' HI).
  - split; [exact HI | exact Logic.I].
Qed.

Lemma keeps_try_catch I (body : M A) (h : exn → M A) (Q : A → Prop) :
  keeps I body Q → (∀ e, keeps I (h e) Q) → keeps I (try_catch body h) Q.
Proof.
  intros Hb Hh w Hw. destruct (Hb w Hw) as [HI HQ].
  unfold try_catch. destruct (body w) as [[a|e] w']; simpl in *.
  - split; assumption.
  - apply (Hh e w' HI).
Qed.

Lemma keeps_try_finally I (body : M A) (fin : M unit) (Q : A → Prop) :
  keeps I body Q → keeps I fin anything → keeps I (try_finally body fin) Q.
Proof.
  intros Hb Hf w Hw. destruct (Hb w Hw) as [HI HQ].
  unfold try_finally. destruct (body w) as [r w']; simpl in *.
  destruct (Hf w' HI) as [HI' _].
  destruct (fin w') as [[[]|e] w'']; simpl in *; split; auto.
Qed.

End Logic.

Lemma keeps_bind_any {A B : Type} (I : World → Prop) (m : M A) (f : A → M B)
    (Q : B → Prop) :
  keeps I m anything → (∀ a, keeps I (f a) Q) → keeps I (m ≫= f) Q.
Proof. intros Hm Hf. apply (keeps_bind I m f anything Q Hm). intros a _. apply Hf. Qed.

Lemma keeps_for_of {A S : Type} (I : World → Prop) (l : list A) (body : S → A → M S)
    (s : S) :
  (∀ s x, keeps I (body s x) anything) → keeps I (for_of l body s) anything.
Proof.
  intros Hb. revert s. induction l as [|x l IH]; intros s; simpl.
  - now apply keeps_ret.
  - apply keeps_bind_any; [apply Hb | intros s'; apply IH].
Qed.

Section Primitives.
Variable env : Env.
Variable I : World → Prop.
Hypothesis I_stable : stable I.

Lemma keeps_emit (e : event) : allows I e → keeps I (emit e) anything.
Proof. intros He w Hw. split; [| exact Logic.I]. now apply (He w). Qed.

Lemma keeps_set_files f : keeps I (set_files f) anything.
Proof. intros w Hw. split; [| exact Logic.I]. now apply (I_stable w). Qed.

Lemma keeps_set_penv k v : keeps I (set_penv k v) anything.
Proof. intros w Hw. split; [| exact Logic.I]. now apply (I_stable w). Qed.

Lemma keeps_set_cleanup b : keeps I (set_cleanup b) anything.
Proof. intros w Hw. split; [| exact Logic.I]. now apply (I_stable w). Qed.

Lemma keeps_get_cleanup : keeps I get_cleanup anything.
Proof. intros w Hw. split; [exact Hw | exact Logic.I]. Qed.

Lemma keeps_get_penv k : keeps I (get_penv k) anything.
Proof. intros w Hw. split; [exact Hw | exact Logic.I]. Qed.

Lemma keeps_file_present p : keeps I (file_present p) anything.
Proof. intros w Hw. split; [exact Hw | exact Logic.I]. Qed.

Lemma keeps_getInput name required :
  keeps I (core_getInput env name required) (λ v, v = input env name).
Proof.
  intros w Hw. unfold core_getInput.
  destruct (required && String.eqb (input env name) ""); simpl; auto.
Qed.

Lemma keeps_spawn cmd args stdin :
  allows I (ESpawn cmd args stdin) →
  keeps I (spawn env cmd args stdin) (λ p, ∃ n, p = proc env n cmd args).
Proof.
  intros He w Hw. split; [| now exists (spawned w)]. now apply (He w).
Qed.

End Primitives.

Create HintDb script.

#[export] Hint Unfold exec_run notify fs_existsSync fs_readdirSync_recursive
  fs_readdirSync_withFileTypes fs_statSync fs_writeFile fs_unlink
  console_log console_warn console_error skip or_default
  checkAndInstallSshTools terminate_agent startSshAgent getFileCount
  checkAndInstallSshToolsWithDeps terminate_agent_with startSshAgentWithDeps
  getFileCountWithDeps
  EsmVariant.terminate_agent EsmVariant.startSshAgent EsmVariant.getFileCount
  EsmVariant.transfer_options EsmVariant.transfer_listeners : script.

Global Arguments checkAndInstallSshTools : simpl never.
Global Arguments startSshAgent : simpl never.
Global Arguments getFileCount : simpl never.
Global Arguments checkAndInstallSshToolsWithDeps : simpl never.
Global Arguments startSshAgentWithDeps : simpl never.
Global Arguments getFileCountWithDeps : simpl never.
Global Arguments EsmVariant.startSshAgent : simpl never.
Global Arguments EsmVariant.getFileCount : simpl never.

(** One step of an invariant proof along the syntax of a script; [side]
    proves that the invariant allows an emitted event. *)
Ltac keeps_step side :=
  lazymatch goal with
  | |- keeps _ (mret _) _ => apply keeps_ret; exact Logic.I
  | |- keeps _ (throw _) _ => apply keeps_throw
  | |- keeps _ (mbind _ _) _ => apply keeps_bind_any; [ | intros ? ]
  | |- keeps _ (try_catch _ _) _ => apply keeps_try_catch; [ | intros ? ]
  | |- keeps _ (try_finally _ _) _ => apply keeps_try_finally
  | |- keeps _ (emit _) _ => apply keeps_emit; side
  | |- keeps _ (set_files _) _ => apply keeps_set_files; assumption
  | |- keeps _ (set_penv _ _) _ => apply keeps_set_penv; assumption
  | |- keeps _ (set_cleanup _) _ => apply keeps_set_cleanup; assumption
  | |- keeps _ get_cleanup _ => apply keeps_get_cleanup
  | |- keeps _ (get_penv _) _ => apply keeps_get_penv
  | |- keeps _ (file_present _) _ => apply keeps_file_present
  | |- keeps _ (core_getInput _ _ _) _ =>
      eapply keeps_weaken; [apply keeps_getInput | intros; exact Logic.I]
  | |- keeps _ (spawn _ _ _ _) _ =>
      eapply keeps_weaken; [apply keeps_spawn; side | intros; exact Logic.I]
  | |- keeps _ (for_of _ _ _) _ => apply keeps_for_of; intros ? ?
  | |- keeps _ (if ?b then _ else _) _ => destruct b
  | |- keeps _ (match ?x with _ => _ end) _ => destruct x
  | |- keeps _ _ _ => progress (autounfold with script; cbn)
  end.

Ltac keeps_auto side := repeat keeps_step side.

Lemma always_stable (P : event → Prop) : stable (always P).
Proof. intros w w' E H. unfold always in *. now rewrite E. Qed.

Lemma always_allows (P : event → Prop) (e : event) : P e → allows (always P) e.
Proof.
  intros He w w' E H. unfold always in *. rewrite E.
  apply Forall_app. split; [exact H | now constructor].
Qed.

Lemma always_initial (P : event → Prop) fs0 pe : always P (initial fs0 pe).
Proof. constructor. Qed.

(** ** Cleanup after a failed transfer (C1) *)

Lemma deploy_never_sets_output (env : Env) :
  keeps (always (λ e, is_output e = false)) (deploy env) anything.
Proof.
  pose proof (always_stable (λ e, is_output e = false)) as Hs.
  unfold deploy. keeps_auto ltac:(apply always_allows; reflexivity).
Qed.

(** C1, at the failing input: the transfer client exits with status 1, as in
    the test [should handle SFTP command failure].  [deploy] removes the
    identity file and rethrows; the batch script is still in the temp
    directory and the agent still runs with the key loaded. *)
Theorem deploy_failed_transfer_leaves_batch_and_agent :
  let run := deploy (scenario "test-key" (Some two_files) connection_refused)
               (initial ∅ ∅) in
  run.1 = Throw (ProcessFailed
                   (sftpCommand "/tmp/deploy_identity" "/tmp/sftp_batch" "22"
                      "test-user" "test-host") 1)
  ∧ files run.2 !! "/tmp/deploy_identity" = None
  ∧ (data <$> (files run.2 !! "/tmp/sftp_batch"))
    = Some (batchFileContent slash_join "/var/www/html" "./dist"
              (dirent_of <$> two_files))
  ∧ agent run.2 = Some ["test-key" +:+ LF]
  ∧ (EUnlink "/tmp/sftp_batch" ∉ trace run.2)
  ∧ (ESpawn "ssh-agent" ["-k"] None ∉ trace run.2).
Proof.
  cbv zeta. repeat split; try (vm_compute; reflexivity).
  - intros H. apply list_elem_of_In in H. vm_compute in H.
    repeat (destruct H as [H | H]; [discriminate H |]). exact H.
  - intros H. apply list_elem_of_In in H. vm_compute in H.
    repeat (destruct H as [H | H]; [discriminate H |]). exact H.
Qed.

(** The ES-module variant, same input: its [finally] blocks remove the
    batch script and stop the agent before it reports the failure. *)
Lemma esm_failed_transfer_cleans_up :
  let run := EsmVariant.deploy
               (scenario "test-key" (Some two_files) connection_refused)
               (initial ∅ ∅) in
  run.1 = Return ()
  ∧ files run.2 !! "/tmp/sftp_batch" = None
  ∧ agent run.2 = None
  ∧ ESetFailed "The process 'sftp' failed with exit code 1" ∈ trace run.2.
Proof.
  cbv zeta. repeat split; try (vm_compute; reflexivity).
  apply list_elem_of_In. vm_compute. tauto.
Qed.

(** ** Outputs (C9) *)

(** C9, at the failing input: a run in which every step succeeds.  [deploy]
    returns [true] and, like every run of it, sets no output; the action's
    metadata declares [deployed-files] and [deployment-time]. *)
Theorem deploy_success_sets_no_output :
  (deploy (scenario "test-key" (Some two_files) (exits 0 "" "")) (initial ∅ ∅)).1
  = Return true
  ∧ ∀ env fs0 pe,
      Forall (λ e, is_output e = false) (trace (deploy env (initial fs0 pe)).2).
Proof.
  split; [vm_compute; reflexivity |].
  intros env fs0 pe.
  apply (deploy_never_sets_output env (initial fs0 pe)), always_initial.
Qed.

(** The ES-module variant, same input: both outputs are set, the count being
    the one it reported. *)
Lemma esm_success_sets_outputs :
  filter (λ e, is_output e = true)
    (trace (EsmVariant.deploy (scenario "test-key" (Some two_files) (exits 0 "" ""))
              (initial ∅ ∅)).2)
  = [ESetOutput "deployed-files" "2";
     ESetOutput "deployment-time" "2024-05-01T12:00:00.000Z"].
Proof. vm_compute. reflexivity. Qed.

(** ** A missing source directory (C6) *)

(** C6, at the failing input: [./dist] does not exist.  [deploy] checks the
    tools, starts the agent and loads the key, and only then fails in the
    directory walk of [getFileCount]; it makes no existence check, and the
    agent is left running. *)
Theorem deploy_missing_source_fails_late :
  let run := deploy (scenario "test-key" None (exits 0 "" "")) (initial ∅ ∅) in
  run.1 = Throw (FsError "ENOENT" "no such file or directory, scandir" "./dist")
  ∧ filter (λ e, is_spawn e = true) (trace run.2)
    = [ESpawn "which" ["ssh-add"] None; ESpawn "ssh-agent" ["-s"] None;
       ESpawn "ssh-add" ["-"] (Some ("test-key" +:+ LF))]
  ∧ filter (λ e, is_fs_walk e = true) (trace run.2) = [EReaddir "./dist" true]
  ∧ (EExists "./dist" ∉ trace run.2)
  ∧ agent run.2 = Some ["test-key" +:+ LF].
Proof.
  cbv zeta. repeat split; try (vm_compute; reflexivity).
  intros H. apply list_elem_of_In in H. vm_compute in H.
  repeat (destruct H as [H | H]; [discriminate H |]). exact H.
Qed.

(** The ES-module variant, same input: the existence check comes first and
    nothing else happens. *)
Lemma esm_missing_source_fails_fast :
  let run := EsmVariant.deploy (scenario "test-key" None (exits 0 "" ""))
               (initial ∅ ∅) in
  filter (λ e, is_spawn e = true) (trace run.2) = []
  ∧ filter (λ e, is_fs_walk e = true) (trace run.2) = []
  ∧ EExists "./dist" ∈ trace run.2
  ∧ ESetFailed "Source directory ./dist does not exist" ∈ trace run.2
  ∧ agent run.2 = None.
Proof.
  cbv zeta. repeat split; try (vm_compute; reflexivity);
    apply list_elem_of_In; vm_compute; tauto.
Qed.

(** ** Manifest and file count (C4) *)

(** C4, at the failing input: [./dist] holds [a.txt] and a directory [sub]
    with [b.txt].  [getFileCount] lists recursively and reports 2 files to
    transfer; the batch script has one [put], for [a.txt]. *)
Theorem deploy_count_differs_from_manifest :
  let env := scenario "test-key" (Some nested_files) (exits 0 "" "") in
  let run := deploy env (initial ∅ ∅) in
  (getFileCount env "./dist" (initial ∅ ∅)).1 = Return 2
  ∧ ELog console_log_sink [VStr "Found 2 files to transfer in source directory"]
    ∈ trace run.2
  ∧ Fs.name <$> manifest (dirent_of <$> nested_files) = ["a.txt"]
  ∧ EWriteFile "/tmp/sftp_batch"
      (lines ["-mkdir /var/www/html" +:+ LF; "cd /var/www/html" +:+ LF;
              put_line "./dist/a.txt" "a.txt"]) 438
    ∈ trace run.2.
Proof.
  cbv zeta. repeat split; try (vm_compute; reflexivity);
    apply list_elem_of_In; vm_compute; tauto.
Qed.

(** ** Trace invariants with a history *)

Lemma inv_stable P F : stable (inv P F).
Proof. intros w w' E [H1 H2]. unfold inv. now rewrite E. Qed.

Lemma inv_allows P F e : P e → allows (inv P F) e.
Proof.
  intros He w w' E [H1 H2]. unfold inv. rewrite E. split.
  - apply Forall_app. split; [exact H1 | now constructor].
  - now apply sublist_inserts_r.
Qed.

Lemma inv_initial P fs0 pe : inv P [] (initial fs0 pe).
Proof. split; [constructor | apply sublist_nil_l]. Qed.

Lemma inv_always P F w : inv P F w → always P w.
Proof. now intros [H _]. Qed.

Lemma inv_weaken P F F' w : F' `sublist_of` F → inv P F w → inv P F' w.
Proof. intros Hsub [H1 H2]. split; [exact H1 | now transitivity F]. Qed.

Lemma inv_record P F e w w' :
  trace w' = trace w ++ [e] → P e → inv P F w → inv P (F ++ [e]) w'.
Proof.
  intros E He [H1 H2]. unfold inv. rewrite E. split.
  - apply Forall_app. split; [exact H1 | now constructor].
  - now apply sublist_app.
Qed.

Lemma inv_first P F x w w' :
  trace w' = trace w ++ [x] → inv P F w → before P x F w'.
Proof. intros E [H1 H2]. exists (trace w), []. now rewrite E. Qed.

Lemma before_stable P x F : stable (before P x F).
Proof. intros w w' E (l1 & l2 & H & H'). exists l1, l2. now rewrite E. Qed.

Lemma before_allows P x F e : allows (before P x F) e.
Proof.
  intros w w' E (l1 & l2 & H & H'). exists l1, (l2 ++ [e]).
  rewrite E, H, <- app_assoc. now split.
Qed.

(** Statements that keep the invariant, inside a triple. *)
Lemma triple_skip {A B : Type} (I : World → Prop) (m : M A) (f : A → M B)
    (J : outcome B → World → Prop) :
  keeps I m anything →
  (∀ e w, I w → J (Throw e) w) →
  (∀ a, triple I (f a) J) →
  triple I (m ≫= f) J.
Proof.
  intros Hm Hthrow Hf.
  apply (triple_bind I m f (λ _ w, I w) J).
  - intros w Hw. apply (Hm w Hw).
  - exact Hf.
  - exact Hthrow.
Qed.

Lemma triple_skip_value {A B : Type} (I : World → Prop) (m : M A) (f : A → M B)
    (P : A → Prop) (J : outcome B → World → Prop) :
  keeps I m P →
  (∀ e w, I w → J (Throw e) w) →
  (∀ a, P a → triple I (f a) J) →
  triple I (m ≫= f) J.
Proof.
  intros Hm Hthrow Hf.
  apply (triple_bind I m f (λ r w, I w ∧ returned P r) J).
  - exact Hm.
  - intros a w [Hw Ha]. now apply Hf.
  - intros e w [Hw _]. now apply Hthrow.
Qed.

Lemma keeps_triple {A : Type} (I : World → Prop) (m : M A)
    (J : outcome A → World → Prop) :
  keeps I m anything → (∀ r w, I w → J r w) → triple I m J.
Proof. intros Hm HJ w Hw. apply HJ, (Hm w Hw). Qed.

Lemma succeeds_ret {A : Type} (a : A) : succeeds (mret a).
Proof. intros w. now exists a. Qed.

Lemma succeeds_emit (e : event) : succeeds (emit e).
Proof. intros w. now exists (). Qed.

Lemma succeeds_bind {A B : Type} (m : M A) (f : A → M B) :
  succeeds m → (∀ a, succeeds (f a)) → succeeds (m ≫= f).
Proof.
  intros Hm Hf w. destruct (Hm w) as [a Ha].
  unfold mbind, M_bind. destruct (m w) as [r w']; simpl in *. subst r. apply Hf.
Qed.

Lemma succeeds_try_catch {A : Type} (body : M A) (h : exn → M A) :
  (∀ e, succeeds (h e)) → succeeds (try_catch body h).
Proof.
  intros Hh w. unfold try_catch. destruct (body w) as [[a|e] w']; simpl.
  - now exists a.
  - apply Hh.
Qed.

Lemma then_throw {A B : Type} (m : M A) (e : exn) (w : World) :
  succeeds m → ((m ≫= λ _, throw e : M B) w).1 = Throw e.
Proof.
  intros Hm. destruct (Hm w) as [a Ha].
  unfold mbind, M_bind. destruct (m w) as [r w']; simpl in *. now subst r.
Qed.

Ltac succeeds_auto :=
  repeat first
    [ apply succeeds_ret | apply succeeds_emit
    | apply succeeds_bind; [ | intros ? ]
    | apply succeeds_try_catch; intros ?
    | progress (autounfold with script; cbn) ].

(** The walk of [keeps_auto], remembering the values the script reads: an
    input is what [core.getInput] delivers, the normalized key is
    [normalizeKey] of the raw one, and the directory entries are those of
    the tree. *)
Lemma keeps_normalization (I : World → Prop) (k : string) (note : M unit) :
  keeps I note anything →
  keeps I (if negb (endsWith k LF) then note ≫= λ _, mret (k +:+ LF) else mret k)
    (λ a, a = normalizeKey k).
Proof.
  intros Hnote. unfold normalizeKey. destruct (endsWith k LF); cbn [negb].
  - now apply keeps_ret.
  - apply keeps_bind_any; [exact Hnote | intros _; now apply keeps_ret].
Qed.

Lemma keeps_readdir_withFileTypes (env : Env) (I : World → Prop) (dir : string) :
  allows I (EReaddir dir false) →
  keeps I (fs_readdirSync_withFileTypes env dir)
    (λ files, ∃ t, tree env dir = Some t ∧ files = dirent_of <$> t).
Proof.
  intros He. unfold fs_readdirSync_withFileTypes.
  apply keeps_bind_any; [now apply keeps_emit | intros _].
  destruct (tree env dir) as [t|] eqn:E.
  - apply keeps_ret. now exists t.
  - apply keeps_throw.
Qed.

Ltac keeps_walk_step side :=
  lazymatch goal with
  | |- keeps _ (mbind _ (core_getInput _ _ _)) _ =>
      eapply keeps_bind; [apply keeps_getInput | intros ? ->]
  | |- keeps _ (mbind _ (if negb (endsWith _ LF) then _ else _)) _ =>
      eapply keeps_bind;
      [apply keeps_normalization; keeps_auto side | intros ? ->]
  | |- keeps _ (mbind _ (fs_readdirSync_withFileTypes _ _)) _ =>
      eapply keeps_bind;
      [apply keeps_readdir_withFileTypes; side
      | let t := fresh "t" in let Ht := fresh "Ht" in intros ? (t & Ht & ->)]
  | |- keeps _ (mbind _ _) _ =>
      apply keeps_bind_any; [solve [keeps_auto side] | intros ? ]
  | |- keeps _ (try_catch _ _) _ =>
      apply keeps_try_catch; [ | intros ?; solve [keeps_auto side] ]
  end.

Ltac keeps_walk side := repeat keeps_walk_step side.

(** ** Key normalization (C5) *)

Ltac carries_side :=
  apply always_allows; cbn;
  first [ exact Logic.I | reflexivity | intros; first [discriminate | reflexivity] ].

Lemma deploy_uses_normalized_key (env : Env) :
  keeps (always (carries (normalizeKey (input env "private_key")))) (deploy env) anything.
Proof.
  pose proof (always_stable (carries (normalizeKey (input env "private_key")))) as Hs.
  unfold deploy. cbn.
  keeps_walk ltac:(carries_side).
  keeps_auto ltac:(carries_side).
Qed.

(** C5: normalization appends the line terminator to a key that does not
    end in one and is the identity on a key that does; hence it is
    idempotent, its result ends in a line terminator, and in every run of
    [deploy] it is the normalized key that reaches the secret marker, the
    agent and the identity file. *)
Theorem private_key_normalization (rawKey : string) :
  ((∀ p, rawKey ≠ p +:+ LF) → normalizeKey rawKey = rawKey +:+ LF)
  ∧ ((∃ p, rawKey = p +:+ LF) → normalizeKey rawKey = rawKey)
  ∧ normalizeKey (normalizeKey rawKey) = normalizeKey rawKey
  ∧ (∃ p, normalizeKey rawKey = p +:+ LF)
  ∧ (∀ env fs0 pe,
       input env "private_key" = rawKey →
       Forall (carries (normalizeKey rawKey)) (trace (deploy env (initial fs0 pe)).2)).
Proof.
  repeat split.
  - intros Hno. unfold normalizeKey.
    destruct (endsWith rawKey LF) eqn:E; [| reflexivity].
    apply endsWith_spec in E as [p ->]. now destruct (Hno p).
  - intros Hp. apply endsWith_spec in Hp. unfold normalizeKey. now rewrite Hp.
  - unfold normalizeKey at 1. now rewrite normalizeKey_ends.
  - apply endsWith_spec, normalizeKey_ends.
  - intros env fs0 pe <-.
    apply (deploy_uses_normalized_key env (initial fs0 pe)), always_initial.
Qed.

Lemma private_key_normalization_witness :
  normalizeKey "test-key" = "test-key" +:+ LF
  ∧ normalizeKey ("test-key" +:+ LF) = "test-key" +:+ LF.
Proof.
  split.
  - apply (proj1 (private_key_normalization "test-key")).
    intros p Hp.
    assert (endsWith "test-key" LF = true) as H
      by (apply endsWith_spec; now exists p).
    vm_compute in H. discriminate H.
  - apply (proj1 (proj2 (private_key_normalization ("test-key" +:+ LF)))).
    now exists "test-key".
Defined.

(** ** The batch script (C3) *)

Ltac writes_batch_side :=
  apply always_allows; cbn;
  first [ exact Logic.I | intros; discriminate | intros _; split; [reflexivity | eauto] ].

Lemma deploy_writes_batch (env : Env) :
  keeps (always (writes_batch env)) (deploy env) anything.
Proof.
  pose proof (always_stable (writes_batch env)) as Hs.
  unfold deploy. cbn.
  keeps_walk ltac:(writes_batch_side).
  keeps_auto ltac:(writes_batch_side).
Qed.

(** *** What the transfer client reads *)

Lemma script_lines_line (x current rest : string) :
  has_char line_feed x = false →
  script_lines current (x +:+ LF +:+ rest) = (current +:+ x) :: script_lines "" rest.
Proof.
  revert current. induction x as [|c x IH]; intros current H.
  - rewrite append_empty_l, append_empty_r. reflexivity.
  - cbn [has_char] in H. apply orb_false_iff in H as [Hc Hx].
    rewrite append_cons. cbn [script_lines]. rewrite Hc, IH by exact Hx.
    now rewrite append_assoc.
Qed.

Lemma script_lines_all (xs : list string) :
  Forall (λ x, has_char line_feed x = false) xs →
  script_lines "" (lines ((λ x, x +:+ LF) <$> xs)) = xs.
Proof.
  induction 1 as [|x xs Hx _ IH]; [reflexivity |].
  cbn [fmap list_fmap lines foldr]. rewrite append_assoc.
  rewrite script_lines_line by exact Hx. fold (lines ((λ x, x +:+ LF) <$> xs)).
  now rewrite IH.
Qed.

Lemma has_char_append (c : ascii) (a b : string) :
  has_char c (a +:+ b) = has_char c a || has_char c b.
Proof.
  induction a as [|x a IH]; [reflexivity |].
  rewrite append_cons. cbn [has_char]. now rewrite IH, orb_assoc.
Qed.

Lemma line_words_quoted (x acc rest : string) :
  has_char double_quote x = false →
  line_words true (Some acc) (x +:+ DQ +:+ rest) = line_words false (Some (acc +:+ x)) rest.
Proof.
  revert acc. induction x as [|c x IH]; intros acc H.
  - rewrite append_empty_l, append_empty_r. reflexivity.
  - cbn [has_char] in H. apply orb_false_iff in H as [Hc Hx].
    rewrite append_cons. cbn [line_words]. rewrite Hc. cbn [negb andb default].
    rewrite IH by exact Hx. now rewrite append_assoc.
Qed.

Lemma line_words_bare (x acc rest : string) :
  has_char double_quote x = false → has_char (ascii_of_nat 32) x = false →
  has_char (ascii_of_nat 9) x = false → has_char (ascii_of_nat 13) x = false →
  line_words false (Some acc) (x +:+ rest) = line_words false (Some (acc +:+ x)) rest.
Proof.
  revert acc. induction x as [|c x IH]; intros acc H1 H2 H3 H4.
  - rewrite append_empty_l, append_empty_r. reflexivity.
  - cbn [has_char] in H1, H2, H3, H4.
    apply orb_false_iff in H1 as [Hc1 Hx1]. apply orb_false_iff in H2 as [Hc2 Hx2].
    apply orb_false_iff in H3 as [Hc3 Hx3]. apply orb_false_iff in H4 as [Hc4 Hx4].
    rewrite append_cons. cbn [line_words]. unfold is_blank. rewrite Hc1, Hc2, Hc3, Hc4.
    cbn [negb andb orb default].
    rewrite IH by assumption. now rewrite append_assoc.
Qed.

Lemma line_words_one_word (x : string) : one_word x → line_words false None x = [x].
Proof.
  intros ((_ & H1 & _) & Hne & H2 & H3 & H4). destruct x as [|c x]; [now destruct Hne |].
  cbn [has_char] in H1, H2, H3, H4.
  apply orb_false_iff in H1 as [Hc1 Hx1]. apply orb_false_iff in H2 as [Hc2 Hx2].
  apply orb_false_iff in H3 as [Hc3 Hx3]. apply orb_false_iff in H4 as [Hc4 Hx4].
  cbn [line_words]. unfold is_blank. rewrite Hc1, Hc2, Hc3, Hc4.
  cbn [negb andb orb default].
  rewrite <- (append_empty_r x) at 1.
  rewrite line_words_bare by assumption. rewrite append_empty_l. reflexivity.
Qed.

Lemma put_line_text (path name : string) : put_line path name = put_text path name +:+ LF.
Proof. unfold put_line, put_text. now rewrite !append_assoc. Qed.

Lemma line_words_put (path name : string) :
  has_char double_quote path = false → has_char double_quote name = false →
  line_words false None (put_text path name) = ["put"; path; name].
Proof.
  intros Hp Hn. unfold put_text.
  change (line_words false None
            ("put " +:+ DQ +:+ path +:+ DQ +:+ " " +:+ DQ +:+ name +:+ DQ))
    with ("put" :: line_words true (Some "") (path +:+ DQ +:+ " " +:+ DQ +:+ name +:+ DQ)).
  rewrite line_words_quoted by exact Hp. rewrite append_empty_l.
  change (line_words false (Some path) (" " +:+ DQ +:+ name +:+ DQ))
    with (path :: line_words true (Some "") (name +:+ DQ)).
  rewrite <- (append_empty_r DQ) at 1. rewrite line_words_quoted by exact Hn.
  reflexivity.
Qed.

Lemma put_lines_text (join : string → string → string) (sourceDir : string)
    (l : list Fs.Dirent) :
  lines ((λ file, put_line (join sourceDir (Fs.name file)) (Fs.name file)) <$> l)
  = lines ((λ x, x +:+ LF)
             <$> ((λ file, put_text (join sourceDir (Fs.name file)) (Fs.name file)) <$> l)).
Proof.
  induction l as [|f l IH]; [reflexivity |].
  cbn [fmap list_fmap lines foldr]. rewrite put_line_text. f_equal. exact IH.
Qed.

Lemma line_words_put_lines (join : string → string → string) (sourceDir : string)
    (l : list Fs.Dirent) :
  (∀ file, file ∈ l → plain (join sourceDir (Fs.name file)) ∧ plain (Fs.name file)) →
  line_words false None
    <$> ((λ file, put_text (join sourceDir (Fs.name file)) (Fs.name file)) <$> l)
  = (λ file, ["put"; join sourceDir (Fs.name file); Fs.name file]) <$> l.
Proof.
  induction l as [|f l IH]; intros Hfiles; [reflexivity |].
  cbn [fmap list_fmap]. f_equal.
  - destruct (Hfiles f) as [(_ & H1 & _) (_ & H2 & _)]; [now left |].
    now apply line_words_put.
  - apply IH. intros g Hg. apply Hfiles. now right.
Qed.

Lemma directives_of_script (join : string → string → string) (remoteDir sourceDir : string)
    (files : list Fs.Dirent) :
  one_word remoteDir →
  (∀ file, file ∈ manifest files →
           plain (join sourceDir (Fs.name file)) ∧ plain (Fs.name file)) →
  one_put_per_entry join remoteDir sourceDir files.
Proof.
  intros Hword Hfiles. pose proof Hword as ((Hlf & _) & _).
  unfold one_put_per_entry, directives, batchFileContent. rewrite batch_loop.
  assert ((("-mkdir " +:+ remoteDir +:+ LF) +:+ ("cd " +:+ remoteDir +:+ LF))
          +:+ lines ((λ file, put_line (join sourceDir (Fs.name file)) (Fs.name file))
                       <$> manifest files)
          = lines ((λ x, x +:+ LF)
                     <$> ("-mkdir " +:+ remoteDir) :: ("cd " +:+ remoteDir)
                         :: ((λ file, put_text (join sourceDir (Fs.name file)) (Fs.name file))
                               <$> manifest files))) as ->.
  { rewrite put_lines_text. cbn [fmap list_fmap lines foldr].
    now rewrite !append_assoc. }
  rewrite script_lines_all.
  - cbn [fmap list_fmap].
    change (line_words false None ("-mkdir " +:+ remoteDir))
      with ("-mkdir" :: line_words false None remoteDir).
    change (line_words false None ("cd " +:+ remoteDir))
      with ("cd" :: line_words false None remoteDir).
    rewrite line_words_one_word by exact Hword. do 2 f_equal.
    now apply line_words_put_lines.
  - repeat constructor.
    + now rewrite has_char_append, Hlf.
    + now rewrite has_char_append, Hlf.
    + apply Forall_fmap, Forall_forall. intros f Hf.
      destruct (Hfiles f Hf) as [(H1 & _) (H2 & _)]. unfold put_text. cbn.
      rewrite !has_char_append, H1, H2. reflexivity.
Qed.




(** ** Failure of the transfer client (C2) *)

Lemma succeeds_then_throw {A B : Type} (m : M A) (f : A → M B) (e : exn) :
  succeeds m → (∀ a w, (f a w).1 = Throw e) → ∀ w, ((m ≫= f) w).1 = Throw e.
Proof.
  intros Hm Hf w. destruct (Hm w) as [a Ha].
  unfold mbind, M_bind. destruct (m w) as [r w']; simpl in *. subst r. apply Hf.
Qed.

Lemma exec_run_fails (env : Env) (cmd : string) (n : nat) (out : ExecOutput) (w : World) :
  spawned w = n → proc env n cmd [] = Exited out → exitCode out ≠ 0%Z →
  (exec_run env cmd [] no_options w).1 = Throw (ProcessFailed cmd (exitCode out)).
Proof.
  intros <- Hp Hcode. unfold exec_run, spawn, mbind, M_bind. cbn. rewrite Hp. cbn.
  destruct (Z.eqb_spec (exitCode out) 0) as [E | E]; [contradiction | reflexivity].
Qed.

Lemma triple_ret_bind {A B : Type} (I : World → Prop) (a : A) (f : A → M B)
    (J : outcome B → World → Prop) :
  triple I (f a) J → triple I (mret a ≫= f) J.
Proof. intros H w Hw. exact (H w Hw). Qed.

Lemma keeps_ret_bind {A B : Type} (I : World → Prop) (a : A) (f : A → M B)
    (Q : B → Prop) :
  keeps I (f a) Q → keeps I (mret a ≫= f) Q.
Proof. intros H w Hw. exact (H w Hw). Qed.

Ltac triple_walk_step side throws :=
  lazymatch goal with
  | |- triple _ (mbind _ (mret _)) _ => apply triple_ret_bind
  | |- triple _ (mbind _ (core_getInput _ _ _)) _ =>
      eapply triple_skip_value; [apply keeps_getInput | throws | intros ? ->]
  | |- triple _ (mbind _ (if negb (endsWith _ LF) then _ else _)) _ =>
      eapply triple_skip_value;
      [apply keeps_normalization; keeps_auto side | throws | intros ? ->]
  | |- triple _ (mbind _ (try_catch (mbind _ (exec_run _ _ [] _)) _)) _ => fail
  | |- triple _ (mbind _ _) _ =>
      apply triple_skip; [solve [keeps_auto side] | throws | intros ? ]
  end.

Ltac never_transfer_side := apply always_allows; reflexivity.

Lemma deploy_transfer_failure (env : Env) :
  transfer_fails env →
  triple (always (λ e, is_transfer e = false)) (deploy env)
    (λ r w, ∃ e, r = Throw e
                 ∧ (always (λ e, is_transfer e = false) w
                    ∨ ∃ code, code ≠ 0%Z
                              ∧ e = ProcessFailed (deploy_sftpCommand env) code)).
Proof.
  intros Hfail.
  pose proof (always_stable (λ e, is_transfer e = false)) as Hs.
  unfold deploy. cbn.
  apply triple_skip;
    [solve [keeps_auto never_transfer_side] | intros e w Hw; exists e; auto | intros _].
  eapply triple_try_catch with
    (K := λ r w, ∃ e, r = Throw e
                      ∧ (always (λ e, is_transfer e = false) w
                         ∨ ∃ code, code ≠ 0%Z
                                   ∧ e = ProcessFailed (deploy_sftpCommand env) code)).
  - repeat triple_walk_step never_transfer_side ltac:(intros e w Hw; exists e; auto).
    apply triple_bind with
      (K := λ r w, ∃ code, code ≠ 0%Z
                           ∧ r = Throw (ProcessFailed (deploy_sftpCommand env) code)).
    + intros w Hw. destruct (Hfail (spawned w)) as (out & Hp & Hcode).
      exists (exitCode out). split; [exact Hcode |].
      unfold try_catch.
      pose proof (exec_run_fails env _ _ out w eq_refl Hp Hcode) as Hrun.
      fold (deploy_sftpCommand env).
      match goal with
      | |- context [mbind ?f (exec_run env ?c [] no_options) w] =>
          assert ((mbind f (exec_run env c [] no_options) w).1
                  = Throw (ProcessFailed c (exitCode out))) as Hbody
      end.
      { unfold mbind at 1, M_bind at 1.
        destruct (exec_run env (deploy_sftpCommand env) [] no_options w) as [r w'].
        simpl in Hrun. now subst r. }
      match type of Hbody with
      | (?b).1 = _ => destruct b as [r w']
      end.
      simpl in Hbody. subst r. cbv beta iota.
      apply succeeds_then_throw; [succeeds_auto |].
      intros _ w1. apply succeeds_then_throw; [succeeds_auto | reflexivity].
    + intros ? w0 (code & _ & H). discriminate H.
    + intros err w0 (code & Hcode & H). injection H as ->.
      eexists. split; [reflexivity | right; eauto].
  - intros ? w0 (err & H & _). discriminate H.
  - intros e w (e' & H & Hd). injection H as <-.
    cbn. exists e. split; [reflexivity |].
    destruct Hd as [Hd | Hd]; [left | now right].
    unfold always in *. cbn.
    repeat (apply Forall_app; split); try exact Hd; now repeat constructor.
Qed.

(** *** The ES-module variant *)

Lemma succeeds_get_cleanup : succeeds get_cleanup.
Proof. intros w. now eexists. Qed.

Lemma reported_stable L : stable (reported_is L).
Proof. intros w w' E H. unfold reported_is in *. now rewrite E. Qed.

Lemma reported_allows L e : is_report e = false → allows (reported_is L) e.
Proof.
  intros He w w' E H. unfold reported_is, reported in *. rewrite E, filter_app, H.
  rewrite filter_cons, decide_False by (rewrite He; discriminate).
  rewrite filter_nil. apply app_nil_r.
Qed.

Lemma unreported_stable : stable unreported.
Proof. intros w w' E H. unfold unreported in *. now rewrite E. Qed.

Lemma unreported_allows (e : event) :
  is_report e = false → is_sftp e = false → allows unreported e.
Proof.
  intros H1 H2 w w' E [Hr Hn]. split.
  - now apply (reported_allows [] e H1 w w' E).
  - now apply (always_allows (λ e, is_sftp e = false) e H2 w w' E).
Qed.

Ltac unreported_side := apply unreported_allows; reflexivity.

Lemma failure_reported_stable env e : stable (failure_reported env e).
Proof. intros w w' E H. unfold failure_reported in *. now rewrite E. Qed.

Lemma failure_reported_allows env e ev :
  is_report ev = false → is_sftp ev = false → allows (failure_reported env e) ev.
Proof.
  intros H1 H2 w w' E [Hr Hd]. split.
  - now apply (reported_allows _ ev H1 w w' E).
  - destruct Hd as [Hd | Hd]; [left | now right].
    now apply (always_allows (λ e, is_sftp e = false) ev H2 w w' E).
Qed.

Lemma transfer_failed_stable env {A : Type} (r : outcome A) :
  stable (transfer_failed env r).
Proof. intros w w' E H. unfold transfer_failed in *. now rewrite E. Qed.

Lemma transfer_failed_allows env {A : Type} (r : outcome A) ev :
  is_report ev = false → is_sftp ev = false → allows (transfer_failed env r) ev.
Proof.
  intros H1 H2 w w' E (e & -> & Hr & Hd). exists e. split; [reflexivity |]. split.
  - now apply (reported_allows _ ev H1 w w' E).
  - destruct Hd as [Hd | Hd]; [| now right].
    left. now apply (always_allows (λ e, is_sftp e = false) ev H2 w w' E).
Qed.

Lemma transfer_failed_throw env {A B : Type} (e : exn) (w : World) :
  @transfer_failed env A (Throw e) w → @transfer_failed env B (Throw e) w.
Proof. intros (e' & He & H). injection He as <-. now exists e. Qed.

(** The toolkit rejects a non-zero exit status after it has handed the
    output to the listeners of the transfer, whatever they log. *)
Lemma transfer_rejects (env : Env) (args : list string) (out : ExecOutput) (w : World) :
  proc env (spawned w) "sftp" args = Exited out → exitCode out ≠ 0%Z →
  (exec_run env "sftp" args (EsmVariant.transfer_options env) w).1
  = Throw (ProcessFailed "sftp" (exitCode out)).
Proof.
  intros Hp Hcode. unfold exec_run, spawn, mbind, M_bind. cbn. rewrite Hp. cbn.
  destruct (String.eqb (stdout out) ""); cbn;
    [| destruct (String.eqb (trim (stdout out)) ""); cbn];
    (destruct (String.eqb (stderr out) ""); cbn;
     [| destruct (includes (trim (stderr out)) "Error" || includes (trim (stderr out)) "fatal");
        cbn; [| destruct (includes (trim (stderr out)) "Warning"); cbn]]);
    destruct (Z.eqb_spec (exitCode out) 0) as [E | E]; first [contradiction | reflexivity].
Qed.

(** A statement that cannot throw, inside a triple. *)
Lemma triple_completes {A : Type} (I : World → Prop) (m : M A) (J : World → Prop) :
  succeeds m → triple I m (λ _ w, J w) →
  triple I m (λ r w, (∃ a, r = Return a) ∧ J w).
Proof. intros Hs Hm w Hw. split; [apply Hs | now apply Hm]. Qed.

Ltac esm_failure_step throws :=
  lazymatch goal with
  | |- triple _ (mbind _ (mret _)) _ => apply triple_ret_bind
  | |- triple _ (mbind _ (try_finally _ _)) _ => fail
  | |- triple _ (mbind _ (exec_run _ "sftp" _ _)) _ => fail
  | |- triple _ (mbind _ (mbind _ (exec_run _ "sftp" _ _))) _ => fail
  | |- triple _ (mbind _ _) _ =>
      apply triple_skip; [solve [keeps_auto unreported_side] | throws | intros ? ]
  end.

Lemma esm_transfer_failure (env : Env) :
  sftp_fails env →
  triple unreported (EsmVariant.deploy env) (λ _ w, ∃ e, failure_reported env e w).
Proof.
  intros Hfail.
  pose proof unreported_stable as Hs.
  assert (∀ e w, unreported w → @transfer_failed env unit (Throw e) w) as Hearly.
  { intros e w [Hr Hn]. exists e. split; [reflexivity |]. split; [exact Hr | now left]. }
  unfold EsmVariant.deploy. cbn.
  apply triple_bind with (K := λ r w, r = Return () ∧ unreported w).
  { intros w Hw. split; [reflexivity | exact Hw]. }
  2: { intros e w [H _]. discriminate H. }
  intros [].
  apply triple_conseq with
    (I' := unreported) (J' := λ (_ : outcome unit) w, ∃ e, failure_reported env e w);
    [| now intros w [_ H] | intros ? ? H; exact H].
  apply triple_try_finally with (K := λ _ w, ∃ e, failure_reported env e w).
  - apply triple_try_catch with (K := transfer_failed env).
    + repeat esm_failure_step ltac:(intros ? ? H; apply Hearly; exact H).
      apply triple_bind with (K := transfer_failed env).
      * apply triple_try_finally with (K := transfer_failed env).
        -- repeat esm_failure_step ltac:(intros ? ? H; apply Hearly; exact H).
           apply triple_bind with (K := transfer_failed env).
           ++ apply triple_bind with (K := transfer_failed env).
              ** intros w Hw.
                 match goal with
                 | |- context [exec_run env "sftp" ?a _] => set (args := a)
                 end.
                 destruct (Hfail (spawned w) args) as (out & Hp & Hcode).
                 pose proof (transfer_rejects env args out w Hp Hcode) as Hrun.
                 assert (keeps (reported_is [])
                           (exec_run env "sftp" args (EsmVariant.transfer_options env))
                           anything) as Hk.
                 { pose proof (reported_stable []) as Hs'.
                   keeps_auto ltac:(apply reported_allows; reflexivity). }
                 destruct (Hk w (proj1 Hw)) as [Hr _].
                 exists (ProcessFailed "sftp" (exitCode out)).
                 split; [exact Hrun |]. split; [exact Hr | right].
                 now exists "sftp", (spawned w), args, out.
              ** intros ? ? (? & H & _). discriminate H.
              ** intros ? ? H. exact (transfer_failed_throw env _ _ H).
           ++ intros ? ? (? & H & _). discriminate H.
           ++ intros ? ? H. exact (transfer_failed_throw env _ _ H).
        -- intros r.
           apply triple_conseq with
             (I' := transfer_failed env r)
             (J' := λ r' w, (∃ a, r' = Return a) ∧ transfer_failed env r w);
             [| intros ? H; exact H | intros ? ? [[[] ->] H]; exact H].
           pose proof (transfer_failed_stable env r) as Hs'.
           apply triple_completes; [succeeds_auto |].
           apply keeps_triple; [| intros ? ? H; exact H].
           keeps_auto ltac:(apply transfer_failed_allows; reflexivity).
      * intros ? ? (? & H & _). discriminate H.
      * intros ? ? H. exact (transfer_failed_throw env _ _ H).
    + intros ? ? (? & H & _). discriminate H.
    + intros e. cbn. intros w (e' & He & Hr & Hd). injection He as <-.
      exists e. unfold failure_reported, mbind, M_bind, emit. cbn [fst snd trace]. split.
      * unfold reported. rewrite <- !app_assoc, filter_app.
        fold (reported (trace w)). rewrite Hr. reflexivity.
      * destruct Hd as [Hd | Hd]; [left | now right].
        rewrite <- !app_assoc. apply Forall_app. split; [exact Hd |].
        now repeat constructor.
  - intros r. cbn.
    apply triple_conseq with
      (I' := λ w, ∃ e, failure_reported env e w)
      (J' := λ (r' : outcome unit) w, (∃ a, r' = Return a) ∧ ∃ e, failure_reported env e w);
      [| intros ? H; exact H | intros ? ? [[[] ->] H]; exact H].
    apply triple_completes.
    + apply succeeds_bind; [apply succeeds_get_cleanup | intros [|]]; [| apply succeeds_ret].
      succeeds_auto.
    + match goal with
      | |- triple _ ?fin _ =>
          assert (∀ e, triple (failure_reported env e) fin
                         (λ _ w, failure_reported env e w)) as Hfin
      end.
      { intros e. pose proof (failure_reported_stable env e) as Hs'.
        apply keeps_triple; [| intros ? ? H; exact H].
        keeps_auto ltac:(apply failure_reported_allows; reflexivity). }
      intros w (e & Hw). exists e. exact (Hfin e w Hw).
Qed.

(** C2: when the transfer client exits with a non-zero status, whatever it
    wrote to its output streams, the deployment fails.  The current
    [deploy] throws: it returns no result and sets no output, and the error
    its caller receives is the failure of the client (unless an earlier
    step failed, in which case the client was never started).  The
    ES-module [deploy], whose listeners read both streams, reports exactly
    one failure through [core.setFailed] and sets no output, and the
    failure reported is that of the client, with its exit status (with the
    same exception). *)
Theorem transfer_failure_fails_deployment (env : Env) (fs0 : gmap string file)
    (pe : gmap string string) :
  (transfer_fails env →
   ∃ e, (deploy env (initial fs0 pe)).1 = Throw e
        ∧ (Forall (λ e, is_transfer e = false) (trace (deploy env (initial fs0 pe)).2)
           ∨ ∃ code, code ≠ 0%Z ∧ e = ProcessFailed (deploy_sftpCommand env) code)
        ∧ Forall (λ e, is_output e = false) (trace (deploy env (initial fs0 pe)).2))
  ∧ (sftp_fails env →
     ∃ e, reported (trace (EsmVariant.deploy env (initial fs0 pe)).2)
          = [ESetFailed (message e)]
          ∧ (Forall (λ e, is_sftp e = false)
               (trace (EsmVariant.deploy env (initial fs0 pe)).2)
             ∨ client_failure env e)).
Proof.
  split; intros Hfail.
  - destruct (deploy_transfer_failure env Hfail (initial fs0 pe) (always_initial _ _ _))
      as (e & He & Hd).
    exists e. repeat split; [exact He | exact Hd |].
    apply (deploy_never_sets_output env (initial fs0 pe)), always_initial.
  - apply (esm_transfer_failure env Hfail (initial fs0 pe)).
    split; [reflexivity | constructor].
Qed.

Lemma transfer_failure_fails_deployment_witness :
  (∃ e, (deploy (scenario "test-key" (Some two_files) connection_refused)
           (initial ∅ ∅)).1 = Throw e
        ∧ (Forall (λ e, is_transfer e = false)
             (trace (deploy (scenario "test-key" (Some two_files) connection_refused)
                       (initial ∅ ∅)).2)
           ∨ ∃ code, code ≠ 0%Z
                     ∧ e = ProcessFailed
                             (deploy_sftpCommand
                                (scenario "test-key" (Some two_files) connection_refused))
                             code)
        ∧ Forall (λ e, is_output e = false)
            (trace (deploy (scenario "test-key" (Some two_files) connection_refused)
                      (initial ∅ ∅)).2))
  ∧ ∃ e, reported
           (trace (EsmVariant.deploy
                     (scenario "test-key" (Some two_files) (exits 1 "Connected." ""))
                     (initial ∅ ∅)).2)
         = [ESetFailed (message e)]
         ∧ (Forall (λ e, is_sftp e = false)
              (trace (EsmVariant.deploy
                        (scenario "test-key" (Some two_files) (exits 1 "Connected." ""))
                        (initial ∅ ∅)).2)
            ∨ client_failure
                (scenario "test-key" (Some two_files) (exits 1 "Connected." "")) e).
Proof.
  split.
  - apply (proj1 (transfer_failure_fails_deployment
                    (scenario "test-key" (Some two_files) connection_refused) ∅ ∅)).
    intros n. eexists. split; [vm_compute; reflexivity | vm_compute; discriminate].
  - apply (proj2 (transfer_failure_fails_deployment
                    (scenario "test-key" (Some two_files) (exits 1 "Connected." "")) ∅ ∅)).
    intros n args. eexists. split; [vm_compute; reflexivity | vm_compute; discriminate].
Defined.

(** ** Phases of a run *)

Lemma guarded_stable P x F : stable (guarded P x F).
Proof.
  intros w w' E [H | H]; [left | right].
  - now apply (always_stable P w).
  - now apply (before_stable P x F w).
Qed.

Lemma guarded_allows P x F e : P e → allows (guarded P x F) e.
Proof.
  intros He w w' E [H | H]; [left | right].
  - now apply (always_allows P e He w).
  - now apply (before_allows P x F e w).
Qed.

Lemma exec_run_trace (env : Env) cmd args opts (w : World) :
  Exec.listeners opts = None →
  trace (exec_run env cmd args opts w).2 = trace w ++ [ESpawn cmd args (Exec.input opts)].
Proof.
  intros Hl. unfold exec_run, spawn, mbind, M_bind. cbn.
  destruct (proc env (spawned w) cmd args) as [out | reason]; cbn; [| reflexivity].
  rewrite Hl. cbn.
  destruct (Exec.ignoreReturnCode opts || (exitCode out =? 0)%Z); reflexivity.
Qed.

Lemma fs_writeFile_trace (env : Env) p c mode (w : World) :
  trace (fs_writeFile env p c mode w).2 = trace w ++ [EWriteFile p c (default 438%N mode)].
Proof.
  unfold fs_writeFile, mbind, M_bind. cbn.
  destruct (denied env p); reflexivity.
Qed.

Lemma triple_records {A : Type} (P : event → Prop) (F : list event) (m : M A) (e : event) :
  (∀ w, trace (m w).2 = trace w ++ [e]) → P e →
  triple (inv P F) m (λ _ w, inv P (F ++ [e]) w).
Proof. intros Ht He w Hw. exact (inv_record P F e w _ (Ht w) He Hw). Qed.

Lemma triple_first {A : Type} (P : event → Prop) (F : list event) (m : M A) (x : event) :
  (∀ w, trace (m w).2 = trace w ++ [x]) →
  triple (inv P F) m (λ _ w, before P x F w).
Proof. intros Ht w Hw. exact (inv_first P F x w _ (Ht w) Hw). Qed.

(** The walk through the statements of a script that keep the invariant,
    up to the statement at which [stop] succeeds. *)
Ltac triple_walk side throws stop :=
  repeat (tryif stop then fail else triple_walk_step side throws).

(** ** Registration of the secret (C8, order of events) *)

Lemma deploy_registers_secret_first (env : Env) :
  triple (inv (λ e, uses_key e = false) []) (deploy env)
    (λ _ w, guarded (λ e, uses_key e = false)
              (ESetSecret (normalizeKey (input env "private_key"))) [] w).
Proof.
  pose proof (inv_stable (λ e, uses_key e = false) []) as Hs.
  pose proof (before_stable (λ e, uses_key e = false)
                (ESetSecret (normalizeKey (input env "private_key"))) []) as Hb.
  pose proof (guarded_stable (λ e, uses_key e = false)
                (ESetSecret (normalizeKey (input env "private_key"))) []) as Hg.
  unfold deploy. cbn.
  apply triple_skip;
    [solve [keeps_auto ltac:(apply inv_allows; reflexivity)]
    | intros e w Hw; left; exact (inv_always _ _ _ Hw) | intros _].
  apply triple_try_catch with
    (K := λ _ w, guarded (λ e, uses_key e = false)
                   (ESetSecret (normalizeKey (input env "private_key"))) [] w).
  - triple_walk ltac:(apply inv_allows; reflexivity)
      ltac:(intros e w Hw; left; exact (inv_always _ _ _ Hw))
      ltac:(idtac;
            lazymatch goal with
            | |- triple _ (mbind _ (emit (ESetSecret _))) _ => idtac
            end).
    apply triple_bind with
      (K := λ _ w, before (λ e, uses_key e = false)
                     (ESetSecret (normalizeKey (input env "private_key"))) [] w).
    + apply triple_first. reflexivity.
    + intros _. apply keeps_triple; [| intros r w Hw; now right].
      keeps_auto ltac:(apply before_allows).
    + intros e w Hw. now right.
  - intros a w Hw. exact Hw.
  - intros e. apply keeps_triple; [| intros r w Hw; exact Hw].
    keeps_auto ltac:(apply guarded_allows; reflexivity).
Qed.

(** ** Credential representations (C7) *)

Lemma keeps_never_triple {A : Type} (I : World → Prop) (m : M A)
    (J : outcome A → World → Prop) :
  keeps I m (λ _, False) → (∀ e w, I w → J (Throw e) w) → triple I m J.
Proof.
  intros Hm HJ w Hw. destruct (Hm w Hw) as [HI Hr].
  destruct (m w).1; simpl in *; [contradiction | now apply HJ].
Qed.

Ltac quiet_side := apply inv_allows; split; reflexivity.

Lemma startSshAgent_loads_key (env : Env) (k : string) :
  triple (inv quiet []) (startSshAgent env k) (agent_loaded k).
Proof.
  pose proof (inv_stable quiet []) as Hs0.
  pose proof (inv_stable quiet [ESpawn "ssh-agent" ["-s"] None]) as Hs1.
  pose proof (inv_stable quiet [ESpawn "ssh-agent" ["-s"] None;
                                ESpawn "ssh-add" ["-"] (Some k)]) as Hs2.
  assert (∀ F w, inv quiet F w → inv quiet [] w) as Hweak.
  { intros F w. apply inv_weaken, sublist_nil_l. }
  unfold startSshAgent. cbn.
  apply triple_skip; [solve [keeps_auto quiet_side] | intros e w Hw; exact Hw | intros _].
  apply triple_try_finally with (K := agent_loaded k).
  - apply triple_try_catch with (K := agent_loaded k).
    + triple_walk quiet_side ltac:(intros e w Hw; exact Hw)
        ltac:(idtac;
              lazymatch goal with
              | |- triple _ (mbind _ (exec_run _ _ _ _)) _ => idtac
              end).
      apply triple_bind with (K := λ _ w, inv quiet [ESpawn "ssh-agent" ["-s"] None] w).
      * apply (triple_records quiet []);
          [intros w; now apply exec_run_trace | split; reflexivity].
      * intros agentInfo.
        triple_walk quiet_side ltac:(intros e w Hw; exact (Hweak _ _ Hw))
          ltac:(idtac;
                lazymatch goal with
                | |- triple _ (mbind _ (exec_run _ _ _ _)) _ => idtac
                end).
        destruct (match_capture "SSH_AUTH_SOCK=" (stdout agentInfo)) as [authSock|];
          [| apply triple_throw; intros w Hw; exact (Hweak _ _ Hw)].
        destruct (match_capture "SSH_AGENT_PID=" (stdout agentInfo)) as [agentPid|];
          [| apply triple_throw; intros w Hw; exact (Hweak _ _ Hw)].
        triple_walk quiet_side ltac:(intros e w Hw; exact (Hweak _ _ Hw))
          ltac:(idtac;
                lazymatch goal with
                | |- triple _ (mbind _ (exec_run _ _ _ _)) _ => idtac
                end).
        apply triple_bind with
          (K := λ _ w, inv quiet [ESpawn "ssh-agent" ["-s"] None;
                                  ESpawn "ssh-add" ["-"] (Some k)] w).
        -- apply (triple_records quiet [ESpawn "ssh-agent" ["-s"] None]);
             [intros w; now apply exec_run_trace | split; reflexivity].
        -- intros _.
           apply triple_skip;
             [solve [keeps_auto quiet_side] | intros e w Hw; exact (Hweak _ _ Hw) | intros _].
           apply triple_ret. intros w Hw. exact Hw.
        -- intros e w Hw. exact (Hweak _ _ Hw).
      * intros e w Hw. exact (Hweak _ _ Hw).
    + intros a w Hw. exact Hw.
    + intros e. apply keeps_never_triple; [| intros e' w Hw; exact Hw].
      keeps_auto quiet_side.
  - intros [a|e]; unfold agent_loaded at 1;
      (apply keeps_triple; [keeps_auto quiet_side |]);
      intros [[]|e'] w Hw; first [exact Hw | exact (Hweak _ _ Hw)].
Qed.

Lemma deploy_credentials_before_transfer (env : Env) :
  triple (inv quiet []) (deploy env)
    (λ _ w, guarded quiet (ESpawn (deploy_sftpCommand env) [] None) (credentials env) w).
Proof.
  set (k := normalizeKey (input env "private_key")).
  set (A := ESpawn "ssh-agent" ["-s"] None).
  set (B := ESpawn "ssh-add" ["-"] (Some k)).
  set (C := EWriteFile (path_join env (os_tmpdir env) "deploy_identity") k 384).
  set (X := ESpawn (deploy_sftpCommand env) [] None).
  change (credentials env) with [A; B; C].
  pose proof (inv_stable quiet []) as Hs0.
  pose proof (inv_stable quiet [A; B]) as Hs2.
  pose proof (inv_stable quiet [A; B; C]) as Hs3.
  pose proof (before_stable quiet X [A; B; C]) as Hb.
  pose proof (guarded_stable quiet X [A; B; C]) as Hg.
  assert (∀ F (e : exn) w, inv quiet F w → guarded quiet X [A; B; C] w) as Hleft.
  { intros F e w Hw. left. exact (inv_always _ _ _ Hw). }
  unfold deploy. cbn.
  apply triple_skip;
    [solve [keeps_auto quiet_side] | intros e w Hw; exact (Hleft _ e _ Hw) | intros _].
  apply triple_try_catch with (K := λ _ w, guarded quiet X [A; B; C] w).
  - triple_walk quiet_side ltac:(intros e w Hw; exact (Hleft _ e _ Hw))
      ltac:(idtac;
            lazymatch goal with
            | |- triple _ (mbind _ (startSshAgent _ _)) _ => idtac
            end).
    apply triple_bind with (K := agent_loaded k).
    + apply startSshAgent_loads_key.
    + intros agentInfo. unfold agent_loaded. fold A B.
      triple_walk quiet_side ltac:(intros e w Hw; exact (Hleft _ e _ Hw))
        ltac:(idtac;
              lazymatch goal with
              | |- triple _ (mbind _ (fs_writeFile _ _ _ (Some _))) _ => idtac
              end).
      apply triple_bind with (K := λ _ w, inv quiet [A; B; C] w).
      * apply (triple_records quiet [A; B]);
          [intros w; apply fs_writeFile_trace | split; reflexivity].
      * intros _.
        triple_walk quiet_side ltac:(intros e w Hw; exact (Hleft _ e _ Hw))
          ltac:(fail).
        apply triple_conseq with
          (I' := inv quiet [A; B; C]) (J' := λ _ w, before quiet X [A; B; C] w);
          [| auto | intros r w Hw; now right].
        apply triple_bind with (K := λ _ w, before quiet X [A; B; C] w).
        -- apply triple_try_catch with (K := λ _ w, before quiet X [A; B; C] w).
           ++ apply triple_bind with (K := λ _ w, before quiet X [A; B; C] w).
              ** apply triple_first. intros w. now apply exec_run_trace.
              ** intros result. apply keeps_triple; [| auto].
                 keeps_auto ltac:(apply before_allows).
              ** auto.
           ++ auto.
           ++ intros e. apply keeps_triple; [| auto].
              keeps_auto ltac:(apply before_allows).
        -- intros _. apply keeps_triple; [| auto].
           keeps_auto ltac:(apply before_allows).
        -- auto.
      * intros e w Hw. exact (Hleft _ e _ Hw).
    + intros e w Hw. exact (Hleft _ e _ Hw).
  - auto.
  - intros e. apply keeps_triple; [| auto].
    keeps_auto ltac:(apply guarded_allows; split; reflexivity).
Qed.

(** ** Two runs side by side

    The rules of [sim], one for each construct of a script. *)

Section Sim.
Variable view : event → option event.

Local Abbreviation related := (related view).
Local Abbreviation sim := (sim view).

Lemma sim_weaken {A B : Type} (m1 : M A) (m2 : M B) (S T : A → B → Prop) :
  sim m1 m2 S → (∀ a b, S a b → T a b) → sim m1 m2 T.
Proof.
  intros H HST w1 w2 Hw. destruct (H w1 w2 Hw) as [Hr Ho]. split; [exact Hr |].
  destruct (m1 w1).1, (m2 w2).1; simpl in *; auto.
Qed.

Lemma sim_ret {A B : Type} (a : A) (b : B) (S : A → B → Prop) :
  S a b → sim (mret a) (mret b) S.
Proof. intros H w1 w2 Hw. split; [exact Hw | exact H]. Qed.

Lemma sim_throw {A B : Type} (e : exn) (S : A → B → Prop) :
  sim (throw e) (throw e) S.
Proof. intros w1 w2 Hw. split; [exact Hw | reflexivity]. Qed.

Lemma sim_bind {A B A' B' : Type} (m1 : M A) (m2 : M B) (f1 : A → M A') (f2 : B → M B')
    (S : A → B → Prop) (T : A' → B' → Prop) :
  sim m1 m2 S → (∀ a b, S a b → sim (f1 a) (f2 b) T) →
  sim (m1 ≫= f1) (m2 ≫= f2) T.
Proof.
  intros Hm Hf w1 w2 Hw. destruct (Hm w1 w2 Hw) as [Hr Ho].
  unfold mbind, M_bind.
  destruct (m1 w1) as [[a|e1] w1'], (m2 w2) as [[b|e2] w2']; simpl in *;
    try contradiction.
  - now apply Hf.
  - split; assumption.
Qed.

Lemma sim_bind_eq {A A' B' : Type} (m1 m2 : M A) (f1 : A → M A') (f2 : A → M B')
    (T : A' → B' → Prop) :
  sim m1 m2 eq → (∀ a, sim (f1 a) (f2 a) T) → sim (m1 ≫= f1) (m2 ≫= f2) T.
Proof. intros Hm Hf. apply (sim_bind _ _ _ _ eq T Hm). intros a b <-. apply Hf. Qed.

Lemma sim_try_catch {A B : Type} (b1 : M A) (b2 : M B) (h1 : exn → M A) (h2 : exn → M B)
    (S : A → B → Prop) :
  sim b1 b2 S → (∀ e, sim (h1 e) (h2 e) S) →
  sim (try_catch b1 h1) (try_catch b2 h2) S.
Proof.
  intros Hb Hh w1 w2 Hw. destruct (Hb w1 w2 Hw) as [Hr Ho].
  unfold try_catch.
  destruct (b1 w1) as [[a|e1] w1'], (b2 w2) as [[b|e2] w2']; simpl in *;
    try contradiction.
  - split; assumption.
  - subst e2. now apply Hh.
Qed.

Lemma sim_try_finally {A B : Type} (b1 : M A) (b2 : M B) (f1 f2 : M unit)
    (S : A → B → Prop) :
  sim b1 b2 S → sim f1 f2 whatever →
  sim (try_finally b1 f1) (try_finally b2 f2) S.
Proof.
  intros Hb Hf w1 w2 Hw. destruct (Hb w1 w2 Hw) as [Hr Ho].
  unfold try_finally.
  destruct (b1 w1) as [r1 w1'], (b2 w2) as [r2 w2']; simpl in *.
  destruct (Hf w1' w2' Hr) as [Hr' Ho'].
  destruct (f1 w1') as [[[]|e1] w1''], (f2 w2') as [[[]|e2] w2'']; simpl in *;
    try contradiction; split; assumption.
Qed.

Lemma sim_ret_bind_l {A A' B : Type} (a : A) (f : A → M A') (m2 : M B)
    (S : A' → B → Prop) :
  sim (f a) m2 S → sim (mret a ≫= f) m2 S.
Proof. intros H w1 w2 Hw. exact (H w1 w2 Hw). Qed.

Lemma sim_ret_bind_r {A B B' : Type} (m1 : M A) (b : B) (f : B → M B')
    (S : A → B' → Prop) :
  sim m1 (f b) S → sim m1 (mret b ≫= f) S.
Proof. intros H w1 w2 Hw. exact (H w1 w2 Hw). Qed.

Lemma related_emit (e1 e2 : event) (w1 w2 : World) :
  view e1 = view e2 → related w1 w2 → related (emit e1 w1).2 (emit e2 w2).2.
Proof.
  intros He (Ht & Hrest). split; [| exact Hrest]. cbn.
  rewrite !omap_app, Ht. cbn. now rewrite He.
Qed.

Lemma sim_emit (e1 e2 : event) : view e1 = view e2 → sim (emit e1) (emit e2) eq.
Proof. intros He w1 w2 Hw. split; [now apply related_emit | reflexivity]. Qed.

Lemma sim_emit_l {A B : Type} (e : event) (m1 : M A) (m2 : M B) (S : A → B → Prop) :
  view e = None → sim m1 m2 S → sim (emit e ≫= λ _, m1) m2 S.
Proof.
  intros He H w1 w2 (Ht & Hrest). apply (H (emit e w1).2 w2).
  split; [| exact Hrest]. cbn. rewrite omap_app, Ht. cbn. rewrite He.
  now rewrite app_nil_r.
Qed.

Lemma sim_set_penv k v : sim (set_penv k v) (set_penv k v) eq.
Proof.
  intros w1 w2 (Ht & Hf & Hp & Hs & Hc). split; [| reflexivity].
  repeat split; cbn; congruence.
Qed.

Lemma sim_get_penv k : sim (get_penv k) (get_penv k) eq.
Proof.
  intros w1 w2 Hw. split; [exact Hw |]. cbn.
  destruct Hw as (_ & _ & -> & _). reflexivity.
Qed.

Lemma sim_set_cleanup b : sim (set_cleanup b) (set_cleanup b) eq.
Proof.
  intros w1 w2 (Ht & Hf & Hp & Hs & Hc). split; [| reflexivity].
  repeat split; cbn; congruence.
Qed.

Lemma sim_get_cleanup : sim get_cleanup get_cleanup eq.
Proof.
  intros w1 w2 Hw. split; [exact Hw |]. cbn.
  destruct Hw as (_ & _ & _ & _ & ->). reflexivity.
Qed.

Lemma present_dom (f1 f2 : gmap string file) (p : string) :
  dom f1 = dom f2 →
  match f1 !! p with Some _ => true | None => false end
  = match f2 !! p with Some _ => true | None => false end.
Proof.
  intros Hd.
  destruct (f1 !! p) eqn:E1, (f2 !! p) eqn:E2; try reflexivity; exfalso.
  - apply not_elem_of_dom in E2. apply E2. rewrite <- Hd.
    apply elem_of_dom. eauto.
  - apply not_elem_of_dom in E1. apply E1. rewrite Hd.
    apply elem_of_dom. eauto.
Qed.

Lemma sim_file_present p : sim (file_present p) (file_present p) eq.
Proof.
  intros w1 w2 Hw. split; [exact Hw |]. cbn.
  destruct Hw as (_ & Hd & _). now apply present_dom.
Qed.

Lemma sim_delete p : sim (set_files (delete p)) (set_files (delete p)) eq.
Proof.
  intros w1 w2 (Ht & Hf & Hp & Hs & Hc). split; [| reflexivity].
  repeat split; cbn; try congruence. now rewrite !dom_delete_L, Hf.
Qed.

Lemma sim_store p (f1 f2 : option file → file) :
  sim (set_files (λ m, <[p := f1 (m !! p)]> m)) (set_files (λ m, <[p := f2 (m !! p)]> m)) eq.
Proof.
  intros w1 w2 (Ht & Hf & Hp & Hs & Hc). split; [| reflexivity].
  repeat split; cbn; try congruence. now rewrite !dom_insert_L, Hf.
Qed.

Lemma sim_for_of {A S1 S2 : Type} (l : list A) (body1 : S1 → A → M S1)
    (body2 : S2 → A → M S2) (R : S1 → S2 → Prop) (s1 : S1) (s2 : S2) :
  (∀ s1 s2 x, R s1 s2 → sim (body1 s1 x) (body2 s2 x) R) → R s1 s2 →
  sim (for_of l body1 s1) (for_of l body2 s2) R.
Proof.
  intros Hb. revert s1 s2. induction l as [|x l IH]; intros s1 s2 Hs; simpl.
  - now apply sim_ret.
  - apply (sim_bind _ _ _ _ R R); [now apply Hb | intros a b Hab; now apply IH].
Qed.

End Sim.

Section SimPrimitives.
Variable view : event → option event.
Variables env1 env2 : Env.
Hypothesis outside : same_outside env1 env2.

Lemma sim_spawn cmd args s1 s2 :
  view (ESpawn cmd args s1) = view (ESpawn cmd args s2) →
  sim view (spawn env1 cmd args s1) (spawn env2 cmd args s2) eq.
Proof.
  destruct outside as (_ & _ & _ & Hproc & _).
  intros He w1 w2 (Ht & Hf & Hp & Hs & Hc). unfold spawn. cbn. split.
  - repeat split; cbn; try congruence.
    rewrite !omap_app, Ht. cbn. now rewrite He.
  - now rewrite Hproc, Hs.
Qed.

Lemma sim_exec_run cmd args opts1 opts2 :
  Exec.ignoreReturnCode opts1 = Exec.ignoreReturnCode opts2 →
  Exec.listeners opts1 = None → Exec.listeners opts2 = None →
  view (ESpawn cmd args (Exec.input opts1)) = view (ESpawn cmd args (Exec.input opts2)) →
  sim view (exec_run env1 cmd args opts1) (exec_run env2 cmd args opts2) eq.
Proof.
  intros Hi Hl1 Hl2 He. unfold exec_run.
  apply sim_bind_eq; [now apply sim_spawn | intros [out | reason]].
  - rewrite Hl1, Hl2, Hi. cbn. unfold skip.
    apply sim_bind_eq; [now apply sim_ret | intros _].
    destruct (Exec.ignoreReturnCode opts2 || (exitCode out =? 0)%Z);
      [now apply sim_ret | apply sim_throw].
  - apply sim_throw.
Qed.

Lemma sim_getInput name required :
  input env1 name = input env2 name →
  sim view (core_getInput env1 name required) (core_getInput env2 name required) eq.
Proof.
  intros Hin. unfold core_getInput. rewrite Hin.
  destruct (required && String.eqb (input env2 name) "");
    [apply sim_throw | now apply sim_ret].
Qed.

Lemma sim_getInput_secret name required :
  String.eqb (input env1 name) "" = String.eqb (input env2 name) "" →
  sim view (core_getInput env1 name required) (core_getInput env2 name required)
    (λ a b, a = input env1 name ∧ b = input env2 name).
Proof.
  intros Hin. unfold core_getInput. rewrite Hin.
  destruct (required && String.eqb (input env2 name) "");
    [apply sim_throw | now apply sim_ret].
Qed.

Lemma sim_readdir_recursive dir :
  view (EReaddir dir true) = view (EReaddir dir true) →
  sim view (fs_readdirSync_recursive env1 dir) (fs_readdirSync_recursive env2 dir) eq.
Proof.
  destruct outside as (_ & _ & Hjoin & _ & Htree & Hstat & _).
  intros _. unfold fs_readdirSync_recursive, no_directory.
  rewrite Hjoin, Htree, Hstat.
  apply sim_bind_eq; [now apply sim_emit | intros _].
  destruct (tree env2 dir); [now apply sim_ret | apply sim_throw].
Qed.

Lemma sim_readdir_withFileTypes dir :
  sim view (fs_readdirSync_withFileTypes env1 dir) (fs_readdirSync_withFileTypes env2 dir) eq.
Proof.
  destruct outside as (_ & _ & Hjoin & _ & Htree & Hstat & _).
  unfold fs_readdirSync_withFileTypes, no_directory. rewrite Htree, Hstat.
  apply sim_bind_eq; [now apply sim_emit | intros _].
  destruct (tree env2 dir); [now apply sim_ret | apply sim_throw].
Qed.

Lemma sim_statSync p : sim view (fs_statSync env1 p) (fs_statSync env2 p) eq.
Proof.
  destruct outside as (_ & _ & _ & _ & _ & Hstat & _).
  unfold fs_statSync. rewrite Hstat.
  destruct (stat env2 p); [now apply sim_ret | apply sim_throw].
Qed.

Lemma sim_writeFile p c1 c2 mode :
  view (EWriteFile p c1 (default 438%N mode)) = view (EWriteFile p c2 (default 438%N mode)) →
  sim view (fs_writeFile env1 p c1 mode) (fs_writeFile env2 p c2 mode) eq.
Proof.
  destruct outside as (_ & _ & _ & _ & _ & _ & Hdenied).
  intros He. unfold fs_writeFile. rewrite Hdenied.
  apply sim_bind_eq; [now apply sim_emit | intros _].
  destruct (denied env2 p); [apply sim_throw |].
  intros w1 w2 (Ht & Hf & Hp & Hs & Hc). split; [| reflexivity].
  repeat split; cbn; try congruence.
  destruct (files w1 !! p), (files w2 !! p); now rewrite !dom_insert_L, Hf.
Qed.

Lemma sim_unlink p : sim view (fs_unlink env1 p) (fs_unlink env2 p) eq.
Proof.
  destruct outside as (_ & _ & _ & _ & _ & _ & Hdenied).
  unfold fs_unlink. rewrite Hdenied.
  apply sim_bind_eq; [now apply sim_emit | intros _].
  apply sim_bind_eq; [apply sim_file_present | intros present].
  destruct (negb present); [apply sim_throw |].
  destruct (denied env2 p); [apply sim_throw | apply sim_delete].
Qed.

End SimPrimitives.

(** One step of a side-by-side proof along the common syntax of two scripts;
    [side] proves that two emitted events have the same view. *)
Ltac sim_leaf lem side :=
  first [ apply lem; side
        | eapply sim_weaken; [apply lem; side | intros; exact Logic.I] ].

Ltac sim_step side :=
  lazymatch goal with
  | |- sim _ (mret _) (mret _) _ => apply sim_ret; first [reflexivity | exact Logic.I]
  | |- sim _ (throw _) (throw _) _ => apply sim_throw
  | |- sim _ (mbind _ (mret _)) _ _ => apply sim_ret_bind_l
  | |- sim _ _ (mbind _ (mret _)) _ => apply sim_ret_bind_r
  | |- sim _ (mbind _ _) (mbind _ _) _ => apply sim_bind_eq; [ | intros ? ]
  | |- sim _ (try_catch _ _) (try_catch _ _) _ => apply sim_try_catch; [ | intros ? ]
  | |- sim _ (try_finally _ _) (try_finally _ _) _ => apply sim_try_finally
  | |- sim _ (emit _) (emit _) _ => sim_leaf sim_emit side
  | |- sim _ (set_penv _ _) (set_penv _ _) _ => sim_leaf sim_set_penv idtac
  | |- sim _ (core_getInput _ _ _) (core_getInput _ _ _) _ =>
      sim_leaf sim_getInput ltac:(assumption || reflexivity)
  | |- sim _ (exec_run _ _ _ _) (exec_run _ _ _ _) _ =>
      sim_leaf sim_exec_run ltac:(first [assumption | reflexivity | side])
  | |- sim _ (fs_readdirSync_recursive _ _) (fs_readdirSync_recursive _ _) _ =>
      sim_leaf sim_readdir_recursive ltac:(first [assumption | reflexivity])
  | |- sim _ (fs_readdirSync_withFileTypes _ _) (fs_readdirSync_withFileTypes _ _) _ =>
      sim_leaf sim_readdir_withFileTypes ltac:(assumption)
  | |- sim _ (fs_statSync _ _) (fs_statSync _ _) _ =>
      sim_leaf sim_statSync ltac:(assumption)
  | |- sim _ (fs_writeFile _ _ _ _) (fs_writeFile _ _ _ _) _ =>
      sim_leaf sim_writeFile ltac:(first [assumption | side])
  | |- sim _ (fs_unlink _ _) (fs_unlink _ _) _ =>
      sim_leaf sim_unlink ltac:(assumption)
  | |- sim _ (if ?b then _ else _) (if ?b then _ else _) _ => destruct b
  | |- sim _ (match ?x with _ => _ end) (match ?x with _ => _ end) _ => destruct x
  | |- sim _ _ _ _ => progress (autounfold with script; cbn)
  end.

Ltac sim_auto side := repeat sim_step side.

Ltac same_view := reflexivity.

Section SimScripts.
Variable view : event → option event.
Variables env1 env2 : Env.
Hypothesis outside : same_outside env1 env2.

Lemma sim_checkAndInstallSshTools :
  sim view (checkAndInstallSshTools env1) (checkAndInstallSshTools env2) eq.
Proof.
  pose proof outside as (Hplatform & _).
  unfold checkAndInstallSshTools. cbn. rewrite Hplatform.
  sim_auto same_view.
Qed.

Lemma sim_getFileCount dir :
  sim view (getFileCount env1 dir) (getFileCount env2 dir) eq.
Proof.
  pose proof outside as (_ & _ & Hjoin & _).
  unfold getFileCount. cbn. rewrite Hjoin.
  apply sim_bind_eq; [sim_auto same_view | intros files].
  apply sim_for_of; [| reflexivity]. intros s1 s2 x <-.
  sim_auto same_view.
Qed.

Lemma sim_startSshAgent (k1 k2 : string) :
  String.eqb k1 "" = String.eqb k2 "" →
  view (ESpawn "ssh-add" ["-"] (Some k1)) = view (ESpawn "ssh-add" ["-"] (Some k2)) →
  sim view (startSshAgent env1 k1) (startSshAgent env2 k2) whatever.
Proof.
  intros Hempty Hview. unfold startSshAgent. cbn. rewrite Hempty.
  sim_auto ltac:(idtac; first [reflexivity | exact Hview]).
Qed.

End SimScripts.

(** ** The key is not echoed (C8, what a run shows of the key) *)

Lemma length_append (a b : string) :
  String.length (a +:+ b) = String.length a + String.length b.
Proof.
  induction a as [|c a IH]; [reflexivity |].
  rewrite append_cons. cbn [String.length]. now rewrite IH.
Qed.

Lemma empty_length (a b : string) :
  String.length a = String.length b → String.eqb a "" = String.eqb b "".
Proof. destruct a, b; simpl; congruence. Qed.

Lemma normalizeKey_nonempty (k : string) : String.eqb (normalizeKey k) "" = false.
Proof.
  pose proof (normalizeKey_ends k) as H. apply endsWith_spec in H as [p Hp].
  rewrite Hp. destruct p; reflexivity.
Qed.

Lemma normalizeKey_length (k1 k2 : string) :
  String.length k1 = String.length k2 → endsWith k1 LF = endsWith k2 LF →
  String.length (normalizeKey k1) = String.length (normalizeKey k2).
Proof.
  intros Hlen Hends. unfold normalizeKey. rewrite Hends.
  destruct (endsWith k2 LF); cbn [negb]; [exact Hlen |].
  now rewrite !length_append, Hlen.
Qed.

Lemma configuration_message_length pad host username port sourceDir remoteDir k1 k2 :
  String.length k1 = String.length k2 →
  configuration_message pad host username port sourceDir remoteDir k1
  = configuration_message pad host username port sourceDir remoteDir k2.
Proof. intros H. unfold configuration_message. now rewrite H. Qed.

Ltac sim_walk_step side :=
  lazymatch goal with
  | |- sim _ (mbind _ (checkAndInstallSshTools _)) (mbind _ (checkAndInstallSshTools _)) _ =>
      apply sim_bind_eq; [apply sim_checkAndInstallSshTools; assumption | intros ?]
  | |- sim _ (mbind _ (getFileCount _ _)) (mbind _ (getFileCount _ _)) _ =>
      apply sim_bind_eq; [apply sim_getFileCount; assumption | intros ?]
  | |- sim _ (mbind _ (startSshAgent _ _)) (mbind _ (startSshAgent _ _)) _ =>
      eapply sim_bind;
      [apply sim_startSshAgent; [assumption | side ..] | intros ? ? _]
  | |- sim _ (mbind _ (core_getInput _ "private_key" _)) _ _ => fail
  | |- sim _ (mbind _ (if negb (endsWith _ LF) then _ else _)) _ _ => fail
  | |- sim _ (mbind _ (mret _)) _ _ => apply sim_ret_bind_l
  | |- sim _ _ (mbind _ (mret _)) _ => apply sim_ret_bind_r
  | |- sim _ (mbind _ _) (mbind _ _) _ =>
      apply sim_bind_eq; [solve [sim_auto side] | intros ?]
  | |- sim _ (try_catch _ _) (try_catch _ _) _ =>
      apply sim_try_catch; [ | intros ?; solve [sim_auto side]]
  end.

Ltac sim_walk side := repeat sim_walk_step side.

Lemma deploy_hides_key (env1 env2 : Env) :
  same_outside env1 env2 → same_public_inputs env1 env2 →
  String.length (input env1 "private_key") = String.length (input env2 "private_key") →
  endsWith (input env1 "private_key") LF = endsWith (input env2 "private_key") LF →
  sim public (deploy env1) (deploy env2) eq.
Proof.
  intros Hout (Hhost & Huser & Hport & Hsource & Hremote) Hlen Hends.
  pose proof Hout as (_ & Htmp & Hjoin & _).
  pose proof (normalizeKey_length _ _ Hlen Hends) as Hlen'.
  assert (String.eqb (normalizeKey (input env1 "private_key")) ""
          = String.eqb (normalizeKey (input env2 "private_key")) "") as Hne
    by now rewrite !normalizeKey_nonempty.
  unfold deploy. cbn. rewrite Htmp, Hjoin, Hport.
  sim_walk same_view.
  eapply sim_bind; [apply sim_getInput_secret; now apply empty_length |].
  intros ? ? [-> ->]. rewrite Hends.
  apply sim_bind with
    (S := λ a b, a = normalizeKey (input env1 "private_key")
                 ∧ b = normalizeKey (input env2 "private_key")).
  { unfold normalizeKey. rewrite Hends.
    destruct (endsWith (input env2 "private_key") LF); cbn [negb].
    - now apply sim_ret.
    - apply sim_bind_eq; [sim_auto same_view | intros _; now apply sim_ret]. }
  intros ? ? [-> ->].
  sim_walk ltac:(idtac;
                 first [ reflexivity
                       | rewrite (configuration_message_length _ _ _ _ _ _ _ _ Hlen');
                         reflexivity
                       | exact Hne ]).
  sim_auto same_view.
Qed.

Lemma rel_outcome_eq {A : Type} (r1 r2 : outcome A) : rel_outcome eq r1 r2 → r1 = r2.
Proof. destruct r1, r2; simpl; intros H; congruence || contradiction. Qed.

Lemma related_initial (view : event → option event) fs0 pe :
  related view (initial fs0 pe) (initial fs0 pe).
Proof. repeat split. Qed.

(** C8: in every run of [deploy] the normalized key is registered as a
    secret before any event that could echo it (a process fed the key, the
    identity file, the log line computed from the key); and nothing a run
    shows besides the key itself, log lines and the thrown error included,
    depends on the key beyond its length and its final newline. *)
Theorem secret_registered_first_and_key_hidden :
  (∀ env fs0 pe,
     Forall (λ e, uses_key e = false) (trace (deploy env (initial fs0 pe)).2)
     ∨ ∃ l1 l2,
         trace (deploy env (initial fs0 pe)).2
         = l1 ++ ESetSecret (normalizeKey (input env "private_key")) :: l2
         ∧ Forall (λ e, uses_key e = false) l1)
  ∧ (∀ env1 env2 fs0 pe,
       same_outside env1 env2 → same_public_inputs env1 env2 →
       String.length (input env1 "private_key")
       = String.length (input env2 "private_key") →
       endsWith (input env1 "private_key") LF = endsWith (input env2 "private_key") LF →
       omap public (trace (deploy env1 (initial fs0 pe)).2)
       = omap public (trace (deploy env2 (initial fs0 pe)).2)
       ∧ (deploy env1 (initial fs0 pe)).1 = (deploy env2 (initial fs0 pe)).1).
Proof.
  split.
  - intros env fs0 pe.
    destruct (deploy_registers_secret_first env (initial fs0 pe) (inv_initial _ _ _))
      as [H | (l1 & l2 & H & H1 & _)]; [now left | right; eauto].
  - intros env1 env2 fs0 pe Hout Hin Hlen Hends.
    destruct (deploy_hides_key env1 env2 Hout Hin Hlen Hends
                (initial fs0 pe) (initial fs0 pe) (related_initial _ _ _))
      as [(Ht & _) Hr].
    split; [exact Ht | now apply rel_outcome_eq].
Qed.

Lemma secret_registered_first_and_key_hidden_witness :
  omap public
    (trace (deploy (scenario "test-key" (Some two_files) (exits 0 "" "")) (initial ∅ ∅)).2)
  = omap public
      (trace (deploy (scenario "best-key" (Some two_files) (exits 0 "" "")) (initial ∅ ∅)).2)
  ∧ (deploy (scenario "test-key" (Some two_files) (exits 0 "" "")) (initial ∅ ∅)).1
    = (deploy (scenario "best-key" (Some two_files) (exits 0 "" "")) (initial ∅ ∅)).1.
Proof.
  apply (proj2 secret_registered_first_and_key_hidden).
  - repeat split.
  - repeat split.
  - reflexivity.
  - reflexivity.
Defined.

Lemma startSshAgent_accepted (env : Env) (k : string) (w : World) (stop : M unit) :
  (startSshAgent env k w).1 = Return stop →
  (∃ n out, proc env n "ssh-agent" ["-s"] = Exited out ∧ exitCode out = 0%Z)
  ∧ (∃ n out, proc env n "ssh-add" ["-"] = Exited out ∧ exitCode out = 0%Z).
Proof.
  unfold startSshAgent, try_finally, try_catch, mbind, M_bind. cbn.
  destruct (String.eqb k ""); cbn; [discriminate |].
  unfold exec_run, spawn, mbind, M_bind. cbn.
  destruct (proc env (spawned w) "ssh-agent" ["-s"]) as [started | reason] eqn:P1; cbn;
    [| discriminate].
  destruct (Z.eqb_spec (exitCode started) 0) as [E1 | E1]; cbn; [| discriminate].
  destruct (String.eqb (stdout started) ""); cbn; [discriminate |].
  destruct (match_capture "SSH_AUTH_SOCK=" (stdout started)) as [sock|]; cbn;
    [| discriminate].
  destruct (match_capture "SSH_AGENT_PID=" (stdout started)) as [pid|]; cbn;
    [| discriminate].
  destruct (proc env (S (spawned w)) "ssh-add" ["-"]) as [added | reason] eqn:P2; cbn;
    [| discriminate].
  destruct (Z.eqb_spec (exitCode added) 0) as [E2 | E2]; cbn; [| discriminate].
  intros _. split; eauto.
Qed.

Lemma fs_writeFile_accepted (env : Env) (p c : string) (mode : option N) (w : World) :
  (fs_writeFile env p c mode w).1 = Return () → denied env p = false.
Proof.
  unfold fs_writeFile, mbind, M_bind. cbn.
  destruct (denied env p); [discriminate | reflexivity].
Qed.

(** A fact that holds whenever a statement returns. *)
Lemma triple_returns {A : Type} (I : World → Prop) (m : M A) (F : Prop) :
  keeps I m anything → (∀ w a, (m w).1 = Return a → F) →
  triple I m (λ r w, I w ∧ match r with Return _ => F | Throw _ => True end).
Proof.
  intros Hk HF w Hw. destruct (Hk w Hw) as [HI _]. split; [exact HI |].
  specialize (HF w). destruct (m w).1; [now apply (HF a) | exact Logic.I].
Qed.

Lemma triple_assume {A : Type} (I : World → Prop) (F : Prop) (m : M A)
    (J : outcome A → World → Prop) :
  (F → triple I m J) → triple (λ w, I w ∧ F) m J.
Proof. intros H w [Hw HF]. exact (H HF w Hw). Qed.

Lemma deploy_credentials_accepted (env : Env) :
  triple (always (λ e, is_transfer e = false)) (deploy env)
    (λ _ w, always (λ e, is_transfer e = false) w ∨ credentials_accepted env).
Proof.
  pose proof (always_stable (λ e, is_transfer e = false)) as Hs.
  assert (stable (λ w, always (λ e, is_transfer e = false) w ∨ credentials_accepted env))
    as Hg.
  { intros w w' E [H | H]; [left | now right]. now apply (Hs w). }
  assert (∀ e, is_transfer e = false →
               allows (λ w, always (λ e, is_transfer e = false) w
                            ∨ credentials_accepted env) e) as Ha.
  { intros e He w w' E [H | H]; [left | now right].
    now apply (always_allows _ e He w). }
  unfold deploy. cbn.
  apply triple_skip;
    [solve [keeps_auto never_transfer_side] | intros e w Hw; now left | intros _].
  apply triple_try_catch with
    (K := λ _ w, always (λ e, is_transfer e = false) w ∨ credentials_accepted env).
  - triple_walk never_transfer_side ltac:(intros e w Hw; now left)
      ltac:(idtac;
            lazymatch goal with
            | |- triple _ (mbind _ (startSshAgent _ _)) _ => idtac
            end).
    eapply triple_bind;
      [apply triple_returns with
         (F := (∃ n out, proc env n "ssh-agent" ["-s"] = Exited out ∧ exitCode out = 0%Z)
               ∧ (∃ n out, proc env n "ssh-add" ["-"] = Exited out ∧ exitCode out = 0%Z));
       [solve [keeps_auto never_transfer_side]
       | intros w stop; apply startSshAgent_accepted]
      | | intros e w [Hw _]; now left].
    intros agentInfo. apply triple_assume. intros [Hagent Hadd].
    triple_walk never_transfer_side ltac:(intros e w Hw; now left)
      ltac:(idtac;
            lazymatch goal with
            | |- triple _ (mbind _ (fs_writeFile _ _ _ (Some _))) _ => idtac
            end).
    eapply triple_bind;
      [apply triple_returns with
         (F := denied env (path_join env (os_tmpdir env) "deploy_identity") = false);
       [solve [keeps_auto never_transfer_side]
       | intros w []; apply fs_writeFile_accepted]
      | | intros e w [Hw _]; now left].
    intros []. apply triple_assume. intros Hwrite.
    intros w _. right. repeat split; assumption.
  - intros a w Hw. exact Hw.
  - intros e. apply keeps_triple; [| intros r w Hw; exact Hw].
    keeps_auto ltac:(apply Ha; reflexivity).
Qed.

(** C7, as the code has it: in every run of [deploy] that starts the
    transfer client, both representations were set up before, in this
    order, and none was released: [ssh-agent -s] was run, then [ssh-add -]
    was fed the normalized key, then the normalized key was written to the
    identity file with mode 0600 requested; both processes exited with
    status 0 and the write was accepted; the command line of the client
    names the identity file.  The requested mode becomes the permission of
    the file when the write creates it; a file that exists keeps its
    permission. *)
Theorem deploy_uses_both_representations (env : Env) (fs0 : gmap string file)
    (pe : gmap string string) :
  (Forall quiet (trace (deploy env (initial fs0 pe)).2)
   ∨ ∃ l1 l2,
       trace (deploy env (initial fs0 pe)).2
       = l1 ++ ESpawn (deploy_sftpCommand env) [] None :: l2
       ∧ Forall quiet l1
       ∧ credentials env `sublist_of` l1
       ∧ credentials_accepted env)
  ∧ (∃ rest,
       deploy_sftpCommand env
       = "sftp -v -o StrictHostKeyChecking=no -o UserKnownHostsFile=/dev/null -i "
         +:+ path_join env (os_tmpdir env) "deploy_identity" +:+ rest)
  ∧ (∀ p c w,
       denied env p = false →
       files (fs_writeFile env p c (Some 384%N) w).2 !! p
       = Some {| data := c;
                 perm := match files w !! p with
                         | Some old => perm old
                         | None => 384%N
                         end |}).
Proof.
  split; [| split].
  - destruct (deploy_credentials_before_transfer env (initial fs0 pe) (inv_initial _ _ _))
      as [H | (l1 & l2 & E & Hq & Hc)]; [now left | right].
    exists l1, l2. repeat split; try assumption;
      destruct (deploy_credentials_accepted env (initial fs0 pe) (always_initial _ _ _))
        as [Hn | (H1 & H2 & H3)]; try assumption;
      exfalso; unfold always in Hn; rewrite E in Hn;
      apply Forall_app in Hn as [_ Hn]; apply Forall_cons in Hn as [Hn _];
      discriminate Hn.
  - eexists. reflexivity.
  - intros p c w Hp. unfold fs_writeFile, mbind, M_bind. cbn. rewrite Hp. cbn.
    destruct (files w !! p) as [old|]; cbn; now rewrite lookup_insert_eq.
Qed.

(** C7 as stated fails: one successful run has the agent session with the
    key loaded and the identity file as well. *)
Lemma both_representations_in_one_run :
  ¬ exactly_one_representation
      (trace (deploy (scenario "test-key" (Some two_files) (exits 0 "" ""))
                (initial ∅ ∅)).2).
Proof.
  assert (agent_session
            (trace (deploy (scenario "test-key" (Some two_files) (exits 0 "" ""))
                      (initial ∅ ∅)).2)) as Ha.
  { exists ("test-key" +:+ LF). apply list_elem_of_In. vm_compute. tauto. }
  assert (identity_file
            (trace (deploy (scenario "test-key" (Some two_files) (exits 0 "" ""))
                      (initial ∅ ∅)).2)) as Hi.
  { exists "/tmp/deploy_identity", ("test-key" +:+ LF).
    apply list_elem_of_In. vm_compute. tauto. }
  intros [[_ Hn] | [_ Hn]]; contradiction.
Qed.

(** ** [deploy] and [deployWithDependencies] (C10) *)

Lemma getInput_supplied (env : Env) (name : string) :
  String.eqb (input env name) "" = false →
  Core.getInput (actions_core env) name true = mret (input env name).
Proof. intros H. cbn. unfold core_getInput. now rewrite H. Qed.

Lemma or_default_supplied (env : Env) (given : option string) (name : string) :
  given = None ∨ given = Some (input env name) →
  String.eqb (input env name) "" = false →
  or_default given (Core.getInput (actions_core env) name true) = mret (input env name).
Proof. intros [-> | ->] H; [now apply getInput_supplied | reflexivity]. Qed.

Lemma or_default_port (env : Env) (given : option string) :
  given = None
  ∨ given = Some (if String.eqb (input env "port") "" then "22" else input env "port") →
  or_default given
    (port ← Core.getInput (actions_core env) "port" false;
     mret (if String.eqb port "" then "22" else port))
  = mret (if String.eqb (input env "port") "" then "22" else input env "port").
Proof. intros [-> | ->]; reflexivity. Qed.

Lemma same_outside_refl (env : Env) : same_outside env env.
Proof. repeat split. Qed.

Lemma sim_note_r {A B B' : Type} (view : event → option event) (e : event) (b : B)
    (f : B → M B') (m1 : M A) (S : A → B' → Prop) :
  view e = None → sim view m1 (f b) S →
  sim view m1 ((emit e ≫= λ _, mret b) ≫= f) S.
Proof.
  intros He H w1 w2 (Ht & Hrest). apply (H w1 (emit e w2).2).
  split; [| exact Hrest]. cbn. rewrite omap_app, <- Ht. cbn. rewrite He.
  now rewrite app_nil_r.
Qed.

(** The two procedures run the same steps on a world seen through a view
    that ignores the log and does not tell the raw key from the normalized
    one. *)
Section Variants.
Variable view : event → option event.
Variables (env : Env) (params : Params).
Hypothesis logs_hidden : ∀ s vs, view (ELog s vs) = None.
Hypothesis same_secret :
  view (ESetSecret (input env "private_key"))
  = view (ESetSecret (normalizeKey (input env "private_key"))).
Hypothesis same_stdin :
  view (ESpawn "ssh-add" ["-"] (Some (input env "private_key")))
  = view (ESpawn "ssh-add" ["-"] (Some (normalizeKey (input env "private_key")))).
Hypothesis same_identity : ∀ p,
  view (EWriteFile p (input env "private_key") 384)
  = view (EWriteFile p (normalizeKey (input env "private_key")) 384).
Hypothesis inputs_supplied : supplied env.
Hypothesis params_agree : agrees env params.

Lemma deploy_variants_related :
  sim view (deployWithDependencies env params no_dependencies) (deploy env) eq.
Proof.
  destruct inputs_supplied as (Hh & Hu & Hs & Hr & Hk).
  destruct params_agree as (Ah & Au & Ap & As & Ar & Ak).
  pose proof (same_outside_refl env) as Hout.
  assert (String.eqb (input env "private_key") ""
          = String.eqb (normalizeKey (input env "private_key")) "") as Hne
    by now rewrite normalizeKey_nonempty.
  unfold deployWithDependencies, deploy.
  rewrite (or_default_supplied env _ "host" Ah Hh),
    (or_default_supplied env _ "username" Au Hu),
    (or_default_port env _ Ap),
    (or_default_supplied env _ "source_dir" As Hs),
    (or_default_supplied env _ "remote_dir" Ar Hr),
    (or_default_supplied env _ "private_key" Ak Hk).
  rewrite !getInput_supplied by assumption.
  cbn.
  change (checkAndInstallSshToolsWithDeps (actions_core env) (actions_exec env) (node_os env))
    with (checkAndInstallSshTools env).
  change (startSshAgentWithDeps (actions_core env) (actions_exec env))
    with (startSshAgent env).
  change (getFileCountWithDeps (node_fs env) (node_path env)) with (getFileCount env).
  pose proof same_secret as Hsecret. pose proof same_stdin as Hstdin.
  pose proof same_identity as Hidentity.
  unfold normalizeKey in Hsecret, Hstdin, Hidentity, Hne.
  sim_walk ltac:(idtac; rewrite !logs_hidden; reflexivity).
  destruct (endsWith (input env "private_key") LF); cbn [negb] in *;
    [| apply sim_note_r; [apply logs_hidden |]];
    sim_walk ltac:(idtac;
                   first [ reflexivity
                         | rewrite !logs_hidden; reflexivity
                         | exact Hsecret | exact Hstdin | apply Hidentity
                         | exact Hne ]);
    sim_auto ltac:(idtac; first [reflexivity | rewrite !logs_hidden; reflexivity]).
Qed.

End Variants.

Lemma keeps_or_default {A : Type} (I : World → Prop) (given : option A) (dflt : M A) :
  keeps I dflt anything → keeps I (or_default given dflt) anything.
Proof. destruct given; cbn; [intros _; now apply keeps_ret | auto]. Qed.

Lemma injected_passes_key_verbatim (env : Env) (params : Params) :
  keeps (always (carries (given_key env params)))
    (deployWithDependencies env params no_dependencies) anything.
Proof.
  pose proof (always_stable (carries (given_key env params))) as Hs.
  unfold deployWithDependencies.
  do 5 (apply keeps_bind_any;
        [apply keeps_or_default; keeps_auto ltac:(carries_side) | intros ?]).
  apply keeps_bind with (P := λ v, v = given_key env params).
  { unfold given_key. destruct (privateKey params) as [k|]; cbn.
    - now apply keeps_ret.
    - apply keeps_getInput. }
  intros ? ->. cbn.
  change (checkAndInstallSshToolsWithDeps (actions_core env) (actions_exec env) (node_os env))
    with (checkAndInstallSshTools env).
  change (startSshAgentWithDeps (actions_core env) (actions_exec env))
    with (startSshAgent env).
  change (getFileCountWithDeps (node_fs env) (node_path env)) with (getFileCount env).
  keeps_walk ltac:(carries_side).
  keeps_auto ltac:(carries_side).
Qed.

Lemma given_key_agrees (env : Env) (params : Params) :
  agrees env params → given_key env params = input env "private_key".
Proof. intros (_ & _ & _ & _ & _ & [E | E]); unfold given_key; now rewrite E. Qed.



(** The run of the test suite: the secret marker, the agent and the
    identity file receive the key as given. *)
Lemma injected_run_hands_over_raw_key :
  let w := (deployWithDependencies (scenario "test-key" (Some two_files) (exits 0 "" ""))
              no_params no_dependencies (initial ∅ ∅)).2 in
  ESetSecret "test-key" ∈ trace w
  ∧ ESpawn "ssh-add" ["-"] (Some "test-key") ∈ trace w
  ∧ EWriteFile "/tmp/deploy_identity" "test-key" 384 ∈ trace w.
Proof.
  cbv zeta. repeat split; apply list_elem_of_In; vm_compute; tauto.
Qed.

(** * Further properties

    The helper procedures, the entry point, the injected variant and the
    two other variants of [deploy] kept under [src/]. *)

(** ** The capture of the agent's variables *)

Lemma prefix_split (key s : string) :
  String.prefix key s = true → s = key +:+ drop_chars (String.length key) s.
Proof.
  revert s. induction key as [|c key IH]; intros s H.
  - destruct s; reflexivity.
  - destruct s as [|d s]; [discriminate H |]. cbn in H.
    destruct (ascii_dec c d) as [-> | ?]; [| discriminate H].
    rewrite append_cons. cbn [String.length drop_chars]. f_equal. now apply IH.
Qed.

Lemma until_semicolon_split (s : string) :
  ∃ b, s = until_semicolon s +:+ b ∧ (b = "" ∨ ∃ b', b = ";" +:+ b').
Proof.
  induction s as [|c s (b & Hs & Hb)]; cbn.
  - exists "". split; [reflexivity | now left].
  - destruct (Ascii.eqb_spec c ";") as [-> | Hc].
    + exists (String ";" s). split; [reflexivity | right; now exists s].
    + exists b. rewrite append_cons. split; [now f_equal | exact Hb].
Qed.

Lemma includes_cons (c : ascii) (s sub : string) :
  includes (String c s) sub = if String.prefix sub (String c s) then true else includes s sub.
Proof. reflexivity. Qed.

Lemma prefix_char (a c : ascii) (s : string) :
  String.prefix (String a "") (String c s) = if ascii_dec a c then true else false.
Proof. cbn [String.prefix]. destruct (ascii_dec a c); [now destruct s | reflexivity]. Qed.

Lemma until_semicolon_clean (s : string) : includes (until_semicolon s) ";" = false.
Proof.
  induction s as [|c s IH]; cbn [until_semicolon]; [reflexivity |].
  destruct (Ascii.eqb_spec c ";") as [-> | Hc]; [reflexivity |].
  rewrite includes_cons, prefix_char.
  destruct (ascii_dec ";" c) as [E | _]; [now subst | exact IH].
Qed.

Lemma until_semicolon_stops (v rest : string) :
  includes v ";" = false → until_semicolon (v +:+ ";" +:+ rest) = v.
Proof.
  induction v as [|c v IH]; intros H; [reflexivity |].
  rewrite append_cons. cbn [until_semicolon].
  rewrite includes_cons, prefix_char in H.
  destruct (ascii_dec ";" c) as [<- | Hc]; [discriminate H |].
  destruct (Ascii.eqb_spec c ";") as [E | _]; [now subst |].
  f_equal. now apply IH.
Qed.

Lemma prefix_append (key s : string) : String.prefix key (key +:+ s) = true.
Proof.
  induction key as [|c key IH]; [now destruct s |].
  rewrite append_cons. cbn. destruct (ascii_dec c c) as [_ | N]; [exact IH | now destruct N].
Qed.

Lemma drop_chars_append (key s : string) : drop_chars (String.length key) (key +:+ s) = s.
Proof. induction key as [|c key IH]; [now destruct s | now rewrite append_cons]. Qed.

(** X1: the capture of a variable from the agent's output (the text after
    the name, up to the next semicolon): when there is a match, the captured
    text contains no semicolon, follows an occurrence of the name and ends
    at a semicolon or at the end of the output; there is no match exactly
    when the name does not occur. *)
Theorem match_capture_spec (key s : string) :
  match match_capture key s with
  | Some v =>
      includes v ";" = false
      ∧ ∃ a b, s = a +:+ key +:+ v +:+ b ∧ (b = "" ∨ ∃ b', b = ";" +:+ b')
  | None => includes s key = false
  end.
Proof.
  induction s as [|c s IH].
  - cbn. destruct key; cbn.
    + split; [reflexivity |]. exists "", "". split; [reflexivity | now left].
    + reflexivity.
  - cbn [match_capture includes].
    destruct (String.prefix key (String c s)) eqn:E.
    + split; [apply until_semicolon_clean |].
      destruct (until_semicolon_split (drop_chars (String.length key) (String c s)))
        as (b & Hs & Hb).
      exists "", b. split; [| exact Hb].
      rewrite append_empty_l, <- Hs. now apply prefix_split.
    + destruct (match_capture key s) as [v|]; [| exact IH].
      destruct IH as (Hv & a & b & -> & Hb). split; [exact Hv |].
      exists (String c a), b. split; [now rewrite append_cons | exact Hb].
Qed.

Lemma match_capture_at (key t : string) :
  match_capture key (key +:+ t) = Some (until_semicolon t).
Proof.
  destruct key as [|c key].
  - rewrite append_empty_l. destruct t; reflexivity.
  - rewrite append_cons. cbn [match_capture].
    rewrite <- append_cons, prefix_append, drop_chars_append. reflexivity.
Qed.

(** X2: Round trip of the capture: from an output that starts with the name,
    a value without semicolon and a semicolon, the capture is that value,
    whatever follows. *)
Theorem match_capture_first (key v rest : string) :
  includes v ";" = false →
  match_capture key (key +:+ v +:+ ";" +:+ rest) = Some v.
Proof.
  intros Hv. rewrite match_capture_at. f_equal. now apply until_semicolon_stops.
Qed.

Lemma match_capture_first_witness :
  match_capture "SSH_AUTH_SOCK="
    ("SSH_AUTH_SOCK=" +:+ "/tmp/agent.1234" +:+ ";" +:+ " export SSH_AUTH_SOCK;")
  = Some "/tmp/agent.1234".
Proof. apply match_capture_first. reflexivity. Defined.

(** ** Components of the world a script leaves alone *)

Section Preserves.
Context {F : Type} (proj : World → F).

Lemma preserves_ret {A : Type} (a : A) : preserves proj (mret a).
Proof. intros w. reflexivity. Qed.

Lemma preserves_throw {A : Type} (e : exn) : preserves proj (throw e : M A).
Proof. intros w. reflexivity. Qed.

Lemma preserves_bind {A B : Type} (m : M A) (f : A → M B) :
  preserves proj m → (∀ a, preserves proj (f a)) → preserves proj (m ≫= f).
Proof.
  intros Hm Hf w. specialize (Hm w). unfold mbind, M_bind.
  destruct (m w) as [[a | e] w']; cbn in *; [| exact Hm].
  now rewrite Hf.
Qed.

Lemma preserves_try_catch {A : Type} (body : M A) (h : exn → M A) :
  preserves proj body → (∀ e, preserves proj (h e)) → preserves proj (try_catch body h).
Proof.
  intros Hb Hh w. specialize (Hb w). unfold try_catch.
  destruct (body w) as [[a | e] w']; cbn in *; [exact Hb |].
  now rewrite Hh.
Qed.

Lemma preserves_try_finally {A : Type} (body : M A) (fin : M unit) :
  preserves proj body → preserves proj fin → preserves proj (try_finally body fin).
Proof.
  intros Hb Hf w. specialize (Hb w). unfold try_finally.
  destruct (body w) as [r w']. specialize (Hf w').
  destruct (fin w') as [[[] | e] w'']; cbn in *; congruence.
Qed.

Lemma preserves_for_of {A S : Type} (l : list A) (body : S → A → M S) (s : S) :
  (∀ s x, preserves proj (body s x)) → preserves proj (for_of l body s).
Proof.
  intros Hb. revert s. induction l as [|x l IH]; intros s; cbn [for_of].
  - apply preserves_ret.
  - apply preserves_bind; [apply Hb | intros s'; apply IH].
Qed.

Lemma preserves_getInput env name required :
  preserves proj (core_getInput env name required).
Proof. intros w. unfold core_getInput. now destruct (required && _). Qed.

Lemma keeps_field {A : Type} (v : F) (m : M A) :
  preserves proj m → keeps (λ w, proj w = v) m anything.
Proof.
  intros Hm w Hw. split; [now rewrite Hm |]. now destruct (m w).1.
Qed.

Lemma keeps_with_field {A : Type} (v : F) (I : World → Prop) (m : M A) (Q : A → Prop) :
  keeps I m Q → preserves proj m → keeps (λ w, proj w = v ∧ I w) m Q.
Proof.
  intros Hm Ht w [Hf Hw]. destruct (Hm w Hw) as [HI HQ].
  split; [split; [now rewrite Ht | exact HI] | exact HQ].
Qed.

End Preserves.

Ltac preserves_step :=
  lazymatch goal with
  | |- preserves _ (mret _) => apply preserves_ret
  | |- preserves _ (throw _) => apply preserves_throw
  | |- preserves _ (mbind _ _) => apply preserves_bind; [ | intros ? ]
  | |- preserves _ (try_catch _ _) => apply preserves_try_catch; [ | intros ? ]
  | |- preserves _ (try_finally _ _) => apply preserves_try_finally
  | |- preserves _ (for_of _ _ _) => apply preserves_for_of; intros ? ?
  | |- preserves _ (core_getInput _ _ _) => apply preserves_getInput
  | |- preserves _ (emit _) => intros ?; reflexivity
  | |- preserves _ (set_files _) => intros ?; reflexivity
  | |- preserves _ (set_penv _ _) => intros ?; reflexivity
  | |- preserves _ (set_cleanup _) => intros ?; reflexivity
  | |- preserves _ (get_penv _) => intros ?; reflexivity
  | |- preserves _ get_cleanup => intros ?; reflexivity
  | |- preserves _ (file_present _) => intros ?; reflexivity
  | |- preserves _ (spawn _ _ _ _) => intros ?; reflexivity
  | |- preserves _ (if ?b then _ else _) => destruct b
  | |- preserves _ (match ?x with _ => _ end) => destruct x
  | |- preserves _ _ => progress (autounfold with script; cbn)
  end.

Ltac preserves_auto := repeat preserves_step.

(** ** [checkAndInstallSshTools] *)

(** X6: When the first probe 'which ssh-add' exits with status 0,
    checkAndInstallSshTools returns after that one process: nothing is
    installed, and the log group is opened and closed. *)
Theorem checkAndInstallSshTools_found (env : Env) (w : World) (out : ExecOutput) :
  proc env (spawned w) "which" ["ssh-add"] = Exited out → exitCode out = 0%Z →
  checkAndInstallSshTools env w
  = (Return (),
     {| trace := trace w ++ [EGroupStart "🔧 Checking SSH tools";
                             ELog core_info_sink [VStr "Checking if ssh-add is available..."];
                             ESpawn "which" ["ssh-add"] None;
                             ELog core_info_sink [VStr "SSH tools are available"];
                             EGroupEnd];
        files := files w; penv := penv w; agent := agent w; spawned := S (spawned w);
        cleanup := cleanup w |}).
Proof.
  intros Hp Hcode.
  unfold checkAndInstallSshTools, try_finally, try_catch, mbind, M_bind. cbn.
  unfold exec_run, spawn, mbind, M_bind. cbn. rewrite Hp. cbn. rewrite Hcode. cbn.
  unfold agent_after, succeeded. rewrite Hcode. cbn.
  rewrite <- !app_assoc. reflexivity.
Qed.

Lemma checkAndInstallSshTools_found_witness :
  (checkAndInstallSshTools (scenario "test-key" (Some two_files) (exits 0 "" ""))
     (initial ∅ ∅)).1 = Return ()
  ∧ spawned (checkAndInstallSshTools (scenario "test-key" (Some two_files) (exits 0 "" ""))
               (initial ∅ ∅)).2 = 1.
Proof.
  rewrite (checkAndInstallSshTools_found
             (scenario "test-key" (Some two_files) (exits 0 "" "")) (initial ∅ ∅)
             {| stdout := ""; stderr := ""; exitCode := 0 |}
             ltac:(vm_compute; reflexivity) eq_refl).
  split; reflexivity.
Defined.

(** X7: checkAndInstallSshTools returns only if one of its probes 'which
    ssh-add' exited with status 0; otherwise it throws (a probe or an
    installation step could not run, or ssh-add is still missing after the
    installation attempt). *)
Theorem checkAndInstallSshTools_returns (env : Env) (w w' : World) :
  checkAndInstallSshTools env w = (Return (), w') →
  ∃ n out, (spawned w ≤ n)%nat ∧ (n < spawned w')%nat
           ∧ proc env n "which" ["ssh-add"] = Exited out ∧ exitCode out = 0%Z.
Proof.
  unfold checkAndInstallSshTools, try_finally, try_catch, mbind, M_bind. cbn.
  unfold exec_run, spawn, mbind, M_bind. cbn.
  destruct (proc env (spawned w) "which" ["ssh-add"]) as [out | reason] eqn:P1; cbn;
    [| discriminate].
  destruct (Z.eqb_spec (exitCode out) 0) as [E1 | E1]; cbn.
  { intros H. injection H as <-. exists (spawned w), out. cbn. repeat split; auto; lia. }
  destruct (String.eqb (os_platform env) "linux"); cbn.
  - unfold exec_run, spawn, mbind, M_bind. cbn.
    destruct (proc env (S (spawned w)) "sudo" ["apt-get"; "update"]) as [o2 | r2]; cbn;
      [| discriminate].
    destruct (Z.eqb (exitCode o2) 0); cbn; [| discriminate].
    destruct (proc env (S (S (spawned w))) "sudo" ["apt-get"; "install"; "-y"; "openssh-client"])
      as [o3 | r3]; cbn; [| discriminate].
    destruct (Z.eqb (exitCode o3) 0); cbn; [| discriminate].
    destruct (proc env (S (S (S (spawned w)))) "which" ["ssh-add"]) as [o4 | r4] eqn:P4; cbn;
      [| discriminate].
    destruct (Z.eqb_spec (exitCode o4) 0) as [E4 | E4]; cbn; [| discriminate].
    intros H. injection H as <-. exists (S (S (S (spawned w)))), o4. cbn.
    repeat split; auto; lia.
  - destruct (String.eqb (os_platform env) "darwin"); cbn;
      [| destruct (String.eqb (os_platform env) "win32"); cbn];
      unfold exec_run, spawn, mbind, M_bind; cbn;
      (destruct (proc env (S (spawned w)) "which" ["ssh-add"]) as [o4 | r4] eqn:P4; cbn;
       [| discriminate]);
      (destruct (Z.eqb_spec (exitCode o4) 0) as [E4 | E4]; cbn; [| discriminate]);
      intros H; injection H as <-; exists (S (spawned w)), o4; cbn;
      repeat split; auto; lia.
Qed.

Lemma checkAndInstallSshTools_returns_witness :
  ∃ n out,
    (spawned (initial ∅ ∅) ≤ n)%nat
    ∧ (n < spawned (checkAndInstallSshTools
                      (scenario "test-key" (Some two_files) (exits 0 "" ""))
                      (initial ∅ ∅)).2)%nat
    ∧ proc (scenario "test-key" (Some two_files) (exits 0 "" "")) n "which" ["ssh-add"]
      = Exited out
    ∧ exitCode out = 0%Z.
Proof.
  apply (checkAndInstallSshTools_returns
           (scenario "test-key" (Some two_files) (exits 0 "" "")) (initial ∅ ∅)).
  vm_compute. reflexivity.
Defined.

(** X8: On a platform other than linux, checkAndInstallSshTools starts no
    process besides the probe 'which ssh-add': it never runs sudo apt-get.
    *)
Theorem checkAndInstallSshTools_installs_on_linux_only (env : Env) (w : World) :
  os_platform env ≠ "linux" →
  Forall only_probes (trace w) →
  Forall only_probes (trace (checkAndInstallSshTools env w).2).
Proof.
  intros Hp Hw.
  assert (keeps (always only_probes) (checkAndInstallSshTools env) anything) as H.
  { pose proof (always_stable only_probes) as Hs.
    unfold checkAndInstallSshTools. cbn.
    apply String.eqb_neq in Hp. rewrite Hp.
    keeps_auto ltac:(apply always_allows; cbn; auto). }
  exact (proj1 (H w Hw)).
Qed.

Lemma checkAndInstallSshTools_installs_on_linux_only_witness :
  Forall only_probes
    (trace (checkAndInstallSshTools
              (on_platform "darwin" (scenario "test-key" (Some two_files) (exits 0 "" "")))
              (initial ∅ ∅)).2).
Proof.
  apply checkAndInstallSshTools_installs_on_linux_only; [discriminate | constructor].
Defined.

(** ** [startSshAgent] *)

(** X3: startSshAgent with an empty key throws 'Private key is required'
    without starting any process: process.env, the agent and the files are
    unchanged, the failure is logged and the log group is closed. *)
Theorem startSshAgent_empty_key (env : Env) (w : World) :
  startSshAgent env "" w
  = (Throw (Error "Private key is required"),
     {| trace := trace w ++ [EGroupStart "🔐 Setting up SSH Agent";
                             ELog core_error_sink [VStr "Failed to setup SSH agent"];
                             ELog core_error_sink [VErr (Error "Private key is required")];
                             EGroupEnd];
        files := files w; penv := penv w; agent := agent w; spawned := spawned w;
        cleanup := cleanup w |}).
Proof.
  unfold startSshAgent, try_finally, try_catch, mbind, M_bind. cbn.
  rewrite <- !app_assoc. reflexivity.
Qed.

(** X4: startSshAgent returns only if the key is not empty, ssh-agent -s
    exited with status 0 and printed both assignments, and ssh-add - exited
    with status 0; then process.env holds the two captured values, the agent
    holds exactly the key, two processes were started, no file was touched,
    and the result is the function that stops the agent. *)
Theorem startSshAgent_returns (env : Env) (k : string) (w : World) (stop : M unit) (w' : World) :
  startSshAgent env k w = (Return stop, w') →
  k ≠ ""
  ∧ ∃ started added sock pid,
      proc env (spawned w) "ssh-agent" ["-s"] = Exited started
      ∧ exitCode started = 0%Z
      ∧ match_capture "SSH_AUTH_SOCK=" (stdout started) = Some sock
      ∧ match_capture "SSH_AGENT_PID=" (stdout started) = Some pid
      ∧ proc env (S (spawned w)) "ssh-add" ["-"] = Exited added
      ∧ exitCode added = 0%Z
      ∧ penv w' = <["SSH_AGENT_PID" := pid]> (<["SSH_AUTH_SOCK" := sock]> (penv w))
      ∧ agent w' = Some [k]
      ∧ spawned w' = S (S (spawned w))
      ∧ files w' = files w
      ∧ stop = terminate_agent env.
Proof.
  unfold startSshAgent, try_finally, try_catch, mbind, M_bind. cbn.
  destruct (String.eqb_spec k "") as [-> | Hk]; cbn; [discriminate |].
  unfold exec_run, spawn, mbind, M_bind. cbn.
  destruct (proc env (spawned w) "ssh-agent" ["-s"]) as [started | reason] eqn:P1; cbn;
    [| discriminate].
  destruct (Z.eqb_spec (exitCode started) 0) as [E1 | E1]; cbn; [| discriminate].
  destruct (String.eqb (stdout started) ""); cbn; [discriminate |].
  destruct (match_capture "SSH_AUTH_SOCK=" (stdout started)) as [sock|] eqn:M1; cbn;
    [| discriminate].
  destruct (match_capture "SSH_AGENT_PID=" (stdout started)) as [pid|] eqn:M2; cbn;
    [| discriminate].
  destruct (proc env (S (spawned w)) "ssh-add" ["-"]) as [added | reason] eqn:P2; cbn;
    [| discriminate].
  destruct (Z.eqb_spec (exitCode added) 0) as [E2 | E2]; cbn; [| discriminate].
  intros H. injection H as <- <-. split; [exact Hk |].
  exists started, added, sock, pid. cbn.
  unfold agent_after, succeeded. rewrite E1, E2. cbn.
  repeat split; assumption || reflexivity.
Qed.

Lemma startSshAgent_returns_witness :
  penv (startSshAgent (scenario "test-key" (Some two_files) (exits 0 "" "")) "test-key"
          (initial ∅ ∅)).2
  = <["SSH_AGENT_PID" := "1234"]> (<["SSH_AUTH_SOCK" := "/tmp/agent.1234"]> ∅)
  ∧ agent (startSshAgent (scenario "test-key" (Some two_files) (exits 0 "" "")) "test-key"
             (initial ∅ ∅)).2
    = Some ["test-key"].
Proof.
  destruct (startSshAgent_returns
              (scenario "test-key" (Some two_files) (exits 0 "" "")) "test-key"
              (initial ∅ ∅)
              (terminate_agent (scenario "test-key" (Some two_files) (exits 0 "" "")))
              (startSshAgent (scenario "test-key" (Some two_files) (exits 0 "" ""))
                 "test-key" (initial ∅ ∅)).2 ltac:(vm_compute; reflexivity))
    as (_ & started & added & sock & pid & P1 & _ & M1 & M2 & _ & _ & Hpenv & Hagent & _).
  vm_compute in P1. injection P1 as <-.
  vm_compute in M1. injection M1 as <-.
  vm_compute in M2. injection M2 as <-.
  split; [exact Hpenv | exact Hagent].
Defined.

(** X5: Once ssh-agent -s has succeeded, an agent is running when
    startSshAgent ends, also when it throws (empty output, output that
    cannot be parsed, ssh-add failing): startSshAgent never stops the agent
    it started, and on failure the caller gets no function to stop it. *)
Theorem startSshAgent_leaves_agent (env : Env) (k : string) (w : World) (started : ExecOutput) :
  k ≠ "" →
  proc env (spawned w) "ssh-agent" ["-s"] = Exited started → exitCode started = 0%Z →
  ∃ keys, agent (startSshAgent env k w).2 = Some keys.
Proof.
  intros Hk P1 E1.
  unfold startSshAgent, try_finally, try_catch, mbind, M_bind. cbn.
  destruct (String.eqb_spec k "") as [-> | _]; [now destruct Hk |]. cbn.
  unfold exec_run, spawn, mbind, M_bind. cbn. rewrite P1. cbn. rewrite E1. cbn.
  unfold agent_after at 1, succeeded at 1. rewrite E1. cbn.
  destruct (String.eqb (stdout started) ""); cbn; [now eexists |].
  destruct (match_capture "SSH_AUTH_SOCK=" (stdout started)); cbn; [| now eexists].
  destruct (match_capture "SSH_AGENT_PID=" (stdout started)); cbn; [| now eexists].
  unfold agent_after, succeeded.
  destruct (proc env (S (spawned w)) "ssh-add" ["-"]) as [added | reason]; cbn;
    [| now eexists].
  destruct (Z.eqb (exitCode added) 0); cbn; now eexists.
Qed.

Lemma startSshAgent_leaves_agent_witness :
  ∃ keys,
    agent (startSshAgent (scenario "test-key" (Some two_files) (exits 0 "" "")) "test-key"
             (initial ∅ ∅)).2
    = Some keys.
Proof.
  apply (startSshAgent_leaves_agent
           (scenario "test-key" (Some two_files) (exits 0 "" "")) "test-key" (initial ∅ ∅)
           {| stdout := agent_output; stderr := ""; exitCode := 0 |});
    [discriminate | vm_compute; reflexivity | reflexivity].
Defined.

(** ** [getFileCount] *)

(** The listing reads every level of the tree: more fuel changes nothing. *)
Lemma read_queue_nil (fuel : nat) (join : string → string → string) :
  read_queue fuel join [] = [].
Proof. induction fuel as [|fuel IH]; [reflexivity |]. cbn. exact IH. Qed.

Lemma subdirectories_levels (join : string → string → string) (d : queued) (fuel : nat) :
  (levels_below d.2 < S fuel)%nat →
  Forall (λ d', (levels_below d'.2 < fuel)%nat) (subdirectories join d).
Proof.
  destruct d as [rel t]. unfold subdirectories. cbn [fst snd].
  induction t as [|n t IH]; intros H; [constructor |].
  cbn [flat_map]. apply Forall_app. split.
  - destruct n as [name | name children | name]; try constructor; [| constructor].
    cbn [snd]. unfold levels_below in H |- *. cbn in H. lia.
  - apply IH. unfold levels_below in H |- *. cbn in H. lia.
Qed.

Lemma read_queue_enough (join : string → string → string) (fuel extra : nat)
    (queue : list queued) :
  Forall (λ d, (levels_below d.2 < fuel)%nat) queue →
  read_queue (fuel + extra) join queue = read_queue fuel join queue.
Proof.
  revert queue. induction fuel as [|fuel IH]; intros queue H.
  - destruct queue as [|d queue]; [apply read_queue_nil |].
    apply Forall_inv in H. lia.
  - cbn [Nat.add read_queue]. f_equal. apply IH.
    induction H as [|d queue Hd _ IHq]; [constructor |].
    cbn [flat_map]. apply Forall_app. split; [| exact IHq].
    now apply subdirectories_levels.
Qed.

Lemma walk_all_enough (join : string → string → string) (t : list node) (extra : nat) :
  read_queue (S (levels_below t) + extra) join [(λ x, x, t)] = walk_all join t.
Proof. apply read_queue_enough. constructor; [cbn [snd]; lia | constructor]. Qed.

Lemma getFileCount_loop (env : Env) (dir : string) (entries : list string) (count : nat)
    (w : World) :
  for_of entries
    (λ count file,
       stats ← fs_statSync env (path_join env dir file);
       mret (if isFile stats then S count else count))
    count w
  = (count_regular env dir entries count, w).
Proof.
  revert count. induction entries as [|file rest IH]; intros count; [reflexivity |].
  cbn [for_of count_regular]. unfold mbind, M_bind, fs_statSync at 1.
  destruct (stat env (path_join env dir file)) as [k|]; [| reflexivity].
  cbn. apply IH.
Qed.

Lemma getFileCount_run (env : Env) (dir : string) (w : World) :
  getFileCount env dir w
  = match tree env dir with
    | Some t =>
        (count_regular env dir (walk_all (path_join env) t).*1 0,
         (emit (EReaddir dir true) w).2)
    | None => (Throw (no_directory env "scandir" dir), (emit (EReaddir dir true) w).2)
    end.
Proof.
  unfold getFileCount. cbn. unfold fs_readdirSync_recursive, mbind, M_bind. cbn.
  destruct (tree env dir) as [t|]; [| reflexivity].
  cbn. apply getFileCount_loop.
Qed.

Lemma count_regular_all (env : Env) (dir : string) (entries : list string) (count : nat) :
  (∀ file, file ∈ entries → is_Some (stat env (path_join env dir file))) →
  count_regular env dir entries count
  = Return (count + length (filter (λ file, from_option isFile false
                                              (stat env (path_join env dir file)) = true)
                              entries)).
Proof.
  revert count. induction entries as [|file rest IH]; intros count H; cbn [count_regular].
  - cbn. f_equal. lia.
  - destruct (H file) as [k E]; [now left |]. rewrite E, filter_cons, E.
    rewrite IH by (intros f Hf; apply H; now right).
    f_equal. destruct k; cbn [isFile from_option].
    + rewrite decide_True by reflexivity. cbn. lia.
    + rewrite decide_False by discriminate. lia.
    + rewrite decide_False by discriminate. lia.
Qed.

Lemma count_regular_missing (env : Env) (dir : string) (before after : list string)
    (file : string) (count : nat) :
  (∀ f, f ∈ before → is_Some (stat env (path_join env dir f))) →
  stat env (path_join env dir file) = None →
  count_regular env dir (before ++ file :: after) count
  = Throw (FsError "ENOENT" "no such file or directory, stat" (path_join env dir file)).
Proof.
  revert count. induction before as [|f rest IH]; intros count H Hfile; cbn [count_regular app].
  - now rewrite Hfile.
  - destruct (H f) as [k E]; [now left |]. rewrite E.
    apply IH; [| exact Hfile]. intros g Hg. apply H. now right.
Qed.

(** X9: When the directory can be listed and every listed entry can be
    examined, getFileCount returns the number of entries of the recursive
    listing, at any depth, that statSync reports as regular files; it reads
    the directory once and changes nothing else. *)
Theorem getFileCount_counts (env : Env) (dir : string) (t : list node) (w : World) :
  tree env dir = Some t →
  (∀ file, file ∈ (walk_all (path_join env) t).*1 →
           is_Some (stat env (path_join env dir file))) →
  getFileCount env dir w
  = (Return (length (filter (λ file, from_option isFile false
                                       (stat env (path_join env dir file)) = true)
                       (walk_all (path_join env) t).*1)),
     (emit (EReaddir dir true) w).2).
Proof.
  intros Ht Hstat. rewrite getFileCount_run, Ht. now rewrite count_regular_all.
Qed.

Lemma getFileCount_counts_witness :
  getFileCount (scenario "test-key" (Some nested_files) (exits 0 "" "")) "./dist"
    (initial ∅ ∅)
  = (Return 2, (emit (EReaddir "./dist" true) (initial ∅ ∅)).2).
Proof.
  apply (getFileCount_counts (scenario "test-key" (Some nested_files) (exits 0 "" ""))
           "./dist" nested_files (initial ∅ ∅)).
  - vm_compute. reflexivity.
  - intros file Hf. apply list_elem_of_In in Hf. vm_compute in Hf.
    repeat (destruct Hf as [<- | Hf]; [vm_compute; eauto |]). destruct Hf.
Defined.

(** X10: getFileCount throws when the directory cannot be listed (ENOENT or
    ENOTDIR from readdirSync), and when a listed entry cannot be examined by
    statSync: then the error is that of the first such entry in the order
    of the listing (the entries of a directory before those of its
    subdirectories) and no count is returned. *)
Theorem getFileCount_fails (env : Env) (dir : string) (w : World) :
  (tree env dir = None →
   getFileCount env dir w
   = (Throw (no_directory env "scandir" dir), (emit (EReaddir dir true) w).2))
  ∧ (∀ t before after file,
       tree env dir = Some t →
       (walk_all (path_join env) t).*1 = before ++ file :: after →
       (∀ f, f ∈ before → is_Some (stat env (path_join env dir f))) →
       stat env (path_join env dir file) = None →
       getFileCount env dir w
       = (Throw (FsError "ENOENT" "no such file or directory, stat"
                   (path_join env dir file)),
          (emit (EReaddir dir true) w).2)).
Proof.
  split.
  - intros Ht. now rewrite getFileCount_run, Ht.
  - intros t before after file Ht Hl Hb Hf.
    rewrite getFileCount_run, Ht, Hl. now rewrite count_regular_missing.
Qed.

Lemma getFileCount_fails_witness :
  getFileCount entries_removed "./dist" (initial ∅ ∅)
  = (Throw (FsError "ENOENT" "no such file or directory, stat" "./dist/gone2"),
     (emit (EReaddir "./dist" true) (initial ∅ ∅)).2).
Proof.
  apply (proj2 (getFileCount_fails entries_removed "./dist" (initial ∅ ∅))
           [Dir "d1" [File "gone1"]; File "gone2"] ["d1"] ["d1/gone1"] "gone2").
  - reflexivity.
  - vm_compute. reflexivity.
  - intros f Hf. apply list_elem_of_In in Hf. vm_compute in Hf.
    destruct Hf as [<- | []]. vm_compute. eauto.
  - reflexivity.
Defined.

(** ** [deploy]: validation, success, failure and cleanup *)

Lemma holds_stable (F : Prop) : stable (holds F).
Proof. intros w w' _ H. exact H. Qed.

Lemma holds_allows (F : Prop) (e : event) : allows (holds F) e.
Proof. intros w w' _ H. exact H. Qed.

Lemma exec_run_returns (env : Env) (cmd : string) (args : list string) (w : World)
    (out : ExecOutput) :
  (exec_run env cmd args no_options w).1 = Return out →
  proc env (spawned w) cmd args = Exited out ∧ exitCode out = 0%Z.
Proof.
  unfold exec_run, spawn, mbind, M_bind. cbn.
  destruct (proc env (spawned w) cmd args) as [o | reason]; cbn; [| discriminate].
  destruct (Z.eqb_spec (exitCode o) 0) as [E | E]; cbn; [| discriminate].
  intros H. injection H as <-. now split.
Qed.

Ltac holds_side := apply holds_allows.

Lemma deploy_returns (env : Env) :
  triple (holds True) (deploy env)
    (λ r _, ∀ b, r = Return b → b = true ∧ transferred env).
Proof.
  pose proof (holds_stable True) as Hs.
  pose proof (holds_stable (transferred env)) as Hs'.
  unfold deploy. cbn.
  apply triple_skip;
    [solve [keeps_auto holds_side] | intros e w _ b H; discriminate H | intros _].
  apply triple_try_catch with (K := λ r _, ∀ b, r = Return b → b = true ∧ transferred env).
  - repeat triple_walk_step holds_side ltac:(intros e w _ b H; discriminate H).
    fold (deploy_sftpCommand env).
    apply triple_bind with
      (K := λ r w, match r with Return _ => holds (transferred env) w | Throw _ => True end).
    + apply triple_try_catch with
        (K := λ r w, match r with Return _ => holds (transferred env) w | Throw _ => True end).
      * apply triple_bind with
          (K := λ r w, match r with
                       | Return _ => holds (transferred env) w
                       | Throw _ => True
                       end).
        -- intros w _. destruct (exec_run env (deploy_sftpCommand env) [] no_options w)
             as [[out | e] w'] eqn:E; cbn; [| exact Logic.I].
           destruct (exec_run_returns env (deploy_sftpCommand env) [] w out) as [Hp Hc];
             [now rewrite E |].
           now exists (spawned w), out.
        -- intros result. apply keeps_triple; [keeps_auto holds_side |].
           intros [? | ?] w0 H; [exact H | exact Logic.I].
        -- intros e w _. exact Logic.I.
      * intros ? w0 H. exact H.
      * intros e. apply keeps_never_triple; [keeps_auto holds_side | intros; exact Logic.I].
    + intros _.
      repeat triple_walk_step holds_side ltac:(intros e w _ b H; discriminate H).
      apply triple_ret. intros w H b Hb. injection Hb as <-. now split.
    + intros e w _ b H. discriminate H.
  - intros ? w0 H. exact H.
  - intros e. apply keeps_never_triple;
      [keeps_auto holds_side | intros e' w _ b H; discriminate H].
Qed.

(** X12: deploy returns only true, and only if the sftp client was run with
    the command line built from the inputs and exited with status 0. *)
Theorem deploy_success_means_transferred (env : Env) (w : World) (b : bool) :
  (deploy env w).1 = Return b →
  b = true
  ∧ ∃ n out, proc env n (deploy_sftpCommand env) [] = Exited out ∧ exitCode out = 0%Z.
Proof. intros H. exact (deploy_returns env w Logic.I b H). Qed.

Lemma deploy_success_means_transferred_witness :
  true = true
  ∧ ∃ n out,
      proc (scenario "test-key" (Some two_files) (exits 0 "" "")) n
        (deploy_sftpCommand (scenario "test-key" (Some two_files) (exits 0 "" ""))) []
      = Exited out
      ∧ exitCode out = 0%Z.
Proof.
  apply (deploy_success_means_transferred
           (scenario "test-key" (Some two_files) (exits 0 "" "")) (initial ∅ ∅) true).
  vm_compute. reflexivity.
Defined.

(** [try { body } catch (error) { log; log; throw error }]: a failure is
    logged, with its stack, and handed on unchanged. *)
Lemma rethrown_after_log {A : Type} (body : M A) (e1 e2 : exn → event) (w : World) (e : exn) :
  (try_catch body (λ error, emit (e1 error) ≫= λ _, emit (e2 error) ≫= λ _, throw error) w).1
  = Throw e →
  ∃ l, trace (try_catch body
                (λ error, emit (e1 error) ≫= λ _, emit (e2 error) ≫= λ _, throw error) w).2
       = l ++ [e1 e; e2 e].
Proof.
  unfold try_catch, mbind, M_bind. destruct (body w) as [[a | e'] w']; cbn; [discriminate |].
  intros H. injection H as ->. exists (trace w'). now rewrite <- app_assoc.
Qed.

(** X13: Whenever deploy throws, the last two events of the run are the
    error log 'Deployment failed with error:' with the error and the log of
    its stack trace, and the error thrown is the one logged. *)
Theorem deploy_failure_is_logged (env : Env) (w : World) (e : exn) :
  (deploy env w).1 = Throw e →
  ∃ l, trace (deploy env w).2
       = l ++ [ELog console_error_sink [VStr "Deployment failed with error:"; VErr e];
               ELog console_error_sink [VStr "Error stack trace:"; VStack e]].
Proof.
  unfold deploy, console_error. unfold mbind at 1, M_bind at 1.
  unfold console_log at 1. cbn [emit].
  apply (rethrown_after_log _
           (λ error, ELog console_error_sink [VStr "Deployment failed with error:"; VErr error])
           (λ error, ELog console_error_sink [VStr "Error stack trace:"; VStack error])).
Qed.

Lemma deploy_failure_is_logged_witness :
  ∃ l,
    trace (deploy (scenario "test-key" (Some two_files) connection_refused) (initial ∅ ∅)).2
    = l ++ [ELog console_error_sink
              [VStr "Deployment failed with error:";
               VErr (ProcessFailed
                       (sftpCommand "/tmp/deploy_identity" "/tmp/sftp_batch" "22"
                          "test-user" "test-host") 1)];
            ELog console_error_sink
              [VStr "Error stack trace:";
               VStack (ProcessFailed
                         (sftpCommand "/tmp/deploy_identity" "/tmp/sftp_batch" "22"
                            "test-user" "test-host") 1)]].
Proof. apply deploy_failure_is_logged. vm_compute. reflexivity. Defined.

Lemma released_stable L : stable (released_is L).
Proof. intros w w' E H. unfold released_is in *. now rewrite E. Qed.

Lemma released_allows L e : releases e = false → allows (released_is L) e.
Proof.
  intros He w w' E H. unfold released_is, released in *. rewrite E, filter_app, H.
  rewrite filter_cons, decide_False by (rewrite He; discriminate).
  rewrite filter_nil. apply app_nil_r.
Qed.

Lemma released_records {A : Type} (L : list event) (m : M A) (e : event) :
  (∀ w, trace (m w).2 = trace w ++ [e]) → releases e = true →
  triple (released_is L) m (λ _ w, released_is (L ++ [e]) w).
Proof.
  intros Hm He w H. unfold released_is, released in *. rewrite Hm, filter_app, H.
  rewrite filter_cons, decide_True by exact He. reflexivity.
Qed.

Lemma fs_unlink_trace (env : Env) (p : string) (w : World) :
  trace (fs_unlink env p w).2 = trace w ++ [EUnlink p].
Proof.
  unfold fs_unlink, file_present, mbind, M_bind. cbn.
  destruct (files w !! p); cbn; [| reflexivity].
  destruct (denied env p); reflexivity.
Qed.

Ltac released_side := apply released_allows; reflexivity.

(** [try { await unlink(p); log } catch (e) { warn }]: the removal is
    attempted, and the statement completes whether it fails or not. *)
Lemma released_unlink (env : Env) (L : list event) (p : string) (e1 : event)
    (e2 : exn → event) :
  releases e1 = false → (∀ err, releases (e2 err) = false) →
  triple (released_is L)
    (try_catch (fs_unlink env p ≫= λ _, emit e1) (λ err, emit (e2 err)))
    (λ r w, r = Return () ∧ released_is (L ++ [EUnlink p]) w).
Proof.
  intros H1 H2 w Hw.
  pose proof (released_records L (fs_unlink env p) (EUnlink p)
                (fs_unlink_trace env p) eq_refl w Hw) as Hp.
  unfold try_catch, mbind, M_bind.
  destruct (fs_unlink env p w) as [[[] | e] w1]; cbn in *; (split; [reflexivity |]).
  - now apply (released_allows _ e1 H1 w1).
  - now apply (released_allows _ (e2 e) (H2 e) w1).
Qed.

(** [try { await exec(cmd, args); log } catch (e) { warn }]. *)
Lemma released_exec (env : Env) (L : list event) (cmd : string) (args : list string)
    (e1 : event) (e2 : exn → event) :
  releases (ESpawn cmd args None) = true →
  releases e1 = false → (∀ err, releases (e2 err) = false) →
  triple (released_is L)
    (try_catch
       ((exec_run env cmd args no_options ≫= λ out, mret (exitCode out)) ≫= λ _, emit e1)
       (λ err, emit (e2 err)))
    (λ r w, r = Return () ∧ released_is (L ++ [ESpawn cmd args None]) w).
Proof.
  intros H0 H1 H2 w Hw.
  pose proof (released_records L (exec_run env cmd args no_options) (ESpawn cmd args None)
                (λ w, exec_run_trace env cmd args no_options w eq_refl) H0 w Hw) as Hp.
  unfold try_catch, mbind, M_bind.
  destruct (exec_run env cmd args no_options w) as [[out | e] w1]; cbn in *;
    (split; [reflexivity |]).
  - now apply (released_allows _ e1 H1 w1).
  - now apply (released_allows _ (e2 e) (H2 e) w1).
Qed.

Lemma triple_after_emit {B : Type} (I : World → Prop) (e : event) (f : unit → M B)
    (J : outcome B → World → Prop) :
  allows I e → triple I (f ()) J → triple I (emit e ≫= f) J.
Proof.
  intros He Hf w Hw. unfold mbind, M_bind. cbn. apply Hf.
  now apply (He w).
Qed.

Lemma deploy_releases (env : Env) :
  triple (released_is []) (deploy env)
    (λ r w, match r with
            | Return _ =>
                released_is [EUnlink (identityFile env); EUnlink (batchFilePath env);
                             ESpawn "ssh-agent" ["-k"] None] w
            | Throw _ => released_is [] w ∨ released_is [EUnlink (identityFile env)] w
            end).
Proof.
  set (X := EUnlink (identityFile env)).
  set (Y := EUnlink (batchFilePath env)).
  set (Z := ESpawn "ssh-agent" ["-k"] None).
  pose proof (released_stable []) as Hs0.
  pose proof (released_stable [X]) as Hs1.
  pose proof (released_stable [X; Y]) as Hs2.
  pose proof (released_stable [X; Y; Z]) as Hs3.
  assert (∀ L, triple (released_is L)
                 (try_catch
                    (fs_unlink env (identityFile env)
                     ≫= λ _, console_log [VStr "Temporary identity file deleted"])
                    (λ err, console_warn
                              [VStr "Error deleting temporary identity file:"; VErr err]))
                 (λ r w, r = Return () ∧ released_is (L ++ [X]) w)) as Hidentity.
  { intros L. unfold console_log, console_warn.
    apply (released_unlink env L (identityFile env)); [reflexivity | now intros]. }
  unfold deploy. cbn. fold (identityFile env) (batchFilePath env).
  apply triple_skip;
    [solve [keeps_auto released_side] | intros e w Hw; now left | intros _].
  apply triple_try_catch with
    (K := λ r w, match r with
                 | Return _ => released_is [X; Y; Z] w
                 | Throw _ => released_is [] w ∨ released_is [X] w
                 end).
  - repeat triple_walk_step released_side ltac:(intros e w Hw; now left).
    apply triple_bind with (K := λ _ w, released_is [X] w).
    + apply triple_try_catch with
        (K := λ r w, match r with
                     | Return _ => released_is [X] w
                     | Throw _ => released_is [] w
                     end).
      * apply triple_skip;
          [solve [keeps_auto released_side] | intros ? ? H; exact H | intros result].
        repeat triple_walk_step released_side ltac:(intros ? ? H; exact H).
        apply triple_conseq with
          (I' := released_is []) (J' := λ r w, r = Return () ∧ released_is ([] ++ [X]) w);
          [apply Hidentity | intros ? H; exact H | intros r w0 [-> H]; exact H].
      * intros ? ? H. exact H.
      * intros e. cbn.
        apply triple_after_emit; [released_side |].
        apply triple_bind with (K := λ r w, r = Return () ∧ released_is ([] ++ [X]) w).
        -- apply Hidentity.
        -- intros []. apply triple_throw. now intros w [_ H].
        -- intros e' w [H _]. discriminate H.
    + intros _.
      apply triple_skip; [solve [keeps_auto released_side] | intros e w Hw; now right | intros _].
      apply triple_bind with (K := λ r w, r = Return () ∧ released_is ([X] ++ [Y]) w).
      * unfold console_log, console_warn.
        apply (released_unlink env [X] (batchFilePath env)); [reflexivity | now intros].
      * intros [].
        apply triple_bind with (K := λ r w, r = Return () ∧ released_is ([X; Y] ++ [Z]) w).
        -- apply triple_conseq with
             (I' := released_is [X; Y])
             (J' := λ r w, r = Return () ∧ released_is ([X; Y] ++ [Z]) w);
             [| now intros w [_ H] | intros ? ? H; exact H].
           unfold console_log, console_warn.
           apply (released_exec env [X; Y] "ssh-agent" ["-k"]);
             [reflexivity | reflexivity | now intros].
        -- intros [].
           apply triple_conseq with
             (I' := released_is [X; Y; Z])
             (J' := λ r w, match r with
                           | Return _ => released_is [X; Y; Z] w
                           | Throw _ => released_is [] w ∨ released_is [X] w
                           end);
             [| now intros w [_ H] | intros ? ? H; exact H].
           apply triple_after_emit; [released_side |].
           apply triple_ret. intros w H. exact H.
        -- intros e w [H _]. discriminate H.
      * intros e w [H _]. discriminate H.
    + intros e w Hw. now right.
  - intros ? ? H. exact H.
  - intros e.
    apply triple_conseq with
      (I' := λ w, released_is [] w ∨ released_is [X] w)
      (J' := λ r w, (released_is [] w ∨ released_is [X] w) ∧ returned (λ _, False) r);
      [| intros ? H; exact H | intros [?|?] w0 [H F]; [destruct F | exact H]].
    intros w [Hw | Hw].
    + assert (keeps (released_is []) 
        (console_error [VStr "Deployment failed with error:"; VErr e]
         ≫= λ _, console_error [VStr "Error stack trace:"; VStack e] ≫= λ _, throw e)
        (λ _ : bool, False)) as Hk by keeps_auto released_side.
      destruct (Hk w Hw) as [H1 H2]. split; [now left | exact H2].
    + assert (keeps (released_is [X]) 
        (console_error [VStr "Deployment failed with error:"; VErr e]
         ≫= λ _, console_error [VStr "Error stack trace:"; VStack e] ≫= λ _, throw e)
        (λ _ : bool, False)) as Hk by keeps_auto released_side.
      destruct (Hk w Hw) as [H1 H2]. split; [now right | exact H2].
Qed.

(** X14: What deploy gives back, in every run: when it returns, it has
    attempted to remove the identity file, then the batch script, then to
    stop the agent (ssh-agent -k), in this order and nothing else; when it
    throws, it has at most attempted to remove the identity file: the batch
    script is never removed and the agent never stopped on a failing run. *)
Theorem deploy_cleanup (env : Env) (fs0 : gmap string file) (pe : gmap string string) :
  match (deploy env (initial fs0 pe)).1 with
  | Return _ =>
      released (trace (deploy env (initial fs0 pe)).2)
      = [EUnlink (identityFile env); EUnlink (batchFilePath env);
         ESpawn "ssh-agent" ["-k"] None]
  | Throw _ =>
      released (trace (deploy env (initial fs0 pe)).2) = []
      ∨ released (trace (deploy env (initial fs0 pe)).2) = [EUnlink (identityFile env)]
  end.
Proof. exact (deploy_releases env (initial fs0 pe) eq_refl). Qed.

Lemma triple_throw_bind {A B : Type} (I : World → Prop) (e : exn) (f : A → M B)
    (J : outcome B → World → Prop) :
  (∀ w, I w → J (Throw e) w) → triple I (throw e ≫= f) J.
Proof. intros H w Hw. exact (H w Hw). Qed.

Ltac validation_side :=
  apply always_allows; cbn; first [exact Logic.I | now left | now right].

Lemma getInput_required (env : Env) (name : string) :
  core_getInput env name true
  = if String.eqb (input env name) ""
    then throw (Error ("Input required and not supplied: " +:+ name))
    else mret (input env name).
Proof. reflexivity. Qed.

Ltac required_input env name :=
  rewrite (getInput_required env name);
  destruct (String.eqb_spec (input env name) "");
  [apply triple_throw_bind; intros w Hw; split; [exact Hw | now eexists]
  | apply triple_ret_bind].

Lemma input_not_supplied (env : Env) (name : string) :
  inputs env !! name = None → input env name = "".
Proof. intros H. unfold input. now rewrite H. Qed.

Lemma deploy_validation (env : Env) :
  inputs env !! "host" = None ∨ inputs env !! "username" = None
  ∨ inputs env !! "source_dir" = None ∨ inputs env !! "remote_dir" = None
  ∨ inputs env !! "private_key" = None →
  triple (always before_validation) (deploy env)
    (λ r w, always before_validation w ∧ ∃ e, r = Throw e).
Proof.
  intros Hmissing.
  assert (input env "host" = "" ∨ input env "username" = "" ∨ input env "source_dir" = ""
          ∨ input env "remote_dir" = "" ∨ input env "private_key" = "") as Hempty
    by (destruct Hmissing as [H | [H | [H | [H | H]]]];
        apply input_not_supplied in H; tauto).
  clear Hmissing.
  pose proof (always_stable before_validation) as Hs.
  unfold deploy. cbn.
  apply triple_after_emit; [validation_side |].
  apply triple_try_catch with
    (K := λ r w, always before_validation w ∧ ∃ e, r = Throw e).
  - apply triple_skip;
      [solve [keeps_auto validation_side]
      | intros e w Hw; split; [exact Hw | now eexists] | intros _].
    apply triple_after_emit; [validation_side |].
    required_input env "host". required_input env "username".
    apply triple_ret_bind.
    required_input env "source_dir". required_input env "remote_dir".
    required_input env "private_key".
    exfalso. intuition congruence.
  - intros ? ? H. exact H.
  - intros e. cbn.
    apply triple_conseq with
      (I' := always before_validation)
      (J' := λ r w, always before_validation w ∧ ∃ e, r = Throw e);
      [| now intros w [H _] | intros ? ? H; exact H].
    apply triple_after_emit; [validation_side |].
    apply triple_after_emit; [validation_side |].
    apply triple_throw. intros w Hw. split; [exact Hw | now eexists].
Qed.

(** X11: With a required input (host, username, source_dir, remote_dir,
    private_key) not supplied, deploy throws during validation: the run
    consists of log lines and the processes of the tool check only; no
    secret is registered, no agent is started and no file is written. *)
Theorem deploy_validates_inputs (env : Env) (fs0 : gmap string file)
    (pe : gmap string string) :
  inputs env !! "host" = None ∨ inputs env !! "username" = None
  ∨ inputs env !! "source_dir" = None ∨ inputs env !! "remote_dir" = None
  ∨ inputs env !! "private_key" = None →
  Forall before_validation (trace (deploy env (initial fs0 pe)).2)
  ∧ ∃ e, (deploy env (initial fs0 pe)).1 = Throw e.
Proof.
  intros H. exact (deploy_validation env H (initial fs0 pe) (always_initial _ _ _)).
Qed.

Lemma deploy_validates_inputs_witness :
  Forall before_validation
    (trace (deploy (without_inputs (scenario "test-key" (Some two_files) (exits 0 "" "")))
              (initial ∅ ∅)).2)
  ∧ ∃ e, (deploy (without_inputs (scenario "test-key" (Some two_files) (exits 0 "" "")))
            (initial ∅ ∅)).1 = Throw e.
Proof. apply deploy_validates_inputs. left. reflexivity. Defined.

Ltac files_walk_step throws :=
  lazymatch goal with
  | |- triple _ (mbind _ (mret _)) _ => apply triple_ret_bind
  | |- triple _ (mbind _ _) _ =>
      apply triple_skip;
      [apply (keeps_field files); solve [preserves_auto] | throws | intros ? ]
  end.

Lemma fs_writeFile_files (env : Env) (p content : string) (mode : option N) (w : World) :
  (fs_writeFile env p content mode w).1 = Return () →
  ∃ f, files (fs_writeFile env p content mode w).2 = <[p := f]> (files w).
Proof.
  unfold fs_writeFile, mbind, M_bind. cbn.
  destruct (denied env p); cbn; [discriminate |]. intros _.
  destruct (files w !! p); eexists; reflexivity.
Qed.

(** [try { await unlink(p); ... } catch { ... }] on a path that can be
    removed: afterwards there is no file at [p]. *)
Lemma unlink_removes (env : Env) (p : string) (e1 : event) (e2 : exn → event)
    (m : gmap string file) :
  denied env p = false →
  triple (files_are m)
    (try_catch (fs_unlink env p ≫= λ _, emit e1) (λ err, emit (e2 err)))
    (λ r w, r = Return () ∧ files_are (delete p m) w).
Proof.
  intros Hd w Hw. unfold files_are in *.
  unfold try_catch, fs_unlink, file_present, mbind, M_bind. cbn.
  destruct (files w !! p) as [f|] eqn:E; cbn.
  - rewrite Hd. cbn. split; [reflexivity | now rewrite Hw].
  - split; [reflexivity |]. rewrite <- Hw. symmetry. now apply delete_id.
Qed.

Lemma triple_exists {A X : Type} (I : X → World → Prop) (m : M A)
    (J : outcome A → World → Prop) :
  (∀ x, triple (I x) m J) → triple (λ w, ∃ x, I x w) m J.
Proof. intros H w [x Hw]. exact (H x w Hw). Qed.

Lemma fs_writeFile_adds (env : Env) (p content : string) (mode : option N)
    (m : gmap string file) :
  triple (files_are m) (fs_writeFile env p content mode)
    (λ r w, match r with
            | Return _ => ∃ f, files_are (<[p := f]> m) w
            | Throw _ => True
            end).
Proof.
  intros w Hw. destruct (fs_writeFile env p content mode w) as [[[] | e] w'] eqn:E;
    cbn; [| exact Logic.I].
  destruct (fs_writeFile_files env p content mode w) as [f Hf]; [now rewrite E |].
  exists f. unfold files_are in *. rewrite E in Hf. cbn in Hf. now rewrite Hf, Hw.
Qed.

Lemma delete_both (i j : string) (f g : file) (m : gmap string file) :
  delete j (delete i (<[i := g]> (<[j := f]> m))) = delete j (delete i m).
Proof.
  rewrite delete_insert_eq. destruct (decide (i = j)) as [-> | Hij].
  - now rewrite delete_insert_eq.
  - rewrite delete_insert_ne by exact Hij. now rewrite delete_insert_eq.
Qed.

Lemma deploy_files (env : Env) (fs0 : gmap string file) :
  denied env (identityFile env) = false → denied env (batchFilePath env) = false →
  triple (files_are fs0) (deploy env)
    (λ r w, ∀ b, r = Return b →
       files_are (delete (batchFilePath env) (delete (identityFile env) fs0)) w).
Proof.
  intros Hdi Hdb.
  pose proof (holds_stable True) as Hs.
  set (final := delete (batchFilePath env) (delete (identityFile env) fs0)).
  unfold deploy. cbn. fold (identityFile env) (batchFilePath env).
  apply triple_skip;
    [apply (keeps_field files); solve [preserves_auto]
    | intros e w _ b H; discriminate H | intros _].
  apply triple_try_catch with (K := λ r w, ∀ b, r = Return b → files_are final w).
  - repeat files_walk_step ltac:(intros e w _ b H; discriminate H).
    eapply triple_bind; [apply fs_writeFile_adds | | intros e w _ b H; discriminate H].
    intros []. apply triple_exists. intros f.
    repeat files_walk_step ltac:(intros e w _ b H; discriminate H).
    eapply triple_bind; [apply fs_writeFile_adds | | intros e w _ b H; discriminate H].
    intros []. apply triple_exists. intros g.
    repeat files_walk_step ltac:(intros e w _ b H; discriminate H).
    set (both := <[identityFile env := g]> (<[batchFilePath env := f]> fs0)).
    apply triple_bind with
      (K := λ r w, match r with
                   | Return _ => files_are (delete (identityFile env) both) w
                   | Throw _ => True
                   end).
    + apply triple_try_catch with
        (K := λ r w, match r with
                     | Return _ => files_are (delete (identityFile env) both) w
                     | Throw _ => True
                     end).
      * repeat files_walk_step ltac:(intros; exact Logic.I).
        apply triple_conseq with
          (I' := files_are both)
          (J' := λ r w, r = Return () ∧ files_are (delete (identityFile env) both) w);
          [| intros ? H; exact H | intros ? ? [-> H]; exact H].
        unfold console_log, console_warn. now apply unlink_removes.
      * intros ? ? H. exact H.
      * intros e. apply triple_conseq with
          (I' := holds True)
          (J' := λ (r : outcome unit) (_ : World), returned (λ _, False) r);
          [| intros; exact Logic.I | intros [? | ?] ? H; [destruct H | exact Logic.I]].
        intros w Hw.
        match goal with
        | |- returned _ (?m w).1 =>
            assert (keeps (holds True) m (λ _, False)) as Hk
              by keeps_auto holds_side
        end.
        exact (proj2 (Hk w Hw)).
    + intros _.
      repeat files_walk_step ltac:(intros e w _ b H; discriminate H).
      apply triple_bind with
        (K := λ r w, r = Return ()
                     ∧ files_are (delete (batchFilePath env)
                                    (delete (identityFile env) both)) w).
      * unfold console_log, console_warn. now apply unlink_removes.
      * intros [].
        apply triple_conseq with
          (I' := files_are final) (J' := λ r w, ∀ b, r = Return b → files_are final w);
          [| intros w [_ H]; unfold final, both in *; now rewrite delete_both in H
           | intros ? ? H; exact H].
        repeat files_walk_step ltac:(intros e w _ b H; discriminate H).
        apply triple_ret. intros w H b _. exact H.
      * intros e w [H _]. discriminate H.
    + intros e w _ b H. discriminate H.
  - intros ? ? H. exact H.
  - intros e. apply triple_conseq with
      (I' := holds True)
      (J' := λ (r : outcome bool) (_ : World), returned (λ _, False) r);
      [| intros; exact Logic.I | intros [? | ?] ? H b Hb; [destruct H | discriminate Hb]].
    intros w Hw.
    match goal with
    | |- returned _ (?m w).1 =>
        assert (keeps (holds True) m (λ _, False)) as Hk by keeps_auto holds_side
    end.
    exact (proj2 (Hk w Hw)).
Qed.

(** X15: When deploy returns and the two temporary paths can be removed, no
    file is left at the path of the batch script or of the identity file,
    and no other file of the temp directory has changed. *)
Theorem deploy_success_leaves_no_files (env : Env) (fs0 : gmap string file)
    (pe : gmap string string) (b : bool) :
  denied env (identityFile env) = false → denied env (batchFilePath env) = false →
  (deploy env (initial fs0 pe)).1 = Return b →
  files (deploy env (initial fs0 pe)).2
  = delete (batchFilePath env) (delete (identityFile env) fs0).
Proof.
  intros Hdi Hdb Hr. exact (deploy_files env fs0 Hdi Hdb (initial fs0 pe) eq_refl b Hr).
Qed.

Lemma deploy_success_leaves_no_files_witness :
  files (deploy (scenario "test-key" (Some two_files) (exits 0 "" "")) (initial ∅ ∅)).2
  = delete (batchFilePath (scenario "test-key" (Some two_files) (exits 0 "" "")))
      (delete (identityFile (scenario "test-key" (Some two_files) (exits 0 "" ""))) ∅).
Proof.
  apply (deploy_success_leaves_no_files
           (scenario "test-key" (Some two_files) (exits 0 "" "")) ∅ ∅ true);
    [vm_compute; reflexivity | vm_compute; reflexivity | vm_compute; reflexivity].
Defined.

(** ** The script run directly *)

Lemma main_follows_deploy (env : Env) (w : World) :
  (main env w).1
  = Return (match (deploy env (console_log [VStr "Running deploy.js directly"] w).2).1 with
            | Return _ => None
            | Throw _ => Some 1%Z
            end).
Proof.
  unfold main, try_catch, mbind, M_bind. cbn.
  destruct (deploy env _) as [[b | e] w']; reflexivity.
Qed.

(** X16: Run directly (require.main === module), the script never throws; it
    calls process.exit(1) when the transfer client exits with a non-zero
    status, and completes without calling process.exit only if the transfer
    client ran and exited with status 0. *)
Theorem main_exit_status (env : Env) (fs0 : gmap string file) (pe : gmap string string) :
  (transfer_fails env → (main env (initial fs0 pe)).1 = Return (Some 1%Z))
  ∧ ((main env (initial fs0 pe)).1 = Return None → transferred env)
  ∧ ∃ status, (main env (initial fs0 pe)).1 = Return status.
Proof.
  rewrite main_follows_deploy.
  set (w := (console_log [VStr "Running deploy.js directly"] (initial fs0 pe)).2).
  repeat split.
  - intros Hfail.
    assert (always (λ e, is_transfer e = false) w) as Hw by (repeat constructor).
    destruct (deploy_transfer_failure env Hfail w Hw) as (e & He & _).
    now rewrite He.
  - destruct (deploy env w).1 as [b | e] eqn:E; [intros _ | discriminate].
    exact (proj2 (deploy_returns env w Logic.I b E)).
  - now eexists.
Qed.

(** ** [deployWithDependencies]: parameters and inputs *)

(** X17: When a required value is neither given as a parameter nor supplied
    as an input (the input is absent), deployWithDependencies throws 'Input
    required and not supplied: <name>' before doing anything: nothing is
    logged, no process is started, the world is unchanged (the defaults are
    evaluated outside the try block, so the failure is not logged
    either). *)
Theorem deployWithDependencies_validates_first (env : Env) (params : Params)
    (dependencies : Dependencies) (w : World) :
  lacks env (host params) "host" ∨ lacks env (username params) "username"
  ∨ lacks env (sourceDir params) "source_dir" ∨ lacks env (remoteDir params) "remote_dir"
  ∨ lacks env (privateKey params) "private_key" →
  ∃ name, deployWithDependencies env params dependencies w
          = (Throw (Error ("Input required and not supplied: " +:+ name)), w).
Proof.
  intros H. unfold deployWithDependencies.
  assert (∀ (given : option string) name (k : string → M bool),
            (or_default given (Core.getInput (actions_core env) name true) ≫= k) w
            = match given with
              | Some v => k v w
              | None =>
                  if String.eqb (input env name) ""
                  then (Throw (Error ("Input required and not supplied: " +:+ name)), w)
                  else k (input env name) w
              end) as Hstep.
  { intros [v|] name k; [reflexivity |]. cbn. unfold core_getInput, mbind, M_bind. cbn.
    destruct (String.eqb (input env name) ""); reflexivity. }
  assert (∀ (given : option string) (k : string → M bool),
            ∃ v, (or_default given
                    (port ← Core.getInput (actions_core env) "port" false;
                     mret (if String.eqb port "" then "22" else port)) ≫= k) w
                 = k v w) as Hport.
  { intros [v|] k; eexists; reflexivity. }
  unfold lacks in H.
  rewrite Hstep.
  destruct (host params) as [h|] eqn:Eh;
    [| destruct (String.eqb_spec (input env "host") ""); [eauto |]];
    (rewrite Hstep;
     destruct (username params) as [u|] eqn:Eu;
     [| destruct (String.eqb_spec (input env "username") ""); [eauto |]]);
    (match goal with
     | |- context [mbind ?k (or_default (port params) ?d)] =>
         destruct (Hport (port params) k) as [p ->]
     end;
     rewrite Hstep;
     destruct (sourceDir params) as [s|] eqn:Es;
     [| destruct (String.eqb_spec (input env "source_dir") ""); [eauto |]]);
    (rewrite Hstep;
     destruct (remoteDir params) as [r|] eqn:Er;
     [| destruct (String.eqb_spec (input env "remote_dir") ""); [eauto |]]);
    (rewrite Hstep;
     destruct (privateKey params) as [k|] eqn:Ek;
     [| destruct (String.eqb_spec (input env "private_key") ""); [eauto |]]);
    exfalso;
    destruct H as [[H H'] | [[H H'] | [[H H'] | [[H H'] | [H H']]]]];
    apply input_not_supplied in H'; congruence.
Qed.

Lemma deployWithDependencies_validates_first_witness :
  ∃ name,
    deployWithDependencies
      (without_inputs (scenario "test-key" (Some two_files) (exits 0 "" "")))
      no_params no_dependencies (initial ∅ ∅)
    = (Throw (Error ("Input required and not supplied: " +:+ name)), initial ∅ ∅).
Proof.
  apply deployWithDependencies_validates_first. left. split; reflexivity.
Defined.

Lemma omap_Some_id {A : Type} (l : list A) : omap Some l = l.
Proof. induction l as [|x l IH]; [reflexivity |]. cbn. now rewrite IH. Qed.

Lemma deployWithDependencies_ignores_inputs (env1 env2 : Env) (params : Params) :
  same_outside env1 env2 → complete params →
  sim Some (deployWithDependencies env1 params no_dependencies)
    (deployWithDependencies env2 params no_dependencies) eq.
Proof.
  intros Hout ([h Hh] & [u Hu] & [p Hp] & [s Hs] & [r Hr] & [k Hk]).
  pose proof Hout as (_ & Htmp & Hjoin & _).
  unfold deployWithDependencies. rewrite Hh, Hu, Hp, Hs, Hr, Hk. cbn.
  rewrite Htmp, Hjoin.
  change (checkAndInstallSshToolsWithDeps (actions_core env1) (actions_exec env1) (node_os env1))
    with (checkAndInstallSshTools env1).
  change (checkAndInstallSshToolsWithDeps (actions_core env2) (actions_exec env2) (node_os env2))
    with (checkAndInstallSshTools env2).
  change (startSshAgentWithDeps (actions_core env1) (actions_exec env1))
    with (startSshAgent env1).
  change (startSshAgentWithDeps (actions_core env2) (actions_exec env2))
    with (startSshAgent env2).
  change (getFileCountWithDeps (node_fs env1) (node_path env1)) with (getFileCount env1).
  change (getFileCountWithDeps (node_fs env2) (node_path env2)) with (getFileCount env2).
  sim_walk same_view.
  sim_auto same_view.
Qed.

(** X18: Parameters take precedence over the action inputs: with all six
    parameters given and the default modules, the events and the result of
    deployWithDependencies do not depend on the action inputs, not even on
    required inputs being supplied. *)
Theorem deployWithDependencies_params_first (env1 env2 : Env) (params : Params)
    (fs0 : gmap string file) (pe : gmap string string) :
  same_outside env1 env2 → complete params →
  trace (deployWithDependencies env1 params no_dependencies (initial fs0 pe)).2
  = trace (deployWithDependencies env2 params no_dependencies (initial fs0 pe)).2
  ∧ (deployWithDependencies env1 params no_dependencies (initial fs0 pe)).1
    = (deployWithDependencies env2 params no_dependencies (initial fs0 pe)).1.
Proof.
  intros Hout Hc.
  destruct (deployWithDependencies_ignores_inputs env1 env2 params Hout Hc
              (initial fs0 pe) (initial fs0 pe) (related_initial _ _ _))
    as ((Ht & _) & Hr).
  rewrite !omap_Some_id in Ht. split; [exact Ht | now apply rel_outcome_eq].
Qed.

Lemma deployWithDependencies_params_first_witness :
  trace (deployWithDependencies (scenario "test-key" (Some two_files) (exits 0 "" ""))
           test_params no_dependencies (initial ∅ ∅)).2
  = trace (deployWithDependencies
             (without_inputs (scenario "test-key" (Some two_files) (exits 0 "" "")))
             test_params no_dependencies (initial ∅ ∅)).2
  ∧ (deployWithDependencies (scenario "test-key" (Some two_files) (exits 0 "" ""))
       test_params no_dependencies (initial ∅ ∅)).1
    = (deployWithDependencies
         (without_inputs (scenario "test-key" (Some two_files) (exits 0 "" "")))
         test_params no_dependencies (initial ∅ ∅)).1.
Proof.
  apply deployWithDependencies_params_first; [repeat split |].
  repeat split; eexists; reflexivity.
Defined.

(** ** The ES-module variant *)

Lemma succeeds_try_finally {A : Type} (body : M A) (fin : M unit) :
  succeeds body → succeeds fin → succeeds (try_finally body fin).
Proof.
  intros Hb Hf w. destruct (Hb w) as [a Ha]. unfold try_finally.
  destruct (body w) as [r w']. simpl in Ha. subst r.
  destruct (Hf w') as [[] Hu]. destruct (fin w') as [r w'']. simpl in Hu. subst r.
  now exists a.
Qed.

Lemma succeeds_set_cleanup (b : bool) : succeeds (set_cleanup b).
Proof. intros w. now eexists. Qed.

(** X19: The ES-module deploy never throws: every failure of a step is
    caught and reported through core.setFailed, and a failure to stop the
    agent is only a warning. *)
Theorem esm_deploy_never_throws (env : Env) (w : World) :
  (EsmVariant.deploy env w).1 = Return ().
Proof.
  assert (succeeds (EsmVariant.deploy env)) as H.
  { unfold EsmVariant.deploy.
    apply succeeds_bind; [apply succeeds_set_cleanup | intros _].
    apply succeeds_try_finally.
    - apply succeeds_try_catch. intros e. succeeds_auto.
    - apply succeeds_bind; [apply succeeds_get_cleanup | intros [|]]; [| apply succeeds_ret].
      cbn. apply succeeds_bind; [apply succeeds_emit | intros _].
      apply succeeds_bind; [| intros _; apply succeeds_emit].
      apply succeeds_try_catch. intros e. succeeds_auto. }
  destruct (H w) as [[] Hu]. exact Hu.
Qed.

Lemma reported_records (L : list event) (e : event) :
  is_report e = true →
  triple (reported_is L) (emit e) (λ r w, r = Return () ∧ reported_is (L ++ [e]) w).
Proof.
  intros He w H. split; [reflexivity |]. unfold reported_is, reported in *. cbn.
  rewrite filter_app, H.
  rewrite filter_cons, decide_True by exact He. reflexivity.
Qed.

Ltac reported_side := apply reported_allows; reflexivity.

Lemma history_stable rel rep : stable (history_is rel rep).
Proof. intros w w' E H. unfold history_is in *. now rewrite E. Qed.

Lemma history_allows rel rep e :
  releases e = false → is_report e = false → allows (history_is rel rep) e.
Proof.
  intros H1 H2 w w' E [Hr Hp]. split.
  - now apply (released_allows rel e H1 w w' E).
  - now apply (reported_allows rep e H2 w w' E).
Qed.

Ltac history_side := apply history_allows; reflexivity.

Ltac esm_keeps :=
  apply (keeps_with_field cleanup);
  [solve [keeps_auto history_side] | solve [preserves_auto]].

(** A statement that completes, with its effect on the history. *)
Lemma esm_step (flag : bool) (rel rep rel' rep' : list event) (m : M unit) :
  succeeds m → preserves cleanup m →
  triple (released_is rel) m (λ _ w, released_is rel' w) →
  triple (reported_is rep) m (λ _ w, reported_is rep' w) →
  triple (esm_state flag rel rep) m (λ r w, r = Return () ∧ esm_state flag rel' rep' w).
Proof.
  intros Sm Tm H1 H2 w (Hf & Hr & Hp). destruct (Sm w) as [[] Ha].
  split; [exact Ha |]. split; [now rewrite Tm |].
  split; [now apply H1 | now apply H2].
Qed.

Lemma esm_then {B : Type} (flag : bool) (rel rep rel' rep' : list event) (m : M unit)
    (f : unit → M B) (J : outcome B → World → Prop) :
  triple (esm_state flag rel rep) m (λ r w, r = Return () ∧ esm_state flag rel' rep' w) →
  triple (esm_state flag rel' rep') (f ()) J →
  triple (esm_state flag rel rep) (m ≫= f) J.
Proof.
  intros Hm Hf.
  apply triple_bind with (K := λ r w, r = Return () ∧ esm_state flag rel' rep' w);
    [exact Hm | | intros e w [H _]; discriminate H].
  intros []. apply triple_conseq with (I' := esm_state flag rel' rep') (J' := J);
    [exact Hf | now intros w [_ H] | auto].
Qed.

Lemma esm_log (flag : bool) (rel rep : list event) (e : event) :
  releases e = false → is_report e = false →
  triple (esm_state flag rel rep) (emit e)
    (λ r w, r = Return () ∧ esm_state flag rel rep w).
Proof.
  intros H1 H2. apply esm_step; [apply succeeds_emit | (intros ?; reflexivity) | |].
  - intros w Hw. now apply (released_allows rel e H1 w).
  - intros w Hw. now apply (reported_allows rep e H2 w).
Qed.

Lemma esm_report (flag : bool) (rel rep : list event) (e : event) :
  releases e = false → is_report e = true →
  triple (esm_state flag rel rep) (emit e)
    (λ r w, r = Return () ∧ esm_state flag rel (rep ++ [e]) w).
Proof.
  intros H1 H2. apply esm_step; [apply succeeds_emit | (intros ?; reflexivity) | |].
  - intros w Hw. now apply (released_allows rel e H1 w).
  - intros w Hw. now apply (reported_records rep e H2 w).
Qed.

Lemma esm_unlink (env : Env) (flag : bool) (rel rep : list event) (p : string)
    (e1 : event) (e2 : exn → event) :
  releases e1 = false → is_report e1 = false →
  (∀ err, releases (e2 err) = false) → (∀ err, is_report (e2 err) = false) →
  triple (esm_state flag rel rep)
    (try_catch (fs_unlink env p ≫= λ _, emit e1) (λ err, emit (e2 err)))
    (λ r w, r = Return () ∧ esm_state flag (rel ++ [EUnlink p]) rep w).
Proof.
  intros H1 H1' H2 H2'. pose proof (reported_stable rep) as Hs.
  apply esm_step.
  - apply succeeds_try_catch. intros e. apply succeeds_emit.
  - preserves_auto.
  - intros w Hw. now apply (released_unlink env rel p e1 e2 H1 H2 w).
  - apply keeps_triple; [| auto].
    keeps_auto ltac:(apply reported_allows; first [reflexivity | assumption | apply H2']).
Qed.

Lemma esm_kill (env : Env) (flag : bool) (rel rep : list event) (e0 e1 : event)
    (e2 : exn → event) :
  releases e0 = false → is_report e0 = false →
  releases e1 = false → is_report e1 = false →
  (∀ err, releases (e2 err) = false) → (∀ err, is_report (e2 err) = false) →
  triple (esm_state flag rel rep)
    (try_catch
       ((emit e0
         ≫= λ _, (exec_run env "ssh-agent" ["-k"] no_options ≫= λ out, mret (exitCode out))
         ≫= λ _, skip)
        ≫= λ _, emit e1)
       (λ err, emit (e2 err)))
    (λ r w, r = Return () ∧ esm_state flag (rel ++ [kill_agent]) rep w).
Proof.
  intros H0 H0' H1 H1' H2 H2'. pose proof (reported_stable rep) as Hs.
  apply esm_step.
  - apply succeeds_try_catch. intros e. apply succeeds_emit.
  - preserves_auto.
  - intros w Hw.
    pose proof (released_allows rel e0 H0 w (emit e0 w).2 eq_refl Hw) as Hw0.
    pose proof (released_records rel (exec_run env "ssh-agent" ["-k"] no_options) kill_agent
                  (λ w, exec_run_trace env "ssh-agent" ["-k"] no_options w eq_refl)
                  eq_refl _ Hw0) as Hp.
    set (w0 := (emit e0 w).2) in *.
    unfold try_catch, mbind, M_bind. change (emit e0 w) with (Return (), w0). cbv iota.
    destruct (exec_run env "ssh-agent" ["-k"] no_options w0) as [[out | e] w1];
      cbn in *.
    + now apply (released_allows _ e1 H1 w1).
    + now apply (released_allows _ (e2 e) (H2 e) w1).
  - apply keeps_triple; [| auto].
    keeps_auto ltac:(apply reported_allows; first [reflexivity | assumption | apply H2']).
Qed.

Lemma esm_get_cleanup {B : Type} (flag : bool) (rel rep : list event) (f : bool → M B)
    (J : outcome B → World → Prop) :
  triple (esm_state flag rel rep) (f flag) J →
  triple (esm_state flag rel rep) (get_cleanup ≫= f) J.
Proof.
  intros H w Hw. unfold mbind, M_bind, get_cleanup. cbn.
  destruct Hw as [Hf Hh]. rewrite Hf. apply H. now split.
Qed.

Ltac esm_walk_step throws :=
  lazymatch goal with
  | |- triple _ (mbind _ (mret _)) _ => apply triple_ret_bind
  | |- triple _ (mbind _ (set_cleanup _)) _ => fail
  | |- triple _ (mbind _ (try_finally _ _)) _ => fail
  | |- triple _ (mbind _ (emit (ESetOutput _ _))) _ => fail
  | |- triple _ (mbind _ _) _ => apply triple_skip; [esm_keeps | throws | intros ? ]
  end.

Lemma esm_deploy_history (env : Env) :
  triple (history_is [] []) (EsmVariant.deploy env) (λ _ w, esm_final env w).
Proof.
  pose proof (history_stable [] []) as Hs0.
  unfold EsmVariant.deploy. cbn.
  apply triple_bind with (K := λ r w, r = Return () ∧ esm_state false [] [] w).
  { intros w Hw. split; [reflexivity |]. split; [reflexivity | exact Hw]. }
  2: { intros e w [H _]. discriminate H. }
  intros [].
  apply triple_conseq with
    (I' := esm_state false [] []) (J' := λ _ w, esm_final env w);
    [| now intros w [_ H] | intros ? ? H; exact H].
  apply triple_try_finally with
    (K := λ _ w,
       (∃ p n, esm_state true [EUnlink p]
                 [ESetOutput "deployed-files" (show_nat n);
                  ESetOutput "deployment-time" (clock env)] w)
       ∨ ∃ e, esm_state false [] [ESetFailed (message e)] w
              ∨ esm_state true [] [ESetFailed (message e)] w
              ∨ ∃ p, esm_state true [EUnlink p] [ESetFailed (message e)] w).
  - apply triple_try_catch with
      (K := λ r w, match r with
                   | Return _ =>
                       ∃ p n, esm_state true [EUnlink p]
                                [ESetOutput "deployed-files" (show_nat n);
                                 ESetOutput "deployment-time" (clock env)] w
                   | Throw _ =>
                       esm_state false [] [] w ∨ esm_state true [] [] w
                       ∨ ∃ p, esm_state true [EUnlink p] [] w
                   end).
    + repeat esm_walk_step ltac:(intros ? ? H; left; exact H).
      apply triple_bind with (K := λ r w, r = Return () ∧ esm_state true [] [] w);
        [intros w (_ & Hw); repeat split; apply Hw | | intros e w [H _]; discriminate H].
      intros [].
      apply triple_conseq with
        (I' := esm_state true [] [])
        (J' := λ r w, match r with
                      | Return _ =>
                          ∃ p n, esm_state true [EUnlink p]
                                   [ESetOutput "deployed-files" (show_nat n);
                                    ESetOutput "deployment-time" (clock env)] w
                      | Throw _ =>
                          esm_state false [] [] w ∨ esm_state true [] [] w
                          ∨ ∃ p, esm_state true [EUnlink p] [] w
                      end);
        [| now intros w [_ H] | intros ? ? H; exact H].
      repeat esm_walk_step ltac:(intros ? ? H; right; left; exact H).
      match goal with
      | |- context [fs_unlink env ?q] => set (p := q)
      end.
      match goal with
      | |- context [ESetOutput "deployed-files" (show_nat ?n)] => set (fileCount := n)
      end.
      apply triple_bind with (K := λ _ w, esm_state true [EUnlink p] [] w).
      * apply triple_try_finally with (K := λ _ w, esm_state true [] [] w).
        -- apply keeps_triple; [esm_keeps | auto].
        -- intros r.
           apply triple_conseq with
             (I' := esm_state true [] [])
             (J' := λ r' w, r' = Return () ∧ esm_state true ([] ++ [EUnlink p]) [] w);
             [| intros ? H; exact H | intros ? ? [-> H]; exact H].
           eapply esm_then; [apply esm_log; reflexivity |].
           eapply esm_then;
             [apply (esm_unlink env true [] [] p); first [reflexivity | now intros] |].
           apply esm_log; reflexivity.
      * intros _.
        eapply esm_then; [apply esm_report; reflexivity |].
        apply triple_conseq with
          (I' := esm_state true [EUnlink p]
                   ([] ++ [ESetOutput "deployed-files" (show_nat fileCount)]))
          (J' := λ r w, r = Return ()
                        ∧ esm_state true [EUnlink p]
                            (([] ++ [ESetOutput "deployed-files" (show_nat fileCount)])
                             ++ [ESetOutput "deployment-time" (clock env)]) w);
          [apply esm_report; reflexivity | intros ? H; exact H |].
        intros ? ? [-> H]. now exists p, fileCount.
      * intros e w H. right. right. now exists p.
    + intros a w (p & n & H). left. now exists p, n.
    + intros e. cbn.
      assert (∀ f rel,
                triple (esm_state f rel [])
                  (emit (ELog core_error_sink [VStr "❌ Deployment failed"])
                   ≫= λ _, emit (ESetFailed (message e)))
                  (λ r w, r = Return ()
                          ∧ esm_state f rel ([] ++ [ESetFailed (message e)]) w)) as Hh
        by (intros; eapply esm_then; [apply esm_log; reflexivity
                                     | apply esm_report; reflexivity]).
      intros w [Hw | [Hw | (p & Hw)]]; destruct (Hh _ _ w Hw) as [_ H];
        right; exists e; [left | right; left | right; right; exists p]; exact H.
  - intros r. cbn.
    match goal with
    | |- triple _ ?fin _ =>
        assert (∀ rel rep,
                  triple (esm_state true rel rep) fin
                    (λ r w, r = Return ()
                            ∧ esm_state true (rel ++ [kill_agent]) rep w)) as Htrue;
        [| assert (∀ rel rep,
                     triple (esm_state false rel rep) fin
                       (λ r w, r = Return () ∧ esm_state false rel rep w)) as Hfalse]
    end.
    { intros rel rep. apply esm_get_cleanup.
      eapply esm_then; [apply esm_log; reflexivity |].
      eapply esm_then; [apply esm_kill; first [reflexivity | now intros] |].
      apply esm_log; reflexivity. }
    { intros rel rep. apply esm_get_cleanup.
      intros w Hw. now split. }
    intros w [(p & n & Hw) | (e & [Hw | [Hw | (p & Hw)]])].
    + destruct (Htrue _ _ w Hw) as [-> [_ H]]. left. now exists p, n.
    + destruct (Hfalse _ _ w Hw) as [-> [_ H]]. right. exists e. now left.
    + destruct (Htrue _ _ w Hw) as [-> [_ H]]. right. exists e. right. now left.
    + destruct (Htrue _ _ w Hw) as [-> [_ H]]. right. exists e. right. right. now exists p.
Qed.

(** X20: What every run of the ES-module deploy releases and reports: either
    both outputs (deployed-files, then deployment-time) are set, and the run
    has attempted to remove the batch script and then run ssh-agent -k; or
    exactly one failure is reported, no output is set, and what the run
    released is nothing, or the agent alone (ssh-agent -k), or the batch
    script and then the agent. *)
Theorem esm_deploy_cleanup (env : Env) (fs0 : gmap string file) (pe : gmap string string) :
  let l := trace (EsmVariant.deploy env (initial fs0 pe)).2 in
  (∃ p n, released l = [EUnlink p; kill_agent]
          ∧ reported l = [ESetOutput "deployed-files" (show_nat n);
                          ESetOutput "deployment-time" (clock env)])
  ∨ ∃ e, reported l = [ESetFailed (message e)]
         ∧ (released l = [] ∨ released l = [kill_agent]
            ∨ ∃ p, released l = [EUnlink p; kill_agent]).
Proof.
  cbv zeta.
  destruct (esm_deploy_history env (initial fs0 pe) (conj eq_refl eq_refl))
    as [(p & n & H1 & H2) | (e & [[H1 H2] | [[H1 H2] | (p & H1 & H2)]])].
  - left. now exists p, n.
  - right. exists e. split; [exact H2 | now left].
  - right. exists e. split; [exact H2 | right; now left].
  - right. exists e. split; [exact H2 | right; right; now exists p].
Qed.

(** X21: In the ES-module deploy, when the source directory (input
    source-dir, default ./dist) does not exist, no process is started and no
    directory is read, the files, process.env and the agent are unchanged,
    and with the required inputs supplied the one thing reported is the
    failure 'Source directory <dir> does not exist'. *)
Theorem esm_missing_source_dir (env : Env) (fs0 : gmap string file) (pe : gmap string string) :
  let sourceDir := EsmVariant.or_else (input env "source-dir") "./dist" in
  let run := EsmVariant.deploy env (initial fs0 pe) in
  tree env sourceDir = None → stat env sourceDir = None →
  Forall (λ e, is_spawn e = false ∧ is_fs_walk e = false) (trace run.2)
  ∧ files run.2 = fs0 ∧ penv run.2 = pe ∧ agent run.2 = None
  ∧ (input env "host" ≠ "" → input env "username" ≠ "" → input env "private-key" ≠ "" →
     reported (trace run.2)
     = [ESetFailed ("Source directory " +:+ sourceDir +:+ " does not exist")]).
Proof.
  cbv zeta. intros Ht Hs.
  unfold EsmVariant.deploy, set_cleanup, try_finally, try_catch, mbind, M_bind.
  cbn. unfold core_getInput. cbn.
  destruct (String.eqb_spec (input env "host") "") as [Eh | Eh]; cbn.
  { repeat split; try (repeat constructor; fail). now intros. }
  destruct (String.eqb_spec (input env "username") "") as [Eu | Eu]; cbn.
  { repeat split; try (repeat constructor; fail). now intros. }
  destruct (String.eqb_spec (input env "private-key") "") as [Ek | Ek]; cbn.
  { repeat split; try (repeat constructor; fail). now intros. }
  unfold fs_existsSync, mbind, M_bind. cbn. rewrite Ht, Hs. cbn.
  repeat split; try (repeat constructor; fail).
Qed.

Lemma esm_missing_source_dir_witness :
  reported (trace (EsmVariant.deploy (scenario "test-key" None (exits 0 "" ""))
                     (initial ∅ ∅)).2)
  = [ESetFailed "Source directory ./dist does not exist"].
Proof.
  apply (esm_missing_source_dir (scenario "test-key" None (exits 0 "" "")) ∅ ∅);
    first [vm_compute; reflexivity | vm_compute; discriminate].
Defined.

Lemma keeps_runner_temp (v : option string) (I : World → Prop) :
  keeps (λ w, runner_temp w = v ∧ I w) (get_penv "RUNNER_TEMP") (λ r, r = v).
Proof. intros w [Hv Hw]. split; [now split | exact Hv]. Qed.

Ltac runner_temp_auto :=
  repeat first
    [ lazymatch goal with
      | |- preserves _ (set_penv _ _) =>
          intros ?; apply lookup_insert_ne; discriminate
      end
    | preserves_step ].

Ltac esm_event_side :=
  apply always_allows; cbn;
  first [ exact Logic.I | reflexivity | repeat split; reflexivity ].

Ltac esm_track side :=
  apply (keeps_with_field runner_temp); [solve [keeps_auto side] | solve [runner_temp_auto]].

Ltac esm_track_step side :=
  lazymatch goal with
  | |- keeps _ (mbind _ (mret _)) _ => apply keeps_ret_bind
  | |- keeps _ (mbind _ (core_getInput _ _ _)) _ =>
      eapply keeps_bind;
      [apply (keeps_with_field runner_temp);
       [apply keeps_getInput | apply preserves_getInput]
      | intros ? ->]
  | |- keeps _ (mbind _ (get_penv "RUNNER_TEMP")) _ =>
      eapply keeps_bind; [apply keeps_runner_temp | intros ? ->]
  | |- keeps _ (mbind _ _) _ => apply keeps_bind_any; [esm_track side | intros ? ]
  | |- keeps _ (try_catch _ _) _ => apply keeps_try_catch; [ | intros ?; esm_track side ]
  | |- keeps _ (try_finally _ _) _ => apply keeps_try_finally; [ | esm_track side ]
  end.

Lemma esm_deploy_events (env : Env) (pe : gmap string string) :
  keeps (λ w, runner_temp w = pe !! "RUNNER_TEMP" ∧ always (esm_event env pe) w)
    (EsmVariant.deploy env) anything.
Proof.
  pose proof (always_stable (esm_event env pe)) as Hs.
  unfold EsmVariant.deploy. cbn.
  repeat esm_track_step ltac:(esm_event_side).
  esm_track ltac:(esm_event_side).
Qed.


(** ** The [put -r] variant *)

Ltac put_recursive_side :=
  apply always_allows; cbn;
  first [ exact Logic.I | reflexivity | repeat split; reflexivity ].

Lemma put_recursive_events (env : Env) :
  keeps (always (put_recursive_event env)) (PutRecursive.deploy env) anything.
Proof.
  pose proof (always_stable (put_recursive_event env)) as Hs.
  unfold PutRecursive.deploy. cbn.
  keeps_walk ltac:(put_recursive_side).
  keeps_auto ltac:(put_recursive_side).
Qed.


Lemma put_recursive_releases (env : Env) :
  triple (released_is []) (PutRecursive.deploy env)
    (λ r w, match r with
            | Return _ =>
                released_is [EUnlink (batchFilePath env); ESpawn "ssh-agent" ["-k"] None] w
            | Throw _ => released_is [] w
            end).
Proof.
  set (Y := EUnlink (batchFilePath env)).
  set (Z := ESpawn "ssh-agent" ["-k"] None).
  pose proof (released_stable []) as Hs0.
  pose proof (released_stable [Y]) as Hs1.
  pose proof (released_stable [Y; Z]) as Hs2.
  unfold PutRecursive.deploy. cbn. fold (batchFilePath env).
  apply triple_skip;
    [solve [keeps_auto released_side] | intros ? ? H; exact H | intros _].
  apply triple_try_catch with
    (K := λ r w, match r with
                 | Return _ => released_is [Y; Z] w
                 | Throw _ => released_is [] w
                 end).
  - repeat triple_walk_step released_side ltac:(intros ? ? H; exact H).
    apply triple_bind with (K := λ r w, r = Return () ∧ released_is ([] ++ [Y]) w).
    + unfold console_log, console_warn.
      apply (released_unlink env [] (batchFilePath env)); [reflexivity | now intros].
    + intros [].
      apply triple_bind with (K := λ r w, r = Return () ∧ released_is ([Y] ++ [Z]) w).
      * apply triple_conseq with
          (I' := released_is [Y])
          (J' := λ r w, r = Return () ∧ released_is ([Y] ++ [Z]) w);
          [| now intros w [_ H] | intros ? ? H; exact H].
        unfold console_log, console_warn.
        apply (released_exec env [Y] "ssh-agent" ["-k"]);
          [reflexivity | reflexivity | now intros].
      * intros [].
        apply triple_conseq with
          (I' := released_is [Y; Z])
          (J' := λ r w, match r with
                        | Return _ => released_is [Y; Z] w
                        | Throw _ => released_is [] w
                        end);
          [| now intros w [_ H] | intros ? ? H; exact H].
        apply triple_after_emit; [released_side |].
        apply triple_ret. intros w H. exact H.
      * intros e w [H _]. discriminate H.
    + intros e w [H _]. discriminate H.
  - intros ? ? H. exact H.
  - intros e. apply keeps_never_triple;
      [keeps_auto released_side | intros ? ? H; exact H].
Qed.

(** X24: The first deploy of src/deploy.js gives back the batch script and
    the agent only when it succeeds: a run that returns has attempted to
    remove the batch script and then to stop the agent; a run that throws,
    at the transfer or anywhere else, has removed no file and stopped no
    agent. *)
Theorem put_recursive_cleanup (env : Env) (fs0 : gmap string file)
    (pe : gmap string string) :
  released (trace (PutRecursive.deploy env (initial fs0 pe)).2)
  = match (PutRecursive.deploy env (initial fs0 pe)).1 with
    | Return _ => [EUnlink (batchFilePath env); ESpawn "ssh-agent" ["-k"] None]
    | Throw _ => []
    end.
Proof.
  pose proof (put_recursive_releases env (initial fs0 pe) eq_refl) as H.
  destruct (PutRecursive.deploy env (initial fs0 pe)).1; exact H.
Qed.
